(** * mev-boost: the getHeader auction and the getPayload race

    A shallow embedding of [server/functionality.go]: [getHeader],
    [processDenebPayload] and [processElectraPayload] of [BoostService].

    Conventions of the embedding.
    - Go's [uint64] and [uint256.Int] values are [N], a [big.Int] and an
      [int] are [Z]; the code below only compares them, so no wrap-around
      arises in the modelled part.
    - Go strings are [string] (sequences of 8-bit characters); [len] is
      [String.length] and the comparison operators are lexicographic on the
      character codes ([String.compare]).
    - [phase0.Hash32], [phase0.BLSPubKey], [deneb.KZGCommitment] and
      [uuid.UUID] are byte arrays, here [list byte]; their [String] methods
      print lower-case hexadecimal.
    - Go maps are [gmap]s; reading an absent key gives the zero value.
    - A mutex-protected block is one atomic transition.  The goroutines of
      [getHeader] only share the block under [mu], so a run is the sequence
      of these blocks in the order in which the lock was taken.  The
      goroutines of the payload race share an atomic flag and a channel and
      are modelled by a small-step interleaving semantics.
    - The network, the clock and the uuid generator are inputs.
    - Calls to the logger (and [msIntoSlot], which is only logged) write
      diagnostics and return nothing the code branches on; they are not
      part of the embedding. *)

From Stdlib Require Import ZArith Lia Ascii String DecimalString.
From Stdlib.Strings Require Import Byte.
From stdpp Require Import gmap strings list fin_maps.

Local Open Scope Z_scope.

(** ** Byte arrays and their hexadecimal form *)

Module Hex.

(** One lower-case hexadecimal digit, for [n < 16]. *)
Definition hexDigit (n : N) : ascii :=
  if (n <? 10)%N then ascii_of_N (48 + n) else ascii_of_N (87 + n).

(** [hex.EncodeToString]: two digits per byte, high nibble first. *)
Fixpoint encodeHex (bs : list byte) : string :=
  match bs with
  | [] => EmptyString
  | b :: bs' =>
      String (hexDigit (Byte.to_N b / 16))
        (String (hexDigit (Byte.to_N b mod 16)) (encodeHex bs'))
  end.

(** [fmt.Sprintf("%#x", b)] on a byte array. *)
Definition sprintf_x (bs : list byte) : string :=
  String "0" (String "x" (encodeHex bs)).

(** Lexicographic comparison of byte arrays, most significant byte first. *)
Fixpoint bytes_compare (xs ys : list byte) : comparison :=
  match xs, ys with
  | [], [] => Eq
  | [], _ :: _ => Lt
  | _ :: _, [] => Gt
  | x :: xs', y :: ys' =>
      match (Byte.to_N x ?= Byte.to_N y)%N with
      | Eq => bytes_compare xs' ys'
      | c => c
      end
  end.

(** Go's [a < b] and [a >= b] on strings. *)
Definition str_lt (a b : string) : bool :=
  match String.compare a b with Lt => true | _ => false end.

Definition str_ge (a b : string) : bool := negb (str_lt a b).

End Hex.

(** ** Library types: go-eth2-client, go-builder-client, uint256, uuid *)

#[global] Instance byte_eq_dec' : EqDecision byte := Byte.byte_eq_dec.

(** [phase0.Hash32] is [[32]byte], [phase0.BLSPubKey] and
    [deneb.KZGCommitment] are [[48]byte], [phase0.Domain] is [[32]byte],
    [uuid.UUID] is [[16]byte]. *)
Definition Hash32 := list byte.
Definition BLSPubKey := list byte.
Definition KZGCommitment := list byte.
Definition Domain := list byte.
Definition UUID := list byte.

(** [time.Time], an instant of the wall clock. *)
Definition Time := Z.

Definition UserAgent := string.

Definition Hash32_String (h : Hash32) : string := Hex.sprintf_x h.
Definition BLSPubKey_String (p : BLSPubKey) : string := Hex.sprintf_x p.

(** [uuid.UUID.String]: the form xxxxxxxx-xxxx-xxxx-xxxx-xxxxxxxxxxxx. *)
Definition UUID_String (u : UUID) : string :=
  String.concat "-"
    [ Hex.encodeHex (take 4 u);
      Hex.encodeHex (take 2 (drop 4 u));
      Hex.encodeHex (take 2 (drop 6 u));
      Hex.encodeHex (take 2 (drop 8 u));
      Hex.encodeHex (drop 10 u) ].

(** The zero value of a byte array of length [n]. *)
Definition zeroBytes (n : nat) : list byte := replicate n x00.

Module U256.

(** [uint256.Int.IsZero]. *)
Definition IsZero (z : N) : bool := (z =? 0)%N.

(** [uint256.Int.Cmp]: -1, 0 or +1. *)
Definition Cmp (z x : N) : Z :=
  match (z ?= x)%N with Lt => -1 | Eq => 0 | Gt => 1 end.

(** [uint256.Int.CmpBig]: a negative [x] is smaller than any [z], an [x]
    that does not fit 256 bits is larger. *)
Definition CmpBig (z : N) (x : Z) : Z :=
  if x <? 0 then 1
  else if 2 ^ 256 <=? x then -1
  else Cmp z (Z.to_N x).

End U256.

(** [spec.DataVersion]. *)
Inductive DataVersion :=
| DataVersionUnknown
| DataVersionPhase0
| DataVersionAltair
| DataVersionBellatrix
| DataVersionCapella
| DataVersionDeneb
| DataVersionElectra.

#[global] Instance DataVersion_eq_dec : EqDecision DataVersion.
Proof. solve_decision. Defined.

(** The per-fork bodies of the library that this code never opens: the signed
    builder bids of each fork, the Bellatrix and Capella payloads, the parts
    of an execution payload besides its block hash, a blob, a proof, and the
    error values. *)
Class LibTypes := {
  BellatrixBid : Type;
  CapellaBid : Type;
  DenebBid : Type;
  ElectraBid : Type;
  BellatrixPayload : Type;
  CapellaPayload : Type;
  PayloadBody : Type;
  Blob : Type;
  KZGProof : Type;
  error : Type;
}.

(** [types.RelayEntry]. *)
Record RelayEntry := {
  PublicKey : BLSPubKey;
  URL : string;
}.

#[global] Instance RelayEntry_eq_dec : EqDecision RelayEntry.
Proof. solve_decision. Defined.

Definition isNil {A : Type} (p : option A) : bool :=
  match p with None => true | Some _ => false end.

Section Types.
Context `{LibTypes}.

(** [builderSpec.VersionedSignedBuilderBid]: a version tag and one pointer
    per fork. *)
Record VersionedSignedBuilderBid := {
  bid_Version : DataVersion;
  bid_Bellatrix : option BellatrixBid;
  bid_Capella : option CapellaBid;
  bid_Deneb : option DenebBid;
  bid_Electra : option ElectraBid;
}.

(** [VersionedSignedBuilderBid.IsEmpty]: the pointer of the tagged fork
    is nil, or the tag is of no fork that has builder bids. *)
Definition IsEmpty (v : VersionedSignedBuilderBid) : bool :=
  match bid_Version v with
  | DataVersionBellatrix => isNil (bid_Bellatrix v)
  | DataVersionCapella => isNil (bid_Capella v)
  | DataVersionDeneb => isNil (bid_Deneb v)
  | DataVersionElectra => isNil (bid_Electra v)
  | _ => true
  end.

(** [bidInfo] and [bidResp] of the server package. *)
Record bidInfo := {
  blockHash : Hash32;
  parentHash : Hash32;
  pubkey : BLSPubKey;
  blockNumber : N;
  txRoot : Hash32;
  value : N;
}.

Record bidResp := {
  br_t : Time;
  br_response : VersionedSignedBuilderBid;
  br_bidInfo : bidInfo;
  br_relays : list RelayEntry;
}.

(** Go's zero values: [bidResp{}] and what it contains. *)
Definition zeroBid : VersionedSignedBuilderBid :=
  {| bid_Version := DataVersionUnknown; bid_Bellatrix := None;
     bid_Capella := None; bid_Deneb := None; bid_Electra := None |}.

Definition zeroBidInfo : bidInfo :=
  {| blockHash := zeroBytes 32; parentHash := zeroBytes 32;
     pubkey := zeroBytes 48; blockNumber := 0%N;
     txRoot := zeroBytes 32; value := 0%N |}.

Definition zeroBidResp : bidResp :=
  {| br_t := 0; br_response := zeroBid; br_bidInfo := zeroBidInfo;
     br_relays := [] |}.

(** [deneb.ExecutionPayload], [BlobsBundle] and the response of a relay
    to a blinded block.  Deneb and Electra responses have the same shape. *)
Record ExecutionPayload := {
  ep_BlockHash : Hash32;
  ep_body : PayloadBody;
}.

Record BlobsBundle := {
  Commitments : list KZGCommitment;
  Proofs : list KZGProof;
  Blobs : list Blob;
}.

Record ExecutionPayloadAndBlobsBundle := {
  pb_ExecutionPayload : option ExecutionPayload;
  pb_BlobsBundle : option BlobsBundle;
}.

Record VersionedSubmitBlindedBlockResponse := {
  Version : DataVersion;
  Bellatrix : option BellatrixPayload;
  Capella : option CapellaPayload;
  Deneb : option ExecutionPayloadAndBlobsBundle;
  Electra : option ExecutionPayloadAndBlobsBundle;
}.

(** [new(builderApi.VersionedSubmitBlindedBlockResponse)]. *)
Definition zeroPayloadResponse : VersionedSubmitBlindedBlockResponse :=
  {| Version := DataVersionUnknown; Bellatrix := None; Capella := None;
     Deneb := None; Electra := None |}.

(** The signed blinded beacon block of a fork.  The code reads the slot,
    the two hashes of the execution payload header and the blob
    commitments; [R] stands for all the rest, which differs between
    Deneb and Electra. *)
Record ExecutionPayloadHeader := {
  eph_ParentHash : Hash32;
  eph_BlockHash : Hash32;
}.

Record BlindedBeaconBlockBody := {
  body_ExecutionPayloadHeader : ExecutionPayloadHeader;
  BlobKZGCommitments : list KZGCommitment;
}.

Record BlindedBeaconBlock := {
  Slot : N;
  Body : BlindedBeaconBlockBody;
}.

Record SignedBlindedBeaconBlock (R : Type) := {
  Message : BlindedBeaconBlock;
  block_rest : R;
}.

End Types.

Arguments Message {_} _.
Arguments block_rest {_} _.

(** The functions, constants and settings of the repository that
    [functionality.go] uses and that are declared in other files. *)
Class Helpers `{LibTypes} := {
  (** [parseBidInfo]: the fields of the bid, or an error when one is
      missing. *)
  parseBidInfo : VersionedSignedBuilderBid -> error + bidInfo;
  (** [checkRelaySignature]: the BLS check of the bid's signature. *)
  checkRelaySignature :
    VersionedSignedBuilderBid -> Domain -> BLSPubKey -> error + bool;
  (** [getPayloadResponseIsEmpty]. *)
  getPayloadResponseIsEmpty : VersionedSubmitBlindedBlockResponse -> bool;
  (** [bidKey]: the key of the bid cache. *)
  bidKey : N -> Hash32 -> string;
  (** [RelayEntry.GetURI]. *)
  GetURI : RelayEntry -> string -> string;
  (** [config.SkipRelaySignatureCheck]. *)
  SkipRelaySignatureCheck : bool;
  (** The fork-specific remainders of the two blinded block types. *)
  DenebBlockRest : Type;
  ElectraBlockRest : Type;
}.

(** Modelled from the spec: the constant [nilHash], the all-zero hash
    ("Extracted blockHash ≠ 0 (all-zero sentinel)"). *)
Definition nilHash : Hash32 := zeroBytes 32.

(** Modelled from the spec: the names of the two request headers,
    [HeaderKeySlotUID] and [HeaderStartTimeUnixMS]. *)
Definition HeaderKeySlotUID : string := "X-MEVBoost-SlotUID".
Definition HeaderStartTimeUnixMS : string := "X-MEVBoost-StartTimeUnixMS".

(** Modelled from the spec: [params.PathGetPayload], the path of the
    unblinding endpoint. *)
Definition PathGetPayload : string := "/eth/v1/builder/blinded_blocks".

(** [http.StatusNoContent]. *)
Definition StatusNoContent : Z := 204.

(** ** The service and [getHeader] *)

(** The struct [slotUID]. *)
Record slotUIDT := {
  slot : N;
  uid : UUID;
}.

(** [http.Client], of which the code reads the timeout. *)
Record HTTPClient := {
  Timeout : Z;
}.

(** The two errors that [getHeader] returns. *)
Inductive getHeaderError :=
| errInvalidPubkey
| errInvalidHash.

(** What [SendHTTPRequest] is called with. *)
Record Request (B : Type) := {
  req_method : string;
  req_url : string;
  req_ua : UserAgent;
  req_headers : gmap string string;
  req_body : option B;
}.
Arguments req_method {B} _.
Arguments req_url {B} _.
Arguments req_ua {B} _.
Arguments req_headers {B} _.
Arguments req_body {B} _.

(** [fmt.Sprintf("%d", n)]. *)
Definition sprintf_d (n : Z) : string := NilZero.string_of_int (Z.to_int n).

Section Service.
Context `{Helpers}.

(** What [SendHTTPRequest] gives back: the status code, the error, and the
    body decoded into the value that the caller passed. *)
Record Reply (A : Type) := {
  code : Z;
  err : option error;
  payload : A;
}.
Arguments code {A} _.
Arguments err {A} _.
Arguments payload {A} _.

(** [BoostService]; the two mutexes are the atomicity of the blocks they
    protect. *)
Record BoostService := {
  relays : list RelayEntry;
  relayMinBid : Z;
  genesisTime : N;
  builderSigningDomain : Domain;
  httpClientGetHeader : HTTPClient;
  httpClientGetPayload : HTTPClient;
  requestMaxRetries : Z;
  bids : gmap string bidResp;
  slotUID : slotUIDT;
}.

Definition set_slotUID (m : BoostService) (s : slotUIDT) : BoostService :=
  {| relays := relays m; relayMinBid := relayMinBid m;
     genesisTime := genesisTime m;
     builderSigningDomain := builderSigningDomain m;
     httpClientGetHeader := httpClientGetHeader m;
     httpClientGetPayload := httpClientGetPayload m;
     requestMaxRetries := requestMaxRetries m;
     bids := bids m; slotUID := s |}.

(** The variables that the goroutines of [getHeader] share under [mu]:
    [result] and the map [relays]. *)
Record Auction := {
  au_result : bidResp;
  au_relays : gmap string (list RelayEntry);
}.

Definition emptyTxRoot : string :=
  "0x7ffe241ea60187fdb0187bfa22de35d1f9bed7ab061d9401fd47e34a54fbede1".

(** The goroutine of one relay, up to [mu.Lock]: the request has returned
    [r]; [None] is an early [return], [Some bidInfo] reaches the lock. *)
Definition relayCheck (m : BoostService) (parentHashHex : string)
    (relay : RelayEntry) (r : Reply VersionedSignedBuilderBid)
    : option bidInfo :=
  let responsePayload := payload r in
  if isNil (err r) then
    if code r =? StatusNoContent then None
    else if IsEmpty responsePayload then None
    else
      match parseBidInfo responsePayload with
      | inl _ => None
      | inr bidInfo =>
          if bool_decide (blockHash bidInfo = nilHash) then None
          else if bool_decide (BLSPubKey_String (PublicKey relay)
                               ≠ BLSPubKey_String (pubkey bidInfo))
          then None
          else
            let badSignature :=
              if negb SkipRelaySignatureCheck then
                match checkRelaySignature responsePayload
                        (builderSigningDomain m) (PublicKey relay) with
                | inl _ => true
                | inr ok => negb ok
                end
              else false in
            if badSignature then None
            else if bool_decide (Hash32_String (parentHash bidInfo)
                                 ≠ parentHashHex)
            then None
            else
              let isZeroValue := U256.IsZero (value bidInfo) in
              let isEmptyListTxRoot :=
                bool_decide (Hash32_String (txRoot bidInfo) = emptyTxRoot) in
              if isZeroValue || isEmptyListTxRoot then None
              else if U256.CmpBig (value bidInfo) (relayMinBid m) =? -1
              then None
              else Some bidInfo
      end
  else None.

(** The block under [mu]: the relay is appended to the list of its block
    hash, then the bid is compared with the best one so far. *)
Definition relayCommit (relay : RelayEntry)
    (responsePayload : VersionedSignedBuilderBid) (bidInfo : bidInfo)
    (now : Time) (st : Auction) : Auction :=
  let result := au_result st in
  let key := Hash32_String (blockHash bidInfo) in
  let relays' :=
    <[key := default [] (au_relays st !! key) ++ [relay]]> (au_relays st) in
  let keep := {| au_result := result; au_relays := relays' |} in
  let adopt :=
    {| au_result :=
         {| br_t := now; br_response := responsePayload;
            br_bidInfo := bidInfo; br_relays := br_relays result |};
       au_relays := relays' |} in
  if negb (IsEmpty (br_response result)) then
    let valueDiff := U256.Cmp (value bidInfo) (value (br_bidInfo result)) in
    if valueDiff =? -1 then keep
    else if valueDiff =? 0 then
      let previousBidBlockHash := blockHash (br_bidInfo result) in
      if Hex.str_ge (Hash32_String (blockHash bidInfo))
                    (Hash32_String previousBidBlockHash)
      then keep
      else adopt
    else adopt
  else adopt.

Definition relayTask (m : BoostService) (parentHashHex : string)
    (relay : RelayEntry) (r : Reply VersionedSignedBuilderBid)
    (now : Time) (st : Auction) : Auction :=
  match relayCheck m parentHashHex relay r with
  | None => st
  | Some bidInfo => relayCommit relay (payload r) bidInfo now st
  end.

(** What one call of [getHeader] meets outside the service: the value of
    [uuid.New], the clock at the start, the reply of the relay at each
    index of [m.relays], the order in which the goroutines take [mu], and
    the clock inside the block. *)
Record HeaderWorld := {
  newUID : UUID;
  startMS : Z;
  reply : nat -> Reply VersionedSignedBuilderBid;
  order : list nat;
  clock : nat -> Time;
}.

Definition initAuction : Auction :=
  {| au_result := zeroBidResp; au_relays := ∅ |}.

(** The goroutines, in the order [order]. *)
Definition runAuction (m : BoostService) (parentHashHex : string)
    (reply : nat -> Reply VersionedSignedBuilderBid) (clock : nat -> Time)
    (order : list nat) (st : Auction) : Auction :=
  foldl (fun st i =>
           match relays m !! i with
           | Some relay => relayTask m parentHashHex relay (reply i) (clock i) st
           | None => st
           end) st order.

Definition headerRequest (ua : UserAgent) (_slot : N)
    (pubkey parentHashHex : string) (headers : gmap string string)
    (relay : RelayEntry) : Request unit :=
  let path :=
    String.concat ""
      [ "/eth/v1/builder/header/"; sprintf_d (Z.of_N _slot); "/";
        parentHashHex; "/"; pubkey ] in
  {| req_method := "GET"; req_url := GetURI relay path; req_ua := ua;
     req_headers := headers; req_body := None |}.

(** [getHeader]: the service after the call, the requests sent, and the
    two return values. *)
Definition getHeader (m : BoostService) (ua : UserAgent) (_slot : N)
    (pubkey parentHashHex : string) (w : HeaderWorld)
    : BoostService * list (Request unit) * (bidResp * option getHeaderError) :=
  if bool_decide (String.length pubkey ≠ 98%nat) then
    (m, [], (zeroBidResp, Some errInvalidPubkey))
  else if bool_decide (String.length parentHashHex ≠ 66%nat) then
    (m, [], (zeroBidResp, Some errInvalidHash))
  else
    let m' :=
      if (slot (slotUID m) <? _slot)%N
      then set_slotUID m {| slot := _slot; uid := newUID w |}
      else m in
    let slotUID := uid (slotUID m') in
    let headers : gmap string string :=
      {[ HeaderKeySlotUID := UUID_String slotUID;
         HeaderStartTimeUnixMS := sprintf_d (startMS w) ]} in
    let requests :=
      map (headerRequest ua _slot pubkey parentHashHex headers) (relays m) in
    let st :=
      runAuction m parentHashHex (reply w) (clock w) (order w) initAuction in
    let result := au_result st in
    let result :=
      {| br_t := br_t result; br_response := br_response result;
         br_bidInfo := br_bidInfo result;
         br_relays :=
           default []
             (au_relays st !! Hash32_String (blockHash (br_bidInfo result))) |} in
    (m', requests, (result, None)).

End Service.

Arguments code {_ _} _.
Arguments err {_ _} _.
Arguments payload {_ _} _.

(** ** A stand-in for the library and the helpers

    One concrete choice of the types and functions that the development leaves
    open, on which the definitions above can be run.  A bid carries its
    fields and a signature; the stand-in signature of a relay over a domain
    is its public key followed by the domain. *)

Module Mock.

Record MockBid := {
  mb_info : bidInfo;
  mb_signature : list byte;
}.

#[export] Instance mockTypes : LibTypes := {|
  BellatrixBid := MockBid;
  CapellaBid := MockBid;
  DenebBid := MockBid;
  ElectraBid := MockBid;
  BellatrixPayload := Hash32;
  CapellaPayload := Hash32;
  PayloadBody := list byte;
  Blob := list byte;
  KZGProof := list byte;
  error := string;
|}.

Definition mockParse (v : VersionedSignedBuilderBid) : string + bidInfo :=
  let arm :=
    match bid_Version v with
    | DataVersionBellatrix => bid_Bellatrix v
    | DataVersionCapella => bid_Capella v
    | DataVersionDeneb => bid_Deneb v
    | DataVersionElectra => bid_Electra v
    | _ => None
    end in
  match arm with
  | Some b => inr (mb_info b)
  | None => inl "no data"
  end.

Definition mockSignature (v : VersionedSignedBuilderBid) : list byte :=
  match bid_Version v, bid_Deneb v, bid_Electra v with
  | DataVersionDeneb, Some b, _ => mb_signature b
  | DataVersionElectra, _, Some b => mb_signature b
  | _, _, _ => []
  end.

Definition mockCheck (v : VersionedSignedBuilderBid) (d : Domain)
    (pk : BLSPubKey) : string + bool :=
  inr (bool_decide (mockSignature v = pk ++ d)).

Definition mockIsEmpty (p : VersionedSubmitBlindedBlockResponse) : bool :=
  let arm :=
    match Version p with
    | DataVersionDeneb => Deneb p
    | DataVersionElectra => Electra p
    | _ => None
    end in
  match arm with
  | Some a =>
      match pb_ExecutionPayload a, pb_BlobsBundle a with
      | Some e, Some _ => bool_decide (ep_BlockHash e = nilHash)
      | _, _ => true
      end
  | None => true
  end.

#[export] Instance mockHelpers : Helpers := {|
  parseBidInfo := mockParse;
  checkRelaySignature := mockCheck;
  getPayloadResponseIsEmpty := mockIsEmpty;
  bidKey := fun s h => String.append (sprintf_d (Z.of_N s)) (Hash32_String h);
  GetURI := fun relay path => String.append (URL relay) path;
  SkipRelaySignatureCheck := false;
  DenebBlockRest := unit;
  ElectraBlockRest := unit;
|}.

(** Two relays, a domain and a parent hash. *)
Definition keyA : BLSPubKey := replicate 48 x0a.
Definition keyB : BLSPubKey := replicate 48 x0b.
Definition relayA : RelayEntry := {| PublicKey := keyA; URL := "https://a" |}.
Definition relayB : RelayEntry := {| PublicKey := keyB; URL := "https://b" |}.
Definition domain : Domain := replicate 32 x01.
Definition parent : Hash32 := replicate 32 xcc.
Definition parentHex : string := Hash32_String parent.
Definition pubkeyHex : string := BLSPubKey_String (replicate 48 xee).

(** A Deneb bid of relay key [pk] for block hash [h] and value [v], signed
    by [pk]. *)
Definition mkInfo (pk : BLSPubKey) (h : Hash32) (v : N) : bidInfo :=
  {| blockHash := h; parentHash := parent; pubkey := pk; blockNumber := 7;
     txRoot := replicate 32 x11; value := v |}.

Definition mkBid (pk : BLSPubKey) (h : Hash32) (v : N)
    : VersionedSignedBuilderBid :=
  {| bid_Version := DataVersionDeneb; bid_Bellatrix := None;
     bid_Capella := None;
     bid_Deneb := Some {| mb_info := mkInfo pk h v;
                          mb_signature := pk ++ domain |};
     bid_Electra := None |}.

Definition ok200 {A : Type} (a : A) : Reply A :=
  {| code := 200; err := None; payload := a |}.

Definition service (rs : list RelayEntry) : BoostService :=
  {| relays := rs; relayMinBid := 1; genesisTime := 0;
     builderSigningDomain := domain;
     httpClientGetHeader := {| Timeout := 950 |};
     httpClientGetPayload := {| Timeout := 4000 |};
     requestMaxRetries := 5; bids := ∅;
     slotUID := {| slot := 0; uid := zeroBytes 16 |} |}.

Definition hashAA : Hash32 := replicate 32 xaa.
Definition hashBB : Hash32 := replicate 32 xbb.

(** Both relays offer the same block at the same value. *)
Definition sameBlockReplies (i : nat) : Reply VersionedSignedBuilderBid :=
  match i with
  | O => ok200 (mkBid keyA hashAA 1000)
  | _ => ok200 (mkBid keyB hashAA 1000)
  end.

Definition world (rp : nat -> Reply VersionedSignedBuilderBid)
    (ord : list nat) : HeaderWorld :=
  {| newUID := replicate 16 x42; startMS := 1700000000000; reply := rp;
     order := ord; clock := fun i => Z.of_nat i |}.

(** The scenarios of the specification: distinct values; a tie on the
    value; a bid with a bad signature; a bid for another parent. *)
Definition hash11 : Hash32 := replicate 32 x11.
Definition hash22 : Hash32 := replicate 32 x22.

Definition distinctReplies (i : nat) : Reply VersionedSignedBuilderBid :=
  match i with
  | O => ok200 (mkBid keyA hashAA 1000)
  | _ => ok200 (mkBid keyB hashBB 2000)
  end.

Definition tieReplies (i : nat) : Reply VersionedSignedBuilderBid :=
  match i with
  | O => ok200 (mkBid keyA hash22 1000)
  | _ => ok200 (mkBid keyB hash11 1000)
  end.

Definition badSignatureBid : VersionedSignedBuilderBid :=
  {| bid_Version := DataVersionDeneb; bid_Bellatrix := None;
     bid_Capella := None;
     bid_Deneb := Some {| mb_info := mkInfo keyA hashAA 1000;
                          mb_signature := keyB ++ domain |};
     bid_Electra := None |}.

Definition otherParentBid : VersionedSignedBuilderBid :=
  {| bid_Version := DataVersionDeneb; bid_Bellatrix := None;
     bid_Capella := None;
     bid_Deneb :=
       Some {| mb_info :=
                 {| blockHash := hashAA; parentHash := replicate 32 xdd;
                    pubkey := keyA; blockNumber := 7;
                    txRoot := replicate 32 x11; value := 1000 |};
               mb_signature := keyA ++ domain |};
     bid_Electra := None |}.

(** The helpers with the signature check switched off. *)
Definition mockHelpersSkip : Helpers := {|
  parseBidInfo := mockParse;
  checkRelaySignature := mockCheck;
  getPayloadResponseIsEmpty := mockIsEmpty;
  bidKey := fun s h => String.append (sprintf_d (Z.of_N s)) (Hash32_String h);
  GetURI := fun relay path => String.append (URL relay) path;
  SkipRelaySignatureCheck := true;
  DenebBlockRest := unit;
  ElectraBlockRest := unit;
|}.

End Mock.

(** ** The input format in the words of the specification *)

(** "0x followed by [n] hexadecimal digits". *)
Definition isHexDigit (c : ascii) : bool :=
  let k := N_of_ascii c in
  ((48 <=? k) && (k <=? 57) || (97 <=? k) && (k <=? 102)
   || (65 <=? k) && (k <=? 70))%N.

Fixpoint allHexDigits (s : string) : bool :=
  match s with
  | EmptyString => true
  | String c s' => isHexDigit c && allHexDigits s'
  end.

Definition specHexString (n : nat) (s : string) : bool :=
  match s with
  | String "0" (String "x" digits) =>
      (String.length digits =? n)%nat && allHexDigits digits
  | _ => false
  end.

(** A string of 98 characters that is not hexadecimal, and one that is too
    short. *)
Fixpoint repeatChar (n : nat) (c : ascii) : string :=
  match n with
  | O => EmptyString
  | S n' => String c (repeatChar n' c)
  end.

Definition notHex98 : string := repeatChar 98 "z".
Definition tooShort : string := "0x12".

(** ** The rank of a bid

    What the ranking step compares: the value and the block hash.
    [keyCompare c b = Lt] when [c] comes before [b] in the order "greater
    value first, then smaller block hash first". *)

Definition BidKey : Type := N * Hash32.

Definition keyCompare (c b : BidKey) : comparison :=
  match (fst b ?= fst c)%N with
  | Eq => Hex.bytes_compare (snd c) (snd b)
  | o => o
  end.

Definition rank (cur : option BidKey) (c : BidKey) : option BidKey :=
  match cur with
  | None => Some c
  | Some b => match keyCompare c b with Lt => Some c | _ => Some b end
  end.

Section AuctionViews.
Context `{Helpers}.

(** The rank of the best bid, if there is one. *)
Definition bestKey (st : Auction) : option BidKey :=
  if IsEmpty (br_response (au_result st)) then None
  else Some (value (br_bidInfo (au_result st)),
             blockHash (br_bidInfo (au_result st))).

(** The rank of the bid of the relay at index [i], when it passes the
    checks. *)
Definition keyAt (m : BoostService) (parentHashHex : string)
    (reply : nat -> Reply VersionedSignedBuilderBid) (i : nat)
    : option BidKey :=
  match relays m !! i with
  | Some relay =>
      match relayCheck m parentHashHex relay (reply i) with
      | Some bi => Some (value bi, blockHash bi)
      | None => None
      end
  | None => None
  end.

(** The relay at index [i], when its bid passes the checks and is for the
    block hash printed as [k]. *)
Definition relayAt (m : BoostService) (parentHashHex : string)
    (reply : nat -> Reply VersionedSignedBuilderBid) (k : string) (i : nat)
    : option RelayEntry :=
  match relays m !! i with
  | Some relay =>
      match relayCheck m parentHashHex relay (reply i) with
      | Some bi =>
          if decide (Hash32_String (blockHash bi) = k) then Some relay else None
      | None => None
      end
  | None => None
  end.

(** While no bid has been adopted the best bid is the zero value. *)
Definition emptyIsZero (st : Auction) : Prop :=
  IsEmpty (br_response (au_result st)) = true ->
  br_bidInfo (au_result st) = zeroBidInfo.

End AuctionViews.

(** ** The payload race: [processDenebPayload], [processElectraPayload] *)

(** How the body of a relay goroutine ends once its request has returned:
    by a [return] without a value, by going on to deliver the response, or
    by a run-time panic (nil pointer, index out of range). *)
Inductive checkOutcome :=
| Return
| Deliver
| Panic.

(** The caller of a coordinator: it has returned a value, it still waits on
    the channel, or the process has died of a panic. *)
Inductive outcome (A : Type) :=
| Returned (a : A)
| Waiting
| Crashed.
Arguments Returned {A} a.
Arguments Waiting {A}.
Arguments Crashed {A}.

Section Unblinding.
Context `{Helpers}.

Local Abbreviation Resp := VersionedSubmitBlindedBlockResponse.

(** Where the goroutine of one relay stands. *)
Inductive taskPC :=
| Dispatched              (* in SendHTTPRequestWithRetries *)
| AtCancel (p : Resp)     (* the checks passed; next requestCtxCancel() *)
| AtCAS (p : Resp)        (* next received.CompareAndSwap(false, true) *)
| AtSend (p : Resp)       (* the swap succeeded; next resultCh <- p *)
| Finished.

(** The variables that the goroutines of a coordinator share. *)
Record Race := {
  received : bool;                    (* the atomic flag *)
  ctxCancelled : bool;                (* requestCtx *)
  resultCh : list (option Resp);      (* the buffer of the channel *)
  result : option (option Resp);      (* what the caller has read, if it has *)
  sentinelDone : bool;                (* the timeout goroutine has sent nil *)
  crashed : bool;                     (* a goroutine has panicked *)
  tasks : list taskPC;                (* one goroutine per relay *)
}.

Definition initRace (n : nat) : Race :=
  {| received := false; ctxCancelled := false; resultCh := []; result := None;
     sentinelDone := false; crashed := false;
     tasks := replicate n Dispatched |}.

(** What can happen next: the sleep of the sentinel is over and it sends
    [nil]; the request of relay [i] returns [r]; the goroutine of relay [i]
    takes its next step; the caller receives from the channel. *)
Inductive event :=
| SentinelFires
| HTTPReturns (i : nat) (r : Reply Resp)
| Step (i : nat)
| CallerReceives.

(** A send on the channel of capacity [cap]: into the buffer when there
    is room; straight to the caller when the channel is unbuffered and the
    caller waits (it then returns, and its deferred [requestCtxCancel]
    runs); [None] when the sender has to wait. *)
Definition chanSend (cap : nat) (v : option Resp) (st : Race) : option Race :=
  if (length (resultCh st) <? cap)%nat then
    Some {| received := received st; ctxCancelled := ctxCancelled st;
            resultCh := resultCh st ++ [v]; result := result st;
            sentinelDone := sentinelDone st; crashed := crashed st;
            tasks := tasks st |}
  else if (cap =? 0)%nat && isNil (result st) then
    Some {| received := received st; ctxCancelled := true;
            resultCh := resultCh st; result := Some v;
            sentinelDone := sentinelDone st; crashed := crashed st;
            tasks := tasks st |}
  else None.

Definition setTask (i : nat) (pc : taskPC) (st : Race) : Race :=
  {| received := received st; ctxCancelled := ctxCancelled st;
     resultCh := resultCh st; result := result st;
     sentinelDone := sentinelDone st; crashed := crashed st;
     tasks := <[i := pc]> (tasks st) |}.

(** One event.  An event that is not possible in [st] (the goroutine is
    elsewhere, the sender has to wait, the process is dead) changes
    nothing. *)
Definition raceStep (cap : nat) (check : Reply Resp -> checkOutcome)
    (st : Race) (ev : event) : Race :=
  if crashed st then st
  else
    match ev with
    | SentinelFires =>
        if sentinelDone st then st
        else
          match chanSend cap None st with
          | Some st' =>
              {| received := received st'; ctxCancelled := ctxCancelled st';
                 resultCh := resultCh st'; result := result st';
                 sentinelDone := true; crashed := crashed st';
                 tasks := tasks st' |}
          | None => st
          end
    | HTTPReturns i r =>
        match tasks st !! i with
        | Some Dispatched =>
            match check r with
            | Return => setTask i Finished st
            | Deliver => setTask i (AtCancel (payload r)) st
            | Panic =>
                {| received := received st; ctxCancelled := ctxCancelled st;
                   resultCh := resultCh st; result := result st;
                   sentinelDone := sentinelDone st; crashed := true;
                   tasks := tasks st |}
            end
        | _ => st
        end
    | Step i =>
        match tasks st !! i with
        | Some (AtCancel p) =>
            {| received := received st; ctxCancelled := true;
               resultCh := resultCh st; result := result st;
               sentinelDone := sentinelDone st; crashed := crashed st;
               tasks := <[i := AtCAS p]> (tasks st) |}
        | Some (AtCAS p) =>
            if received st then setTask i Finished st
            else
              {| received := true; ctxCancelled := ctxCancelled st;
                 resultCh := resultCh st; result := result st;
                 sentinelDone := sentinelDone st; crashed := crashed st;
                 tasks := <[i := AtSend p]> (tasks st) |}
        | Some (AtSend p) =>
            match chanSend cap (Some p) st with
            | Some st' => setTask i Finished st'
            | None => st
            end
        | _ => st
        end
    | CallerReceives =>
        match result st, resultCh st with
        | None, v :: q =>
            {| received := received st; ctxCancelled := true;
               resultCh := q; result := Some v;
               sentinelDone := sentinelDone st; crashed := crashed st;
               tasks := tasks st |}
        | _, _ => st
        end
    end.

Definition runRace (cap : nat) (check : Reply Resp -> checkOutcome)
    (schedule : list event) (st : Race) : Race :=
  foldl (raceStep cap check) st schedule.

(** The caller, at [result := <-resultCh] and the [return] after it. *)
Definition callerOutcome {A : Type} (st : Race) (originalBid : A)
    : outcome (option Resp * A) :=
  match result st with
  | Some v => Returned (v, originalBid)
  | None => if crashed st then Crashed else Waiting
  end.

(** The loop over the commitments of the blinded block. *)
Fixpoint commitmentsLoop (i : nat) (commitments : list KZGCommitment)
    (blobs : BlobsBundle) : checkOutcome :=
  match commitments with
  | [] => Deliver
  | commitment :: rest =>
      match Commitments blobs !! i with
      | None => Panic
      | Some c =>
          if bool_decide (commitment ≠ c) then Return
          else commitmentsLoop (S i) rest blobs
      end
  end.

(** What a call of a coordinator meets outside the service: the clock at
    the start and the events of the race in the order in which they
    happen. *)
Record PayloadWorld := {
  pw_startMS : Z;
  schedule : list event;
}.

Definition payloadHeaders (currentSlotUID : string) (w : PayloadWorld)
    : gmap string string :=
  {[ HeaderKeySlotUID := currentSlotUID;
     HeaderStartTimeUnixMS := sprintf_d (pw_startMS w) ]}.

(** The call of [SendHTTPRequestWithRetries] of one relay: the request and
    the number of retries. *)
Definition payloadRequest {R : Type} (m : BoostService) (ua : UserAgent)
    (headers : gmap string string) (blindedBlock : SignedBlindedBeaconBlock R)
    (relay : RelayEntry) : Request (SignedBlindedBeaconBlock R) * Z :=
  ({| req_method := "POST"; req_url := GetURI relay PathGetPayload;
      req_ua := ua; req_headers := headers; req_body := Some blindedBlock |},
   requestMaxRetries m).

(** The body of the relay goroutine of [processDenebPayload] after the
    request has returned, up to [requestCtxCancel]. *)
Definition denebRelayChecks
    (blindedBlock : SignedBlindedBeaconBlock DenebBlockRest)
    (r : Reply Resp) : checkOutcome :=
  let responsePayload := payload r in
  if isNil (err r) then
    if bool_decide (Version responsePayload ≠ DataVersionDeneb) then Return
    else if getPayloadResponseIsEmpty responsePayload then Return
    else
      match Deneb responsePayload with
      | None => Panic
      | Some arm =>
          let payload := pb_ExecutionPayload arm in
          let blobs := pb_BlobsBundle arm in
          match payload with
          | None => Panic
          | Some payload =>
              if bool_decide
                   (eph_BlockHash
                      (body_ExecutionPayloadHeader (Body (Message blindedBlock)))
                    ≠ ep_BlockHash payload)
              then Return
              else
                let commitments := BlobKZGCommitments (Body (Message blindedBlock)) in
                match blobs with
                | None => Panic
                | Some blobs =>
                    if bool_decide (length commitments ≠ length (Blobs blobs))
                       || bool_decide (length commitments ≠ length (Commitments blobs))
                       || bool_decide (length commitments ≠ length (Proofs blobs))
                    then Return
                    else commitmentsLoop 0 commitments blobs
                end
          end
      end
  else Return.

(** [processDenebPayload]: the service after the call, the requests
    sent, and the two return values. *)
Definition processDenebPayload (m : BoostService) (ua : UserAgent)
    (blindedBlock : SignedBlindedBeaconBlock DenebBlockRest) (w : PayloadWorld)
    : BoostService
      * list (Request (SignedBlindedBeaconBlock DenebBlockRest) * Z)
      * outcome (option Resp * bidResp) :=
  let currentSlotUID :=
    if (slot (slotUID m) =? Slot (Message blindedBlock))%N
    then UUID_String (uid (slotUID m))
    else "" in
  let originalBid :=
    default zeroBidResp
      (bids m !! bidKey (Slot (Message blindedBlock))
                   (eph_BlockHash
                      (body_ExecutionPayloadHeader (Body (Message blindedBlock))))) in
  let headers := payloadHeaders currentSlotUID w in
  let requests := map (payloadRequest m ua headers blindedBlock) (relays m) in
  let st :=
    runRace (length (relays m)) (denebRelayChecks blindedBlock) (schedule w)
      (initRace (length (relays m))) in
  (m, requests, callerOutcome st originalBid).

(** The body of the relay goroutine of [processElectraPayload]. *)
Definition electraRelayChecks
    (blindedBlock : SignedBlindedBeaconBlock ElectraBlockRest)
    (r : Reply Resp) : checkOutcome :=
  let responsePayload := payload r in
  if isNil (err r) then
    if bool_decide (Version responsePayload ≠ DataVersionElectra) then Return
    else if getPayloadResponseIsEmpty responsePayload then Return
    else
      match Electra responsePayload with
      | None => Panic
      | Some arm =>
          let payload := pb_ExecutionPayload arm in
          let blobs := pb_BlobsBundle arm in
          match payload with
          | None => Panic
          | Some payload =>
              if bool_decide
                   (eph_BlockHash
                      (body_ExecutionPayloadHeader (Body (Message blindedBlock)))
                    ≠ ep_BlockHash payload)
              then Return
              else
                let commitments := BlobKZGCommitments (Body (Message blindedBlock)) in
                match blobs with
                | None => Panic
                | Some blobs =>
                    if bool_decide (length commitments ≠ length (Blobs blobs))
                       || bool_decide (length commitments ≠ length (Commitments blobs))
                       || bool_decide (length commitments ≠ length (Proofs blobs))
                    then Return
                    else commitmentsLoop 0 commitments blobs
                end
          end
      end
  else Return.

(** [processElectraPayload]. *)
Definition processElectraPayload (m : BoostService) (ua : UserAgent)
    (blindedBlock : SignedBlindedBeaconBlock ElectraBlockRest) (w : PayloadWorld)
    : BoostService
      * list (Request (SignedBlindedBeaconBlock ElectraBlockRest) * Z)
      * outcome (option Resp * bidResp) :=
  let currentSlotUID :=
    if (slot (slotUID m) =? Slot (Message blindedBlock))%N
    then UUID_String (uid (slotUID m))
    else "" in
  let originalBid :=
    default zeroBidResp
      (bids m !! bidKey (Slot (Message blindedBlock))
                   (eph_BlockHash
                      (body_ExecutionPayloadHeader (Body (Message blindedBlock))))) in
  let headers := payloadHeaders currentSlotUID w in
  let requests := map (payloadRequest m ua headers blindedBlock) (relays m) in
  let st :=
    runRace (length (relays m)) (electraRelayChecks blindedBlock) (schedule w)
      (initRace (length (relays m))) in
  (m, requests, callerOutcome st originalBid).

End Unblinding.

(** ** Notions used to state the properties of the race *)

Section RaceViews.
Context `{Helpers}.

Local Abbreviation Resp := VersionedSubmitBlindedBlockResponse.

(** Everything sent on the channel so far, in the order of sending: the
    value the caller has read, then the buffer. *)
Definition posted (st : Race) : list (option Resp) :=
  match result st with Some v => [v] | None => [] end ++ resultCh st.

(** The payloads among the values sent. *)
Definition payloadsOf (l : list (option Resp)) : list Resp := omap id l.

(** 1 for a goroutine that has won the swap and has not sent yet. *)
Definition holdsToken (pc : taskPC) : nat :=
  match pc with AtSend _ => 1 | _ => 0 end.

(** The payload that a goroutine carries past the checks. *)
Definition carried (pc : taskPC) : option Resp :=
  match pc with
  | AtCancel p | AtCAS p | AtSend p => Some p
  | _ => None
  end.

(** Payload coherence, in the words of the specification: the version is
    the one of the fork, the response is not empty, the block hash is the
    one of the blinded block, the three vectors of the blobs bundle are as
    long as the commitments of the blinded block, and the commitments agree
    at every index. *)
Definition coherent {R : Type} (version : DataVersion)
    (arm : Resp -> option ExecutionPayloadAndBlobsBundle)
    (blindedBlock : SignedBlindedBeaconBlock R) (p : Resp) : Prop :=
  Version p = version /\
  getPayloadResponseIsEmpty p = false /\
  exists a e b,
    arm p = Some a /\ pb_ExecutionPayload a = Some e /\
    pb_BlobsBundle a = Some b /\
    ep_BlockHash e
    = eph_BlockHash (body_ExecutionPayloadHeader (Body (Message blindedBlock))) /\
    let commitments := BlobKZGCommitments (Body (Message blindedBlock)) in
    length (Blobs b) = length commitments /\
    length (Commitments b) = length commitments /\
    length (Proofs b) = length commitments /\
    forall i c, commitments !! i = Some c -> Commitments b !! i = Some c.

(** A payload that has passed the checks of a goroutine. *)
Definition checked (check : Reply Resp -> checkOutcome) (p : Resp) : Prop :=
  exists r, check r = Deliver /\ payload r = p.

(** The invariant of the race on a channel of capacity [cap]: the payloads
    sent and the goroutines about to send are at most one, and none unless
    the flag is set; what is sent or carried has passed the checks; the
    buffer holds at most [cap] values; [nil] is among the values sent
    exactly when the sentinel has sent it. *)
Definition raceInv (cap : nat) (check : Reply Resp -> checkOutcome)
    (st : Race) : Prop :=
  (length (payloadsOf (posted st)) + sum_list (holdsToken <$> tasks st)
   <= Nat.b2n (received st))%nat /\
  (forall p, Some p ∈ posted st -> checked check p) /\
  Forall (fun pc => forall p, carried pc = Some p -> checked check p) (tasks st) /\
  (length (resultCh st) <= cap)%nat /\
  (None ∈ posted st <-> sentinelDone st = true).

(** *** The generic coordinator of the specification

    The fork descriptor: the version expected in the response, and the arm
    of the response that holds the execution payload and the blobs
    bundle. *)
Record ForkDescriptor := {
  expectedVersion : DataVersion;
  responseArm : Resp -> option ExecutionPayloadAndBlobsBundle;
}.

Definition denebFork : ForkDescriptor :=
  {| expectedVersion := DataVersionDeneb; responseArm := Deneb |}.

Definition electraFork : ForkDescriptor :=
  {| expectedVersion := DataVersionElectra; responseArm := Electra |}.

(** The payload validator (section 4.5, step 3 of the race): the five
    checks in their order.  Opening a part that is absent is a panic. *)
Definition validatePayload {R : Type} (fd : ForkDescriptor)
    (blindedBlock : SignedBlindedBeaconBlock R) (response : Resp)
    : checkOutcome :=
  let header := body_ExecutionPayloadHeader (Body (Message blindedBlock)) in
  let commitments := BlobKZGCommitments (Body (Message blindedBlock)) in
  if negb (bool_decide (Version response = expectedVersion fd)) then Return
  else if getPayloadResponseIsEmpty response then Return
  else
    match responseArm fd response with
    | None => Panic
    | Some arm =>
        match pb_ExecutionPayload arm with
        | None => Panic
        | Some executionPayload =>
            if negb (bool_decide (ep_BlockHash executionPayload
                                  = eph_BlockHash header))
            then Return
            else
              match pb_BlobsBundle arm with
              | None => Panic
              | Some blobs =>
                  if bool_decide (length commitments = length (Blobs blobs)
                                  /\ length commitments = length (Commitments blobs)
                                  /\ length commitments = length (Proofs blobs))
                  then
                    if bool_decide (commitments = Commitments blobs)
                    then Deliver else Return
                  else Return
              end
        end
    end.

(** A relay task of the race, after its POST: on an error it returns without
    posting, otherwise it runs the payload validator. *)
Definition relayTaskChecks {R : Type} (fd : ForkDescriptor)
    (blindedBlock : SignedBlindedBeaconBlock R) (r : Reply Resp)
    : checkOutcome :=
  match err r with
  | Some _ => Return
  | None => validatePayload fd blindedBlock (payload r)
  end.

(** The unblinding coordinator: the pre-flight (slot-UID, cached bid), then
    the race with its sentinel, cancellation scope and guarded delivery. *)
Definition processPayload {R : Type} (fd : ForkDescriptor) (m : BoostService)
    (ua : UserAgent) (blindedBlock : SignedBlindedBeaconBlock R)
    (w : PayloadWorld)
    : BoostService * list (Request (SignedBlindedBeaconBlock R) * Z)
      * outcome (option Resp * bidResp) :=
  let block := Message blindedBlock in
  let uidHeader :=
    if decide (slot (slotUID m) = Slot block)
    then UUID_String (uid (slotUID m)) else "" in
  let key :=
    bidKey (Slot block) (eph_BlockHash (body_ExecutionPayloadHeader (Body block))) in
  let originalBid :=
    match bids m !! key with Some record => record | None => zeroBidResp end in
  let nRelays := length (relays m) in
  let race :=
    runRace nRelays (relayTaskChecks fd blindedBlock) (schedule w)
      (initRace nRelays) in
  (m,
   map (payloadRequest m ua (payloadHeaders uidHeader w) blindedBlock) (relays m),
   callerOutcome race originalBid).

End RaceViews.

(** ** The calls of a process lifetime, and properties of a coordinator *)

Section Lifetime.
Context `{Helpers}.

Local Abbreviation Resp := VersionedSubmitBlindedBlockResponse.

(** A call of one of the three functions, with what it meets outside. *)
Inductive Call :=
| CallGetHeader (ua : UserAgent) (_slot : N) (pubkey parentHashHex : string)
    (w : HeaderWorld)
| CallDenebPayload (ua : UserAgent)
    (blindedBlock : SignedBlindedBeaconBlock DenebBlockRest) (w : PayloadWorld)
| CallElectraPayload (ua : UserAgent)
    (blindedBlock : SignedBlindedBeaconBlock ElectraBlockRest) (w : PayloadWorld).

(** The service after a call, and after a sequence of calls. *)
Definition serve (m : BoostService) (c : Call) : BoostService :=
  match c with
  | CallGetHeader ua _slot pubkey parentHashHex w =>
      fst (fst (getHeader m ua _slot pubkey parentHashHex w))
  | CallDenebPayload ua blindedBlock w =>
      fst (fst (processDenebPayload m ua blindedBlock w))
  | CallElectraPayload ua blindedBlock w =>
      fst (fst (processElectraPayload m ua blindedBlock w))
  end.

Definition lifetime (m : BoostService) (calls : list Call) : BoostService :=
  foldl serve m calls.

(** The type of a coordinator for blinded blocks with remainder [R]. *)
Definition Coordinator (R : Type) : Type :=
  BoostService -> UserAgent -> SignedBlindedBeaconBlock R -> PayloadWorld ->
  BoostService * list (Request (SignedBlindedBeaconBlock R) * Z)
  * outcome (option Resp * bidResp).

(** The payload part of what the caller gets. *)
Definition payloadOf (o : outcome (option Resp * bidResp))
    : outcome (option Resp) :=
  match o with
  | Returned (v, _) => Returned v
  | Waiting => Waiting
  | Crashed => Crashed
  end.

(** The bid that the cache holds for a blinded block: the zero value when
    there is none. *)
Definition cachedBid {R : Type} (m : BoostService)
    (blindedBlock : SignedBlindedBeaconBlock R) : bidResp :=
  default zeroBidResp
    (bids m !! bidKey (Slot (Message blindedBlock))
                 (eph_BlockHash
                    (body_ExecutionPayloadHeader (Body (Message blindedBlock))))).

(** The slot-UID header of the requests of a coordinator. *)
Definition uidHeaderFor {R : Type} (m : BoostService)
    (blindedBlock : SignedBlindedBeaconBlock R) : string :=
  if decide (slot (slotUID m) = Slot (Message blindedBlock))
  then UUID_String (uid (slotUID m)) else "".

(** An event before any goroutine has got past its checks: the sentinel
    has not fired, and a request that returns is rejected by the checks of
    its goroutine. *)
Definition rejectedOnly (check : Reply Resp -> checkOutcome) (ev : event)
    : Prop :=
  match ev with
  | SentinelFires => False
  | HTTPReturns _ r => check r = Return
  | _ => True
  end.

(** An event that is not the return of the request of relay [i]. *)
Definition notFrom (i : nat) (ev : event) : Prop :=
  match ev with
  | HTTPReturns j _ => j <> i
  | _ => True
  end.

(** A race in which nothing has been sent and nobody is about to send: the
    flag is clear, the sentinel sleeps, the channel is empty, the caller
    waits, and every goroutine is in its request or has returned. *)
Definition quiet (st : Race) : Prop :=
  crashed st = false /\ received st = false /\ sentinelDone st = false /\
  resultCh st = [] /\ result st = None /\
  Forall (fun pc => pc = Dispatched \/ pc = Finished) (tasks st).

(** A coordinator with the goroutine checks [check] goes through with the
    race whatever the pre-flight finds.

    The requests: one POST to every configured relay, with the blinded
    block as body and with the slot-UID header empty when the registry is at
    another slot.

    The race: what the caller gets is what the race among one goroutine per
    configured relay gives, with the cached bid (the zero value when there
    is none) beside it, for any state of the bid cache and of the registry.
    In particular a reply of any configured relay that passes the checks,
    after replies of other relays that were all rejected, is returned; when
    the sentinel fires after rejected replies only, [nil] is returned; the
    call dies only when the checks of a goroutine panic on a reply; and once
    the sentinel has fired and the caller is scheduled, the caller has its
    value. *)
Definition preflightTolerant {R : Type}
    (check : SignedBlindedBeaconBlock R -> Reply Resp -> checkOutcome)
    (process : Coordinator R) : Prop :=
  forall (m : BoostService) (ua : UserAgent)
         (blindedBlock : SignedBlindedBeaconBlock R) (w : PayloadWorld),
    let out := process m ua blindedBlock w in
    let n := length (relays m) in
    snd (fst out)
    = map (payloadRequest m ua
             (payloadHeaders (uidHeaderFor m blindedBlock) w) blindedBlock)
          (relays m) /\
    (forall rq, rq ∈ snd (fst out) ->
                req_headers (fst rq) !! HeaderKeySlotUID
                = Some (uidHeaderFor m blindedBlock)) /\
    (slot (slotUID m) ≠ Slot (Message blindedBlock) ->
     uidHeaderFor m blindedBlock = "") /\
    (forall m2, relays m2 = relays m ->
                payloadOf (snd (process m2 ua blindedBlock w))
                = payloadOf (snd out)) /\
    (forall v bid, snd out = Returned (v, bid) -> bid = cachedBid m blindedBlock) /\
    (forall more, schedule w = SentinelFires :: CallerReceives :: more ->
                  snd out = Returned (None, cachedBid m blindedBlock)) /\
    (forall w', schedule w' = schedule w ++ [SentinelFires; CallerReceives] ->
                snd (process m ua blindedBlock w') ≠ Waiting) /\
    snd out
    = callerOutcome
        (runRace n (check blindedBlock) (schedule w) (initRace n))
        (cachedBid m blindedBlock) /\
    (forall sched i r more,
        (i < n)%nat ->
        Forall (rejectedOnly (check blindedBlock)) sched ->
        Forall (notFrom i) sched ->
        check blindedBlock r = Deliver ->
        schedule w = sched ++ HTTPReturns i r :: Step i :: Step i :: Step i
                             :: CallerReceives :: more ->
        snd out = Returned (Some (payload r), cachedBid m blindedBlock)) /\
    (forall sched more,
        Forall (rejectedOnly (check blindedBlock)) sched ->
        schedule w = sched ++ SentinelFires :: CallerReceives :: more ->
        snd out = Returned (None, cachedBid m blindedBlock)) /\
    (snd out = Crashed ->
     exists i r, (i < n)%nat /\ HTTPReturns i r ∈ schedule w /\
                 check blindedBlock r = Panic) /\
    (forall w', schedule w' = schedule w ++ [SentinelFires; CallerReceives] ->
                (forall i r, HTTPReturns i r ∈ schedule w ->
                             check blindedBlock r ≠ Panic) ->
                exists v, snd (process m ua blindedBlock w')
                          = Returned (v, cachedBid m blindedBlock)).

(** A coordinator leaves the service as it is, so a second call for the
    same blinded block returns the same bid. *)
Definition readsOnly {R : Type} (process : Coordinator R) : Prop :=
  forall (m : BoostService) (ua : UserAgent)
         (blindedBlock : SignedBlindedBeaconBlock R) (w : PayloadWorld),
    let m' := fst (fst (process m ua blindedBlock w)) in
    m' = m /\ bids m' = bids m /\ slotUID m' = slotUID m /\
    bids m' !! bidKey (Slot (Message blindedBlock))
                 (eph_BlockHash
                    (body_ExecutionPayloadHeader (Body (Message blindedBlock))))
    = bids m !! bidKey (Slot (Message blindedBlock))
                  (eph_BlockHash
                     (body_ExecutionPayloadHeader (Body (Message blindedBlock)))) /\
    forall ua2 w2 v1 bid1 v2 bid2,
      snd (process m ua blindedBlock w) = Returned (v1, bid1) ->
      snd (process m' ua2 blindedBlock w2) = Returned (v2, bid2) ->
      bid1 = bid2.

End Lifetime.

(** ** A blinded block and responses for the stand-in *)

Module MockPayload.
Import Mock.

Definition commitment1 : KZGCommitment := replicate 48 x31.

Definition block : SignedBlindedBeaconBlock DenebBlockRest :=
  {| Message :=
       {| Slot := 5;
          Body :=
            {| body_ExecutionPayloadHeader :=
                 {| eph_ParentHash := Mock.parent;
                    eph_BlockHash := Mock.hashAA |};
               BlobKZGCommitments := [commitment1] |} |};
     block_rest := tt |}.

Definition goodResponse : VersionedSubmitBlindedBlockResponse :=
  {| Version := DataVersionDeneb; Bellatrix := None; Capella := None;
     Deneb :=
       Some {| pb_ExecutionPayload :=
                 Some {| ep_BlockHash := Mock.hashAA; ep_body := [x07] |};
               pb_BlobsBundle :=
                 Some {| Commitments := [commitment1]; Proofs := [[x01]];
                         Blobs := [[x02]] |} |};
     Electra := None |}.

(** The only relay answers and its goroutine runs to the end before the
    caller reads. *)
Definition relayWins : PayloadWorld :=
  {| pw_startMS := 1700000000000;
     schedule := [HTTPReturns 0 (Mock.ok200 goodResponse); Step 0; Step 0;
                  Step 0; CallerReceives] |}.

(** The sentinel fires first. *)
Definition silent : PayloadWorld :=
  {| pw_startMS := 1700000000000;
     schedule := [SentinelFires; CallerReceives] |}.

(** A response for another block. *)
Definition otherBlockResponse : VersionedSubmitBlindedBlockResponse :=
  {| Version := DataVersionDeneb; Bellatrix := None; Capella := None;
     Deneb :=
       Some {| pb_ExecutionPayload :=
                 Some {| ep_BlockHash := Mock.hashBB; ep_body := [x07] |};
               pb_BlobsBundle :=
                 Some {| Commitments := [commitment1]; Proofs := [[x01]];
                         Blobs := [[x02]] |} |};
     Electra := None |}.

(** Relay A answers first with a response for another block, relay B then
    with a good one. *)
Definition firstInvalid : PayloadWorld :=
  {| pw_startMS := 1700000000000;
     schedule := [HTTPReturns 0 (Mock.ok200 otherBlockResponse); Step 0;
                  HTTPReturns 1 (Mock.ok200 goodResponse); Step 1; Step 1;
                  Step 1; CallerReceives; SentinelFires] |}.

(** Both relays answer with a good response; B is first at the swap. *)
Definition bothValid : PayloadWorld :=
  {| pw_startMS := 1700000000000;
     schedule := [HTTPReturns 1 (Mock.ok200 goodResponse);
                  HTTPReturns 0 (Mock.ok200 goodResponse);
                  Step 1; Step 0; Step 1; Step 0; Step 1; Step 0;
                  CallerReceives; SentinelFires] |}.

End MockPayload.

(** ** Further notions: the outcome of an auction, lower-case hexadecimal *)

(** A lower-case hexadecimal digit, and a string of the form that
    [fmt.Sprintf("%#x", b)] prints: 0x, then lower-case digits. *)
Definition isLowerHex (c : ascii) : bool :=
  let k := N_of_ascii c in
  ((48 <=? k) && (k <=? 57) || (97 <=? k) && (k <=? 102))%N.

Fixpoint allLowerHex (s : string) : bool :=
  match s with
  | EmptyString => true
  | String c s' => isLowerHex c && allLowerHex s'
  end.

Definition lowerHexForm (s : string) : bool :=
  match s with
  | String "0" (String "x" digits) => allLowerHex digits
  | _ => false
  end.

Section OutcomeViews.
Context `{Helpers}.

(** What [getHeader] makes of the final state of the auction: the best bid
    with the relays recorded for its block hash. *)
Definition finalResult (st : Auction) : bidResp :=
  {| br_t := br_t (au_result st); br_response := br_response (au_result st);
     br_bidInfo := br_bidInfo (au_result st);
     br_relays :=
       default []
         (au_relays st !! Hash32_String (blockHash (br_bidInfo (au_result st)))) |}.

(** The relay at index [i] and its bid, when the reply passes the checks. *)
Definition bidAt (m : BoostService) (parentHashHex : string)
    (reply : nat -> Reply VersionedSignedBuilderBid) (i : nat)
    : option (RelayEntry * bidInfo) :=
  match relays m !! i with
  | Some relay =>
      match relayCheck m parentHashHex relay (reply i) with
      | Some bi => Some (relay, bi)
      | None => None
      end
  | None => None
  end.

Definition keyOf (bi : bidInfo) : BidKey := (value bi, blockHash bi).

(** The best bid of an auction is the bid of index [i], which came after
    the indices [pre] and before the indices [post]. *)
Definition winsAt (m : BoostService) (parentHashHex : string)
    (reply : nat -> Reply VersionedSignedBuilderBid) (clock : nat -> Time)
    (pre : list nat) (i : nat) (post : list nat) (relay : RelayEntry)
    (bi : bidInfo) (st : Auction) : Prop :=
  bidAt m parentHashHex reply i = Some (relay, bi) /\
  au_result st
  = {| br_t := clock i; br_response := payload (reply i); br_bidInfo := bi;
       br_relays := [] |} /\
  (forall j rj bj, j ∈ pre -> bidAt m parentHashHex reply j = Some (rj, bj) ->
                   keyCompare (keyOf bi) (keyOf bj) = Lt) /\
  (forall j rj bj, j ∈ post -> bidAt m parentHashHex reply j = Some (rj, bj) ->
                   keyCompare (keyOf bi) (keyOf bj) ≠ Gt).

End OutcomeViews.

(** The parent hash of the stand-in, printed with upper-case digits. *)
Definition upperParentHex : string :=
  String "0" (String "x" (repeatChar 64 "C")).

(** ** Further notions for the race *)

Section RaceViews2.
Context `{Helpers}.

Local Abbreviation Resp := VersionedSubmitBlindedBlockResponse.

(** A goroutine that has called [requestCtxCancel]. *)
Definition pastCancel (pc : taskPC) : bool :=
  match pc with AtCAS _ | AtSend _ => true | _ => false end.

(** The values sent are the payloads sent and at most the [nil] of the
    sentinel; the context is cancelled once a goroutine has passed
    [requestCtxCancel], once the flag is set, and once the caller has
    returned. *)
Definition raceInv2 (st : Race) : Prop :=
  (length (posted st)
   <= length (payloadsOf (posted st)) + Nat.b2n (sentinelDone st))%nat /\
  (received st = true -> ctxCancelled st = true) /\
  (is_Some (result st) -> ctxCancelled st = true) /\
  Forall (fun pc => pastCancel pc = true -> ctxCancelled st = true) (tasks st).

(** The payload [p] has won the swap: it has been sent, or its goroutine is
    about to send it. *)
Definition wonBy (st : Race) (p : Resp) : Prop :=
  Some p ∈ posted st \/ exists i, tasks st !! i = Some (AtSend p).

(** [getPayloadResponseIsEmpty] reports a response as empty when the arm of
    its version, the execution payload or the blobs bundle is nil. *)
Definition reportsNilAsEmpty : Prop :=
  forall (fd : ForkDescriptor) (p : Resp),
    fd = denebFork \/ fd = electraFork ->
    Version p = expectedVersion fd ->
    getPayloadResponseIsEmpty p = false ->
    exists arm e b,
      responseArm fd p = Some arm /\ pb_ExecutionPayload arm = Some e /\
      pb_BlobsBundle arm = Some b.

End RaceViews2.

(** The race after the request of the only relay has returned a good
    response and its goroutine has won the swap. *)
Definition MockPayload_afterSwap : Race :=
  runRace 1 (denebRelayChecks MockPayload.block)
    [HTTPReturns 0 (Mock.ok200 MockPayload.goodResponse); Step 0; Step 0]
    (initRace 1).

(** * Properties *)

(** The examples below run on the stand-in. *)
Import Mock.

(** ** The order of hexadecimal strings *)

Module HexFacts.
Import Hex.

Lemma N_of_hexDigit (n : N) :
  (n < 16)%N ->
  N_of_ascii (hexDigit n) = if (n <? 10)%N then (48 + n)%N else (87 + n)%N.
Proof.
  intros Hn. unfold hexDigit.
  destruct (n <? 10)%N; apply N_ascii_embedding; lia.
Qed.

Lemma hexDigit_compare (m n : N) :
  (m < 16)%N -> (n < 16)%N ->
  Ascii.compare (hexDigit m) (hexDigit n) = (m ?= n)%N.
Proof.
  intros Hm Hn. unfold Ascii.compare.
  rewrite !N_of_hexDigit by assumption.
  destruct (N.ltb_spec m 10), (N.ltb_spec n 10);
    destruct (N.compare_spec m n) as [->|Hlt|Hgt];
    first [ apply N.compare_refl
          | apply N.compare_lt_iff; lia
          | apply N.compare_gt_iff; lia
          | lia ].
Qed.

Lemma nibble_compare (a b : N) :
  (a ?= b)%N =
  match (a / 16 ?= b / 16)%N with
  | Eq => (a mod 16 ?= b mod 16)%N
  | c => c
  end.
Proof.
  pose proof (N.div_mod a 16 ltac:(lia)) as Ha.
  pose proof (N.div_mod b 16 ltac:(lia)) as Hb.
  pose proof (N.mod_lt a 16 ltac:(lia)) as Ha'.
  pose proof (N.mod_lt b 16 ltac:(lia)) as Hb'.
  revert Ha Hb Ha' Hb'.
  generalize (a / 16)%N (a mod 16)%N (b / 16)%N (b mod 16)%N.
  intros qa ra qb rb Ha Hb Ha' Hb'.
  destruct (N.compare_spec qa qb) as [He|Hl|Hg].
  - destruct (N.compare_spec ra rb) as [He'|Hl'|Hg'].
    + apply N.compare_eq_iff. lia.
    + apply N.compare_lt_iff. lia.
    + apply N.compare_gt_iff. lia.
  - apply N.compare_lt_iff. lia.
  - apply N.compare_gt_iff. lia.
Qed.

Lemma byte_nibbles_lt (b : byte) :
  (Byte.to_N b / 16 < 16)%N /\ (Byte.to_N b mod 16 < 16)%N.
Proof.
  pose proof (Byte.to_N_bounded b) as Hb. split.
  - apply N.Div0.div_lt_upper_bound. lia.
  - apply N.mod_lt. lia.
Qed.

(** The order of the hexadecimal strings is the order of the bytes. *)
Lemma encodeHex_compare (xs ys : list byte) :
  String.compare (encodeHex xs) (encodeHex ys) = bytes_compare xs ys.
Proof.
  revert ys. induction xs as [|x xs IH]; intros [|y ys]; simpl; try reflexivity.
  destruct (byte_nibbles_lt x) as [Hx1 Hx2].
  destruct (byte_nibbles_lt y) as [Hy1 Hy2].
  rewrite !hexDigit_compare by assumption.
  rewrite (nibble_compare (Byte.to_N x) (Byte.to_N y)).
  destruct (Byte.to_N x / 16 ?= Byte.to_N y / 16)%N; try reflexivity.
  destruct (Byte.to_N x mod 16 ?= Byte.to_N y mod 16)%N; try reflexivity.
  apply IH.
Qed.

Lemma sprintf_x_compare (xs ys : list byte) :
  String.compare (sprintf_x xs) (sprintf_x ys) = bytes_compare xs ys.
Proof. unfold sprintf_x. simpl. apply encodeHex_compare. Qed.

Lemma bytes_compare_refl (xs : list byte) : bytes_compare xs xs = Eq.
Proof.
  induction xs as [|x xs IH]; simpl; [reflexivity|].
  now rewrite N.compare_refl.
Qed.

Lemma bytes_compare_eq (xs ys : list byte) :
  bytes_compare xs ys = Eq -> xs = ys.
Proof.
  revert ys. induction xs as [|x xs IH]; intros [|y ys]; simpl; try congruence.
  destruct (N.compare_spec (Byte.to_N x) (Byte.to_N y)) as [He|Hl|Hg];
    try discriminate.
  intros H. f_equal; [|now apply IH].
  apply (f_equal Byte.of_N) in He. rewrite !Byte.of_to_N in He. congruence.
Qed.

Lemma bytes_compare_antisym (xs ys : list byte) :
  bytes_compare ys xs = CompOpp (bytes_compare xs ys).
Proof.
  revert ys. induction xs as [|x xs IH]; intros [|y ys]; simpl; try reflexivity.
  rewrite (N.compare_antisym (Byte.to_N x) (Byte.to_N y)).
  destruct (Byte.to_N x ?= Byte.to_N y)%N; simpl; auto.
Qed.

Lemma bytes_compare_lt_trans (xs ys zs : list byte) :
  bytes_compare xs ys = Lt -> bytes_compare ys zs = Lt ->
  bytes_compare xs zs = Lt.
Proof.
  revert ys zs. induction xs as [|x xs IH]; intros [|y ys] [|z zs]; simpl;
    try congruence.
  destruct (N.compare_spec (Byte.to_N x) (Byte.to_N y)) as [He|Hl|Hg];
    destruct (N.compare_spec (Byte.to_N y) (Byte.to_N z)) as [He'|Hl'|Hg'];
    try discriminate; intros H1 H2.
  - rewrite He, He', N.compare_refl. eauto.
  - rewrite He. now apply N.compare_lt_iff in Hl' as ->.
  - rewrite <- He'. now apply N.compare_lt_iff in Hl as ->.
  - assert (Byte.to_N x < Byte.to_N z)%N as Hxz by lia.
    now apply N.compare_lt_iff in Hxz as ->.
Qed.

End HexFacts.

(** ** The checks of a relay goroutine before the lock *)

Section CheckFacts.
Context `{Helpers}.

Lemma sprintf_x_inj (xs ys : list byte) :
  Hex.sprintf_x xs = Hex.sprintf_x ys -> xs = ys.
Proof.
  intros E. apply HexFacts.bytes_compare_eq.
  rewrite <- HexFacts.sprintf_x_compare, E.
  rewrite HexFacts.sprintf_x_compare. apply HexFacts.bytes_compare_refl.
Qed.

Lemma CmpBig_not_below (v : N) (x : Z) :
  U256.CmpBig v x ≠ -1 <-> (x < 0 \/ (x < 2 ^ 256 /\ x <= Z.of_N v)).
Proof.
  unfold U256.CmpBig, U256.Cmp.
  destruct (Z.ltb_spec x 0) as [Hneg|Hpos]; [split; [auto|discriminate]|].
  destruct (Z.leb_spec (2 ^ 256) x) as [Hbig|Hfit].
  - split; [congruence|]. intros [?|[? ?]]; lia.
  - destruct (N.compare_spec v (Z.to_N x)) as [He|Hl|Hg]; split;
      first [ congruence | discriminate | intros _; right; lia
            | intros [?|[? ?]]; lia ].
Qed.

(** A reply that reaches the lock has passed every check. *)
Lemma relayCheck_Some (m : BoostService) (parentHashHex : string)
    (relay : RelayEntry) (r : Reply VersionedSignedBuilderBid) (bi : bidInfo) :
  relayCheck m parentHashHex relay r = Some bi ->
  err r = None /\ code r ≠ StatusNoContent /\ IsEmpty (payload r) = false /\
  parseBidInfo (payload r) = inr bi /\
  blockHash bi ≠ nilHash /\
  pubkey bi = PublicKey relay /\
  (SkipRelaySignatureCheck = false ->
   checkRelaySignature (payload r) (builderSigningDomain m) (PublicKey relay)
   = inr true) /\
  Hash32_String (parentHash bi) = parentHashHex /\
  value bi ≠ 0%N /\
  Hash32_String (txRoot bi) ≠ emptyTxRoot /\
  (relayMinBid m < 0 \/ (relayMinBid m < 2 ^ 256 /\ relayMinBid m <= Z.of_N (value bi))).
Proof.
  unfold relayCheck. intros Hc.
  destruct (err r) as [e|]; simpl in Hc; [discriminate|].
  destruct (Z.eqb_spec (code r) StatusNoContent) as [|Hcode]; [discriminate|].
  destruct (IsEmpty (payload r)) eqn:Hemp; [discriminate|].
  destruct (parseBidInfo (payload r)) as [e|bi'] eqn:Hparse; [discriminate|].
  destruct (bool_decide (blockHash bi' = nilHash)) eqn:Hnil; [discriminate|].
  destruct (bool_decide (BLSPubKey_String (PublicKey relay)
                         ≠ BLSPubKey_String (pubkey bi'))) eqn:Hpk;
    [discriminate|].
  destruct (if negb SkipRelaySignatureCheck then _ else false) eqn:Hsig;
    [discriminate|].
  destruct (bool_decide (Hash32_String (parentHash bi') ≠ parentHashHex))
    eqn:Hph; [discriminate|].
  destruct (U256.IsZero (value bi')) eqn:Hzero; [discriminate|].
  destruct (bool_decide (Hash32_String (txRoot bi') = emptyTxRoot)) eqn:Htx;
    [discriminate|].
  simpl in Hc.
  destruct (Z.eqb_spec (U256.CmpBig (value bi') (relayMinBid m)) (-1))
    as [|Hmin]; [discriminate|].
  injection Hc as <-.
  apply bool_decide_eq_false in Hnil, Hpk, Hph, Htx.
  repeat split; auto.
  - symmetry. apply sprintf_x_inj. unfold BLSPubKey_String in Hpk.
    destruct (decide (Hex.sprintf_x (PublicKey relay) = Hex.sprintf_x (pubkey bi')));
      [assumption|contradiction].
  - intros Hskip. rewrite Hskip in Hsig. simpl in Hsig.
    destruct (checkRelaySignature _ _ _) as [e|[|]]; simpl in Hsig; congruence.
  - destruct (decide (Hash32_String (parentHash bi') = parentHashHex));
      [assumption|contradiction].
  - unfold U256.IsZero in Hzero. apply N.eqb_neq in Hzero. assumption.
  - apply CmpBig_not_below. assumption.
Qed.

End CheckFacts.

(** ** Rejection safety of the auction *)

Section Rejection.
Context `{Helpers}.

(** C1.  A reply whose bid has value 0, or the transactions root of the
    empty list, or a parent hash other than the proposer's, or a builder
    key other than the relay's, or the all-zero block hash, or a signature
    that does not verify while the check is on, or a value below the
    minimum bid, leaves the shared state of the auction (best bid and map
    of relays) as it was: the goroutine returns before the lock.  The
    auction goes on with the other relays as if this one had not
    answered. *)
Theorem rejection_safety (m : BoostService) (parentHashHex : string)
    (relay : RelayEntry) (r : Reply VersionedSignedBuilderBid) (bi : bidInfo) :
  parseBidInfo (payload r) = inr bi ->
  ( value bi = 0%N
    \/ Hash32_String (txRoot bi) = emptyTxRoot
    \/ Hash32_String (parentHash bi) ≠ parentHashHex
    \/ pubkey bi ≠ PublicKey relay
    \/ blockHash bi = nilHash
    \/ (SkipRelaySignatureCheck = false /\
        checkRelaySignature (payload r) (builderSigningDomain m)
          (PublicKey relay) ≠ inr true)
    \/ Z.of_N (value bi) < relayMinBid m ) ->
  relayCheck m parentHashHex relay r = None /\
  (forall now st, relayTask m parentHashHex relay r now st = st) /\
  (forall reply clock i order st,
      relays m !! i = Some relay -> reply i = r ->
      runAuction m parentHashHex reply clock (i :: order) st
      = runAuction m parentHashHex reply clock order st).
Proof.
  intros Hparse Hrej.
  assert (relayCheck m parentHashHex relay r = None) as Hnone.
  { destruct (relayCheck m parentHashHex relay r) as [bi'|] eqn:Hc;
      [exfalso|reflexivity].
    apply relayCheck_Some in Hc.
    destruct Hc as (_ & _ & _ & Hp & Hnil & Hpk & Hsig & Hph & Hv & Htx & Hmin).
    rewrite Hparse in Hp. injection Hp as <-.
    destruct Hrej as [?|[?|[?|[?|[?|[[Hs Hbad]|?]]]]]]; try contradiction.
    - apply Hbad, Hsig, Hs.
    - lia. }
  split; [exact Hnone|]. split.
  - intros now st. unfold relayTask. now rewrite Hnone.
  - intros reply clock i order st Hi Hr. unfold runAuction. simpl.
    rewrite Hi, Hr. unfold relayTask. now rewrite Hnone.
Qed.

End Rejection.

(** A bid of value 0 from relay A does not enter the auction. *)
Lemma rejection_safety_witness :
  Mock.mockParse (Mock.mkBid Mock.keyA Mock.hashAA 0)
  = inr (Mock.mkInfo Mock.keyA Mock.hashAA 0) /\
  forall now st,
    relayTask (Mock.service [Mock.relayA]) Mock.parentHex Mock.relayA
      (Mock.ok200 (Mock.mkBid Mock.keyA Mock.hashAA 0)) now st = st.
Proof.
  split; [reflexivity|].
  apply (rejection_safety (Mock.service [Mock.relayA]) Mock.parentHex
           Mock.relayA (Mock.ok200 (Mock.mkBid Mock.keyA Mock.hashAA 0))
           (Mock.mkInfo Mock.keyA Mock.hashAA 0));
    [reflexivity | left; reflexivity].
Defined.

(** ** The ranking step *)

Section Ranking.
Context `{Helpers}.

Lemma str_lt_hash (a b : Hash32) :
  Hex.str_lt (Hash32_String a) (Hash32_String b) = true
  <-> Hex.bytes_compare a b = Lt.
Proof.
  unfold Hex.str_lt, Hash32_String. rewrite HexFacts.sprintf_x_compare.
  destruct (Hex.bytes_compare a b); split; congruence.
Qed.

Lemma U256_Cmp_spec (x y : N) :
  (U256.Cmp x y = -1 /\ (x < y)%N) \/
  (U256.Cmp x y = 0 /\ x = y) \/
  (U256.Cmp x y = 1 /\ (y < x)%N).
Proof.
  unfold U256.Cmp. destruct (N.compare_spec x y); auto.
Qed.

(** What the block under the lock does to the best bid. *)
Lemma relayCommit_result (relay : RelayEntry)
    (resp : VersionedSignedBuilderBid) (bi : bidInfo) (now : Time)
    (st : Auction) :
  au_result (relayCommit relay resp bi now st) =
  let best := au_result st in
  let adopted :=
    {| br_t := now; br_response := resp; br_bidInfo := bi;
       br_relays := br_relays best |} in
  if IsEmpty (br_response best) then adopted
  else
    match (value bi ?= value (br_bidInfo best))%N with
    | Lt => best
    | Gt => adopted
    | Eq =>
        if Hex.str_lt (Hash32_String (blockHash bi))
                      (Hash32_String (blockHash (br_bidInfo best)))
        then adopted else best
    end.
Proof.
  unfold relayCommit, U256.Cmp, Hex.str_ge. simpl.
  destruct (IsEmpty (br_response (au_result st))); simpl; [reflexivity|].
  destruct (value bi ?= value (br_bidInfo (au_result st)))%N; simpl;
    try reflexivity.
  destruct (Hex.str_lt _ _); reflexivity.
Qed.

(** C2.  Against a non-empty best bid, a candidate of smaller value is
    discarded and one of greater value is adopted; at equal value it is
    adopted exactly when the hexadecimal string of its block hash is
    strictly smaller than that of the best bid, which is the same as its
    block hash being smaller in big-endian byte order.  So of two bids of
    equal value the one with the smaller block hash is the best bid
    afterwards. *)
Theorem ranking_tie_break (relay : RelayEntry)
    (resp : VersionedSignedBuilderBid) (bi : bidInfo) (now : Time)
    (st : Auction) :
  IsEmpty (br_response (au_result st)) = false ->
  let best := au_result st in
  let adopted :=
    {| br_t := now; br_response := resp; br_bidInfo := bi;
       br_relays := br_relays best |} in
  let after := au_result (relayCommit relay resp bi now st) in
  let smaller :=
    Hex.str_lt (Hash32_String (blockHash bi))
               (Hash32_String (blockHash (br_bidInfo best))) in
  ((value bi < value (br_bidInfo best))%N -> after = best) /\
  ((value (br_bidInfo best) < value bi)%N -> after = adopted) /\
  (value bi = value (br_bidInfo best) ->
   after = (if smaller then adopted else best)) /\
  (smaller = true
   <-> Hex.bytes_compare (blockHash bi) (blockHash (br_bidInfo best)) = Lt) /\
  (value bi = value (br_bidInfo best) ->
   Hex.bytes_compare (blockHash (br_bidInfo after)) (blockHash bi) ≠ Gt /\
   Hex.bytes_compare (blockHash (br_bidInfo after))
     (blockHash (br_bidInfo best)) ≠ Gt).
Proof.
  intros Hne. cbv zeta.
  rewrite relayCommit_result. cbv zeta. rewrite Hne.
  pose proof (str_lt_hash (blockHash bi) (blockHash (br_bidInfo (au_result st))))
    as Hsm.
  split; [|split; [|split; [|split; [exact Hsm|]]]].
  - intros Hlt. apply N.compare_lt_iff in Hlt. now rewrite Hlt.
  - intros Hgt. apply N.compare_gt_iff in Hgt. now rewrite Hgt.
  - intros Heq. apply N.compare_eq_iff in Heq. now rewrite Heq.
  - intros Heq. apply N.compare_eq_iff in Heq. rewrite Heq.
    destruct (Hex.str_lt _ _); simpl.
    + rewrite HexFacts.bytes_compare_refl.
      destruct Hsm as [Hsm _]. rewrite (Hsm eq_refl). split; discriminate.
    + rewrite HexFacts.bytes_compare_refl.
      rewrite HexFacts.bytes_compare_antisym.
      destruct (Hex.bytes_compare (blockHash bi)
                  (blockHash (br_bidInfo (au_result st)))) eqn:Hc; simpl;
        split; try discriminate.
      destruct Hsm as [_ Hsm]. specialize (Hsm eq_refl). discriminate.
Qed.

End Ranking.

(** Relay A has offered block 0xbb.. at value 1000; relay B offers block
    0xaa.. at the same value and becomes the best bid. *)
Lemma ranking_tie_break_witness :
  let st :=
    relayCommit Mock.relayA (Mock.mkBid Mock.keyA Mock.hashBB 1000)
      (Mock.mkInfo Mock.keyA Mock.hashBB 1000) 1 initAuction in
  IsEmpty (br_response (au_result st)) = false /\
  blockHash
    (br_bidInfo
       (au_result
          (relayCommit Mock.relayB (Mock.mkBid Mock.keyB Mock.hashAA 1000)
             (Mock.mkInfo Mock.keyB Mock.hashAA 1000) 2 st)))
  = Mock.hashAA.
Proof.
  intros st. split; [reflexivity|].
  destruct (ranking_tie_break Mock.relayB
              (Mock.mkBid Mock.keyB Mock.hashAA 1000)
              (Mock.mkInfo Mock.keyB Mock.hashAA 1000) 2 st eq_refl)
    as (_ & _ & Htie & _).
  rewrite (Htie eq_refl). reflexivity.
Defined.

(** ** Input validation of [getHeader] *)

(** C7, as stated, fails.  A public key of 98 characters none of which is a
    hexadecimal digit is accepted, and when both arguments are malformed the
    error is the one of the public key, not the one of the hash. *)
Lemma input_validation_counterexample :
  specHexString 96 notHex98 = false /\
  snd (snd (getHeader (Mock.service [Mock.relayA]) "ua" 5 notHex98
              Mock.parentHex (Mock.world Mock.sameBlockReplies [0%nat])))
  = None /\
  specHexString 64 tooShort = false /\
  snd (snd (getHeader (Mock.service [Mock.relayA]) "ua" 5 tooShort tooShort
              (Mock.world Mock.sameBlockReplies [0%nat])))
  ≠ Some errInvalidHash.
Proof.
  split; [reflexivity|]. split; [reflexivity|]. split; [reflexivity|].
  discriminate.
Qed.

Section Validation.
Context `{Helpers}.

(** C7, amended.  [getHeader] returns [errInvalidPubkey] exactly when the
    length of the public key argument is not 98, and [errInvalidHash]
    exactly when that length is 98 and the length of the parent hash
    argument is not 66; there is no other error.  With an error the service
    is unchanged, no request is sent and the bid returned is the zero
    value. *)
Theorem input_validation (m : BoostService) (ua : UserAgent) (_slot : N)
    (pubkey parentHashHex : string) (w : HeaderWorld) :
  let out := getHeader m ua _slot pubkey parentHashHex w in
  let e := snd (snd out) in
  (e = Some errInvalidPubkey <-> String.length pubkey ≠ 98%nat) /\
  (e = Some errInvalidHash <->
   String.length pubkey = 98%nat /\ String.length parentHashHex ≠ 66%nat) /\
  (e = None <->
   String.length pubkey = 98%nat /\ String.length parentHashHex = 66%nat) /\
  (e ≠ None ->
   fst (fst out) = m /\ snd (fst out) = [] /\ fst (snd out) = zeroBidResp).
Proof.
  unfold getHeader.
  destruct (decide (String.length pubkey = 98%nat)) as [Hp|Hp].
  - rewrite bool_decide_eq_false_2 by (intros Hn; apply Hn, Hp).
    destruct (decide (String.length parentHashHex = 66%nat)) as [Hh|Hh].
    + rewrite bool_decide_eq_false_2 by (intros Hn; apply Hn, Hh).
      simpl. intuition congruence.
    + rewrite bool_decide_eq_true_2 by exact Hh.
      simpl. intuition congruence.
  - rewrite bool_decide_eq_true_2 by exact Hp.
    simpl. intuition congruence.
Qed.

End Validation.

(** ** The order of ranks *)

Lemma keyCompare_refl (a : BidKey) : keyCompare a a = Eq.
Proof.
  unfold keyCompare. rewrite N.compare_refl. apply HexFacts.bytes_compare_refl.
Qed.

Lemma keyCompare_eq (a b : BidKey) : keyCompare a b = Eq -> a = b.
Proof.
  unfold keyCompare. destruct a as [va ha], b as [vb hb]. simpl.
  destruct (N.compare_spec vb va) as [->|?|?]; try discriminate.
  intros E. apply HexFacts.bytes_compare_eq in E. now subst.
Qed.

Lemma keyCompare_antisym (a b : BidKey) :
  keyCompare b a = CompOpp (keyCompare a b).
Proof.
  unfold keyCompare. rewrite (N.compare_antisym (fst b) (fst a)).
  destruct (fst b ?= fst a)%N; simpl; auto using HexFacts.bytes_compare_antisym.
Qed.

Lemma keyCompare_lt_trans (a b c : BidKey) :
  keyCompare a b = Lt -> keyCompare b c = Lt -> keyCompare a c = Lt.
Proof.
  unfold keyCompare. destruct a as [va ha], b as [vb hb], c as [vc hc]. simpl.
  destruct (N.compare_spec vb va) as [Eab|Hab|Hab]; try discriminate;
    destruct (N.compare_spec vc vb) as [Ebc|Hbc|Hbc]; try discriminate;
    intros H1 H2; subst.
  - rewrite N.compare_refl. eauto using HexFacts.bytes_compare_lt_trans.
  - now apply N.compare_lt_iff in Hbc as ->.
  - now apply N.compare_lt_iff in Hab as ->.
  - assert (vc < va)%N as Hac by lia. now apply N.compare_lt_iff in Hac as ->.
Qed.

(** [a] is at least as good as [b]. *)
Lemma keyCompare_le_trans (a b c : BidKey) :
  keyCompare a b ≠ Gt -> keyCompare b c ≠ Gt -> keyCompare a c ≠ Gt.
Proof.
  intros Hab Hbc.
  destruct (keyCompare a b) eqn:E1; [| |contradiction].
  - apply keyCompare_eq in E1. now subst.
  - destruct (keyCompare b c) eqn:E2; [| |contradiction].
    + apply keyCompare_eq in E2. subst. now rewrite E1.
    + now rewrite (keyCompare_lt_trans a b c E1 E2).
Qed.

Lemma rank_Some (cur : option BidKey) (c : BidKey) :
  exists r, rank cur c = Some r /\ (r = c \/ cur = Some r) /\
            keyCompare r c ≠ Gt /\
            (forall b, cur = Some b -> keyCompare r b ≠ Gt).
Proof.
  destruct cur as [b|]; simpl.
  - pose proof (keyCompare_antisym c b) as Hanti.
    pose proof (keyCompare_refl b) as Hb. pose proof (keyCompare_refl c) as Hc.
    destruct (keyCompare c b) eqn:E; simpl in Hanti.
    + exists b. split; [reflexivity|]. split; [now right|].
      split; [congruence|]. intros b' [= <-]. congruence.
    + exists c. split; [reflexivity|]. split; [now left|].
      split; [congruence|]. intros b' [= <-]. congruence.
    + exists b. split; [reflexivity|]. split; [now right|].
      split; [congruence|]. intros b' [= <-]. congruence.
  - exists c. split; [reflexivity|]. split; [now left|].
    split; [rewrite keyCompare_refl|]; discriminate.
Qed.

(** The fold of [rank] picks an element that no other element beats. *)
Lemma foldl_rank_best (l : list BidKey) (cur : option BidKey) :
  match foldl rank cur l with
  | None => cur = None /\ l = []
  | Some r =>
      (cur = Some r \/ r ∈ l) /\
      (forall b, cur = Some b -> keyCompare r b ≠ Gt) /\
      (forall x, x ∈ l -> keyCompare r x ≠ Gt)
  end.
Proof.
  revert cur. induction l as [|x l IH]; intros cur; simpl.
  - destruct cur as [b|]; [|auto]. repeat split; auto.
    + intros b' [= <-]. rewrite keyCompare_refl. discriminate.
    + intros x Hx. inversion Hx.
  - specialize (IH (rank cur x)).
    destruct (rank_Some cur x) as (r0 & Hr0 & Hsrc & Hx & Hcur).
    rewrite Hr0 in IH |- *.
    destruct (foldl rank (Some r0) l) as [r|]; [|destruct IH; discriminate].
    destruct IH as (Hin & Hle0 & Hle).
    specialize (Hle0 r0 eq_refl).
    repeat split.
    + destruct Hin as [[= <-]|Hin]; [|right; now right].
      destruct Hsrc as [-> | ->]; [right; left|left]; reflexivity.
    + intros b Hb. eapply keyCompare_le_trans; eauto.
    + intros y Hy. apply elem_of_cons in Hy as [->|Hy]; [|auto].
      eapply keyCompare_le_trans; eauto.
Qed.

Lemma foldl_rank_Permutation (l1 l2 : list BidKey) :
  l1 ≡ₚ l2 -> foldl rank None l1 = foldl rank None l2.
Proof.
  intros Hp.
  pose proof (foldl_rank_best l1 None) as H1.
  pose proof (foldl_rank_best l2 None) as H2.
  destruct (foldl rank None l1) as [a|], (foldl rank None l2) as [b|].
  - destruct H1 as ([?|Ha] & _ & Hla); [discriminate|].
    destruct H2 as ([?|Hb] & _ & Hlb); [discriminate|].
    f_equal. apply keyCompare_eq.
    assert (keyCompare a b ≠ Gt) as Hab by (apply Hla; now rewrite Hp).
    assert (keyCompare b a ≠ Gt) as Hba by (apply Hlb; now rewrite <- Hp).
    rewrite keyCompare_antisym in Hba.
    destruct (keyCompare a b); simpl in *; congruence.
  - destruct H2 as [_ ->]. apply Permutation_nil_r in Hp. subst.
    destruct H1 as ([?|Ha] & _); [discriminate|inversion Ha].
  - destruct H1 as [_ ->]. apply Permutation_nil_l in Hp. subst.
    destruct H2 as ([?|Hb] & _); [discriminate|inversion Hb].
  - reflexivity.
Qed.

(** ** The auction as a fold over the completion order *)

Section Determinism.
Context `{Helpers}.

Lemma omap_pointwise {A B : Type} (f g : A -> option B) (l : list A) :
  (forall a, f a = g a) -> omap f l = omap g l.
Proof.
  intros E. induction l as [|a l IH]; csimpl; [reflexivity|].
  now rewrite E, IH.
Qed.

Lemma relayCommit_bestKey (relay : RelayEntry)
    (resp : VersionedSignedBuilderBid) (bi : bidInfo) (now : Time)
    (st : Auction) :
  IsEmpty resp = false ->
  bestKey (relayCommit relay resp bi now st)
  = rank (bestKey st) (value bi, blockHash bi).
Proof.
  intros Hresp. unfold bestKey. rewrite relayCommit_result. cbv zeta.
  destruct (IsEmpty (br_response (au_result st))) eqn:Hbest; simpl.
  - now rewrite Hresp.
  - unfold keyCompare. simpl.
    rewrite (N.compare_antisym (value bi) (value (br_bidInfo (au_result st)))).
    destruct (value bi ?= value (br_bidInfo (au_result st)))%N; simpl.
    + pose proof (str_lt_hash (blockHash bi)
                    (blockHash (br_bidInfo (au_result st)))) as Hsm.
      destruct (Hex.str_lt _ _).
      * destruct Hsm as [Hsm _]. rewrite (Hsm eq_refl). simpl. now rewrite Hresp.
      * destruct (Hex.bytes_compare _ _); simpl; rewrite ?Hbest; try reflexivity.
        destruct Hsm as [_ Hsm]. specialize (Hsm eq_refl). discriminate.
    + now rewrite Hbest.
    + now rewrite Hresp.
Qed.

Lemma relayCommit_relays (relay : RelayEntry)
    (resp : VersionedSignedBuilderBid) (bi : bidInfo) (now : Time)
    (st : Auction) (k : string) :
  default [] (au_relays (relayCommit relay resp bi now st) !! k)
  = default [] (au_relays st !! k)
    ++ (if decide (Hash32_String (blockHash bi) = k) then [relay] else []).
Proof.
  assert (au_relays (relayCommit relay resp bi now st)
          = <[Hash32_String (blockHash bi) :=
                default [] (au_relays st !! Hash32_String (blockHash bi))
                ++ [relay]]> (au_relays st)) as ->.
  { unfold relayCommit.
    repeat match goal with |- context [if ?b then _ else _] => destruct b end;
      reflexivity. }
  destruct (decide (Hash32_String (blockHash bi) = k)) as [<-|Hne].
  - now rewrite lookup_insert_eq.
  - rewrite lookup_insert_ne by assumption. now rewrite app_nil_r.
Qed.

Lemma relayCommit_emptyIsZero (relay : RelayEntry)
    (resp : VersionedSignedBuilderBid) (bi : bidInfo) (now : Time)
    (st : Auction) :
  IsEmpty resp = false -> emptyIsZero st ->
  emptyIsZero (relayCommit relay resp bi now st).
Proof.
  unfold emptyIsZero. intros Hresp Hst. rewrite relayCommit_result. cbv zeta.
  repeat match goal with |- context [if ?b then _ else _] => destruct b eqn:? end;
    try destruct (_ ?= _)%N; simpl; intros; auto; congruence.
Qed.

Variables (m : BoostService) (parentHashHex : string).
Variable reply : nat -> Reply VersionedSignedBuilderBid.

Lemma runAuction_cons (clock : nat -> Time) (i : nat) (order : list nat)
    (st : Auction) :
  runAuction m parentHashHex reply clock (i :: order) st
  = runAuction m parentHashHex reply clock order
      (match relays m !! i with
       | Some relay => relayTask m parentHashHex relay (reply i) (clock i) st
       | None => st
       end).
Proof. reflexivity. Qed.

Lemma runAuction_bestKey (clock : nat -> Time) (order : list nat)
    (st : Auction) :
  bestKey (runAuction m parentHashHex reply clock order st)
  = foldl rank (bestKey st) (omap (keyAt m parentHashHex reply) order).
Proof.
  revert st. induction order as [|i order IH]; intros st; [reflexivity|].
  rewrite runAuction_cons, IH. simpl. unfold keyAt at 2, relayTask.
  destruct (relays m !! i) as [relay|]; [|reflexivity].
  destruct (relayCheck m parentHashHex relay (reply i)) as [bi|] eqn:Hc;
    [|reflexivity].
  apply relayCheck_Some in Hc. destruct Hc as (_ & _ & Hne & _).
  simpl. now rewrite relayCommit_bestKey.
Qed.

Lemma runAuction_relays (clock : nat -> Time) (order : list nat)
    (st : Auction) (k : string) :
  default [] (au_relays (runAuction m parentHashHex reply clock order st) !! k)
  = default [] (au_relays st !! k)
    ++ omap (relayAt m parentHashHex reply k) order.
Proof.
  revert st. induction order as [|i order IH]; intros st.
  - simpl. now rewrite app_nil_r.
  - rewrite runAuction_cons, IH. simpl. unfold relayAt at 2, relayTask.
    destruct (relays m !! i) as [relay|]; [|reflexivity].
    destruct (relayCheck m parentHashHex relay (reply i)) as [bi|];
      [|reflexivity].
    rewrite relayCommit_relays.
    destruct (decide (Hash32_String (blockHash bi) = k)); simpl.
    + now rewrite <- app_assoc.
    + now rewrite app_nil_r.
Qed.

Lemma runAuction_emptyIsZero (clock : nat -> Time) (order : list nat)
    (st : Auction) :
  emptyIsZero st ->
  emptyIsZero (runAuction m parentHashHex reply clock order st).
Proof.
  revert st. induction order as [|i order IH]; intros st Hst; [exact Hst|].
  rewrite runAuction_cons. apply IH. unfold relayTask.
  destruct (relays m !! i) as [relay|]; [|exact Hst].
  destruct (relayCheck m parentHashHex relay (reply i)) as [bi|] eqn:Hc;
    [|exact Hst].
  apply relayCheck_Some in Hc. destruct Hc as (_ & _ & Hne & _).
  now apply relayCommit_emptyIsZero.
Qed.

End Determinism.

(** ** Determinism of the auction *)

(** C5, as stated, fails.  Relays A and B both offer block 0xaa.. at value
    1000.  When A completes first the envelope returned is the one signed by
    A and the relays are listed as A, B; when B completes first the envelope
    is the one signed by B and the list is B, A. *)
Lemma auction_determinism_counterexample :
  let run ord :=
    fst (snd (getHeader (Mock.service [Mock.relayA; Mock.relayB]) "ua" 5
                Mock.pubkeyHex Mock.parentHex
                (Mock.world Mock.sameBlockReplies ord))) in
  [0; 1]%nat ≡ₚ [1; 0]%nat /\
  br_response (run [0; 1]%nat) = Mock.mkBid Mock.keyA Mock.hashAA 1000 /\
  br_response (run [1; 0]%nat) = Mock.mkBid Mock.keyB Mock.hashAA 1000 /\
  br_response (run [0; 1]%nat) ≠ br_response (run [1; 0]%nat) /\
  br_relays (run [0; 1]%nat) = [Mock.relayA; Mock.relayB] /\
  br_relays (run [1; 0]%nat) = [Mock.relayB; Mock.relayA] /\
  br_relays (run [0; 1]%nat) ≠ br_relays (run [1; 0]%nat).
Proof.
  cbv zeta. split; [apply perm_swap|].
  split; [vm_compute; reflexivity|]. split; [vm_compute; reflexivity|].
  split; [vm_compute; intros E; discriminate E|].
  split; [vm_compute; reflexivity|]. split; [vm_compute; reflexivity|].
  vm_compute; intros E; discriminate E.
Qed.

Section DeterminismTheorem.
Context `{Helpers}.

(** C5, amended.  For fixed replies of the relays, the value and the block
    hash of the winning bid, and whether there is a winner, do not depend on
    the order in which the goroutines complete, and the relays list holds
    the same relays up to their order.  (The envelope, the remaining fields
    of the bid and the order of the list are those of the goroutines that
    came first.) *)
Theorem auction_winner_order_independent (m : BoostService) (ua : UserAgent)
    (_slot : N) (pubkey parentHashHex : string) (w1 w2 : HeaderWorld) :
  (forall i, reply w1 i = reply w2 i) ->
  order w1 ≡ₚ order w2 ->
  let r1 := fst (snd (getHeader m ua _slot pubkey parentHashHex w1)) in
  let r2 := fst (snd (getHeader m ua _slot pubkey parentHashHex w2)) in
  IsEmpty (br_response r1) = IsEmpty (br_response r2) /\
  value (br_bidInfo r1) = value (br_bidInfo r2) /\
  blockHash (br_bidInfo r1) = blockHash (br_bidInfo r2) /\
  br_relays r1 ≡ₚ br_relays r2.
Proof.
  intros Hreply Horder. unfold getHeader.
  destruct (bool_decide (String.length pubkey ≠ 98%nat)); [simpl; auto|].
  destruct (bool_decide (String.length parentHashHex ≠ 66%nat)); [simpl; auto|].
  cbv zeta. simpl.
  set (st1 := runAuction m parentHashHex (reply w1) (clock w1) (order w1)
                initAuction).
  set (st2 := runAuction m parentHashHex (reply w2) (clock w2) (order w2)
                initAuction).
  assert (bestKey st1 = bestKey st2) as Hkey.
  { subst st1 st2. rewrite !runAuction_bestKey.
    rewrite (omap_pointwise (keyAt m parentHashHex (reply w1))
               (keyAt m parentHashHex (reply w2))).
    - apply foldl_rank_Permutation. now apply omap_Permutation.
    - intros i. unfold keyAt. now rewrite Hreply. }
  assert (emptyIsZero st1) as Hz1
    by (apply runAuction_emptyIsZero; intros _; reflexivity).
  assert (emptyIsZero st2) as Hz2
    by (apply runAuction_emptyIsZero; intros _; reflexivity).
  assert (IsEmpty (br_response (au_result st1))
          = IsEmpty (br_response (au_result st2)) /\
          value (br_bidInfo (au_result st1)) = value (br_bidInfo (au_result st2)) /\
          blockHash (br_bidInfo (au_result st1))
          = blockHash (br_bidInfo (au_result st2))) as (He & Hv & Hh).
  { unfold bestKey, emptyIsZero in *.
    destruct (IsEmpty (br_response (au_result st1))),
             (IsEmpty (br_response (au_result st2))); try discriminate.
    - rewrite (Hz1 eq_refl), (Hz2 eq_refl). auto.
    - injection Hkey as Hv Hh. auto. }
  repeat split; try assumption.
  rewrite Hh.
  set (k := Hash32_String (blockHash (br_bidInfo (au_result st2)))).
  subst st1 st2. rewrite !runAuction_relays. simpl.
  rewrite (omap_pointwise (relayAt m parentHashHex (reply w1) k)
             (relayAt m parentHashHex (reply w2) k)).
  - now apply omap_Permutation.
  - intros i. unfold relayAt. now rewrite Hreply.
Qed.

End DeterminismTheorem.

(** Relays A and B offer the same block at the same value; whichever
    completes first, the winner has that block hash and that value, and
    both relays are listed. *)
Lemma auction_winner_order_independent_witness :
  let w1 := Mock.world Mock.sameBlockReplies [0; 1]%nat in
  let w2 := Mock.world Mock.sameBlockReplies [1; 0]%nat in
  let m := Mock.service [Mock.relayA; Mock.relayB] in
  (forall i, reply w1 i = reply w2 i) /\
  order w1 ≡ₚ order w2 /\
  br_relays (fst (snd (getHeader m "ua" 5 Mock.pubkeyHex Mock.parentHex w1)))
  ≡ₚ br_relays (fst (snd (getHeader m "ua" 5 Mock.pubkeyHex Mock.parentHex w2))).
Proof.
  intros w1 w2 m.
  assert (forall i, reply w1 i = reply w2 i) as Hr by reflexivity.
  assert (order w1 ≡ₚ order w2) as Ho by apply perm_swap.
  split; [exact Hr|]. split; [exact Ho|].
  exact (proj2 (proj2 (proj2
           (auction_winner_order_independent m "ua" 5 Mock.pubkeyHex
              Mock.parentHex w1 w2 Hr Ho)))).
Defined.

(** ** The invariant of the payload race *)

Section RaceFacts.
Context `{Helpers}.

Local Abbreviation Resp := VersionedSubmitBlindedBlockResponse.

Lemma sum_list_insert (f : taskPC -> nat) (l : list taskPC) (i : nat)
    (old new : taskPC) :
  l !! i = Some old ->
  (sum_list (f <$> <[i := new]> l) + f old = sum_list (f <$> l) + f new)%nat.
Proof.
  revert i. induction l as [|x l IH]; intros [|i] Hl; csimpl in *;
    try discriminate.
  - injection Hl as ->. lia.
  - specialize (IH i Hl). lia.
Qed.

Lemma payloadsOf_snoc (l : list (option Resp)) (v : option Resp) :
  payloadsOf (l ++ [v])
  = payloadsOf l ++ match v with Some p => [p] | None => [] end.
Proof. unfold payloadsOf. rewrite omap_app. now destruct v. Qed.

Lemma chanSend_Some (cap : nat) (v : option Resp) (st st' : Race) :
  (length (resultCh st) <= cap)%nat ->
  chanSend cap v st = Some st' ->
  posted st' = posted st ++ [v] /\ received st' = received st /\
  tasks st' = tasks st /\ sentinelDone st' = sentinelDone st /\
  crashed st' = crashed st /\ (length (resultCh st') <= cap)%nat.
Proof.
  intros Hcap. unfold chanSend, posted.
  destruct (Nat.ltb_spec (length (resultCh st)) cap) as [Hlt|Hge].
  - intros [= <-]. simpl. rewrite length_app, app_assoc. simpl.
    repeat split; auto. lia.
  - destruct (Nat.eqb_spec cap 0) as [->|Hpos]; simpl; [|discriminate].
    destruct (result st); simpl; [discriminate|].
    intros [= <-]. simpl.
    assert (resultCh st = []) as -> by (apply length_zero_iff_nil; lia).
    repeat split; auto.
Qed.

Lemma raceInv_init (cap : nat) (check : Reply Resp -> checkOutcome) (n : nat) :
  raceInv cap check (initRace n).
Proof.
  unfold raceInv, initRace, posted. simpl. repeat split.
  - induction n as [|n IH]; csimpl in *; lia.
  - intros p Hp. inversion Hp.
  - apply Forall_replicate. intros p [=].
  - lia.
  - intros Hn. inversion Hn.
  - discriminate.
Qed.

Lemma raceInv_setTask (cap : nat) (check : Reply Resp -> checkOutcome)
    (st : Race) (i : nat) (old new : taskPC) :
  tasks st !! i = Some old ->
  holdsToken new = holdsToken old ->
  (forall p, carried new = Some p -> checked check p) ->
  raceInv cap check st -> raceInv cap check (setTask i new st).
Proof.
  intros Hi Htok Hnew (Hcnt & Hpost & Htasks & Hcap & Hnil).
  unfold raceInv, setTask, posted in *. simpl.
  pose proof (sum_list_insert holdsToken (tasks st) i old new Hi) as Hsum.
  repeat split; auto; try apply Hnil.
  - lia.
  - now apply Forall_insert.
Qed.

Lemma raceStep_inv (cap : nat) (check : Reply Resp -> checkOutcome)
    (st : Race) (ev : event) :
  raceInv cap check st -> raceInv cap check (raceStep cap check st ev).
Proof.
  intros Inv. unfold raceStep.
  destruct (crashed st) eqn:Hcr; [exact Inv|].
  destruct ev as [|i r|i|].
  - (* the sentinel *)
    destruct (sentinelDone st) eqn:Hs; [exact Inv|].
    destruct (chanSend cap None st) as [st'|] eqn:Hsend; [|exact Inv].
    destruct Inv as (Hcnt & Hpost & Htasks & Hcap & Hnil).
    apply chanSend_Some in Hsend as (Hp & Hr & Ht & _ & _ & Hcap'); [|exact Hcap].
    unfold raceInv, posted in *. simpl. rewrite Hp, Hr, Ht.
    rewrite payloadsOf_snoc, app_nil_r.
    repeat split; auto.
    + intros p Hin. apply elem_of_app in Hin as [Hin|Hin]; [auto|].
      apply list_elem_of_singleton in Hin. discriminate.
    + intros _. apply elem_of_app. right. now left.
  - (* the request of relay i returns *)
    destruct (tasks st !! i) as [[| | | |]|] eqn:Hi; try exact Inv.
    destruct (check r) eqn:Hck.
    + eapply raceInv_setTask; eauto. intros p [=].
    + eapply raceInv_setTask; eauto. intros p [= <-]. now exists r.
    + exact Inv.
  - (* a step of the goroutine of relay i *)
    destruct (tasks st !! i) as [[|p|p|p|]|] eqn:Hi; try exact Inv.
    + (* requestCtxCancel *)
      change (raceInv cap check
                (setTask i (AtCAS p)
                   {| received := received st; ctxCancelled := true;
                      resultCh := resultCh st; result := result st;
                      sentinelDone := sentinelDone st; crashed := crashed st;
                      tasks := tasks st |})).
      eapply raceInv_setTask; eauto.
      destruct Inv as (Hcnt & Hpost & Htasks & Hcap & Hnil).
      intros q [= <-]. rewrite Forall_lookup in Htasks.
      now apply (Htasks i _ Hi).
    + (* the swap *)
      destruct (received st) eqn:Hrcv.
      * eapply raceInv_setTask; eauto. intros q [=].
      * destruct Inv as (Hcnt & Hpost & Htasks & Hcap & Hnil).
        unfold raceInv, posted in *. simpl in *.
        pose proof (sum_list_insert holdsToken (tasks st) i (AtCAS p) (AtSend p) Hi)
          as Hsum. simpl in Hsum.
        rewrite Hrcv in Hcnt. simpl in Hcnt.
        repeat split; auto; try apply Hnil.
        -- lia.
        -- apply Forall_insert; [exact Htasks|].
           intros q [= <-]. rewrite Forall_lookup in Htasks.
           now apply (Htasks i _ Hi).
    + (* the send *)
      destruct (chanSend cap (Some p) st) as [st'|] eqn:Hsend; [|exact Inv].
      destruct Inv as (Hcnt & Hpost & Htasks & Hcap & Hnil).
      apply chanSend_Some in Hsend as (Hp & Hr & Ht & Hs & _ & Hcap');
        [|exact Hcap].
      pose proof (sum_list_insert holdsToken (tasks st) i (AtSend p) Finished Hi)
        as Hsum. simpl in Hsum.
      unfold raceInv, setTask, posted in *. simpl. rewrite Hp, Hr, Ht, Hs.
      rewrite payloadsOf_snoc, length_app. simpl.
      repeat split; auto.
      * lia.
      * intros q Hin. apply elem_of_app in Hin as [Hin|Hin]; [auto|].
        apply list_elem_of_singleton in Hin. injection Hin as ->.
        rewrite Forall_lookup in Htasks. now apply (Htasks i _ Hi).
      * apply Forall_insert; [exact Htasks|]. intros q [=].
      * intros Hin. apply Hnil. apply elem_of_app in Hin as [Hin|Hin]; [auto|].
        apply list_elem_of_singleton in Hin. discriminate.
      * intros Hd. apply elem_of_app. left. now apply Hnil.
  - (* the caller receives *)
    destruct (result st) as [v|] eqn:Hres; [exact Inv|].
    destruct (resultCh st) as [|v q] eqn:Hq; [exact Inv|].
    destruct Inv as (Hcnt & Hpost & Htasks & Hcap & Hnil).
    unfold raceInv, posted in *. rewrite Hres, Hq in *. simpl in *.
    repeat split; auto; try apply Hnil. lia.
Qed.

Lemma runRace_inv (cap : nat) (check : Reply Resp -> checkOutcome)
    (sched : list event) (st : Race) :
  raceInv cap check st -> raceInv cap check (runRace cap check sched st).
Proof.
  revert st. induction sched as [|ev sched IH]; intros st Inv; [exact Inv|].
  apply IH. now apply raceStep_inv.
Qed.

End RaceFacts.

(** ** Race monotonicity *)

Section RaceTheorem.
Context `{Helpers}.

Local Abbreviation Resp := VersionedSubmitBlindedBlockResponse.

Lemma raceStep_result_stable (cap : nat) (check : Reply Resp -> checkOutcome)
    (st : Race) (ev : event) (v : option Resp) :
  result st = Some v -> result (raceStep cap check st ev) = Some v.
Proof.
  intros Hres. unfold raceStep, chanSend, setTask.
  rewrite Hres, andb_false_r.
  repeat match goal with
         | |- context [if ?b then _ else _] => destruct b
         | |- context [match ?x with _ => _ end] => destruct x
         end; simpl; auto.
Qed.

Lemma raceStep_posted_grows (cap : nat) (check : Reply Resp -> checkOutcome)
    (st : Race) (ev : event) :
  raceInv cap check st ->
  exists l, posted (raceStep cap check st ev) = posted st ++ l.
Proof.
  intros (_ & _ & _ & Hcap & _).
  assert (forall v st', chanSend cap v st = Some st' ->
                        posted st' = posted st ++ [v]) as Hsend.
  { intros v st' Hs. now apply chanSend_Some in Hs as (? & _). }
  unfold raceStep.
  destruct (crashed st); [exists []; now rewrite app_nil_r|].
  destruct ev as [|i r|i|].
  - destruct (sentinelDone st); [exists []; now rewrite app_nil_r|].
    destruct (chanSend cap None st) as [st'|] eqn:Hs;
      [|exists []; now rewrite app_nil_r].
    exists [None]. rewrite <- (Hsend _ _ Hs). reflexivity.
  - exists []. rewrite app_nil_r.
    destruct (tasks st !! i) as [[| | | |]|]; try reflexivity.
    destruct (check r); reflexivity.
  - destruct (tasks st !! i) as [[|p|p|p|]|];
      try (exists []; now rewrite app_nil_r).
    + destruct (received st); exists []; now rewrite app_nil_r.
    + destruct (chanSend cap (Some p) st) as [st'|] eqn:Hs;
        [|exists []; now rewrite app_nil_r].
      exists [Some p]. rewrite <- (Hsend _ _ Hs). reflexivity.
  - exists []. rewrite app_nil_r.
    destruct (result st) as [v|] eqn:Hres; [reflexivity|].
    destruct (resultCh st) as [|v q] eqn:Hq; [reflexivity|].
    unfold posted. simpl. now rewrite Hres, Hq.
Qed.

(** Once the sentinel has fired and the caller is scheduled, the caller has
    a value, unless the process has died. *)
Lemma race_caller_reads (cap : nat) (check : Reply Resp -> checkOutcome)
    (st : Race) :
  raceInv cap check st -> crashed st = false ->
  is_Some (result (runRace cap check [SentinelFires; CallerReceives] st)).
Proof.
  intros (Hcnt & Hpost & Htasks & Hcap & Hnil) Hcr. unfold runRace. simpl.
  set (st1 := raceStep cap check st SentinelFires).
  assert (crashed st1 = false /\
          (is_Some (result st1) \/ (result st1 = None /\ resultCh st1 ≠ [])))
    as [Hcr1 Hcase].
  { subst st1. unfold raceStep. rewrite Hcr.
    destruct (sentinelDone st) eqn:Hs.
    - split; [exact Hcr|].
      destruct (result st) as [v|] eqn:Hres; [left; eauto|right].
      split; [reflexivity|]. intros Hq. unfold posted in Hnil.
      rewrite Hres, Hq in Hnil. destruct Hnil as [_ Hin].
      specialize (Hin eq_refl). inversion Hin.
    - unfold chanSend.
      destruct (Nat.ltb_spec (length (resultCh st)) cap) as [Hlt|Hge].
      + simpl. split; [exact Hcr|].
        destruct (result st) as [v|] eqn:Hres; [left; eauto|right].
        split; [reflexivity|]. destruct (resultCh st); discriminate.
      + destruct (Nat.eqb_spec cap 0) as [Hz|Hnz]; simpl.
        * destruct (result st) as [v|] eqn:Hres; simpl.
          -- split; [exact Hcr|]. left. rewrite Hres. eauto.
          -- split; [exact Hcr|]. left. eauto.
        * split; [exact Hcr|].
          destruct (result st) as [v|] eqn:Hres; [left; eauto|right].
          split; [reflexivity|]. intros Hq. rewrite Hq in Hge.
          simpl in Hge. lia. }
  unfold raceStep. rewrite Hcr1. destruct Hcase as [[v Hv]|[Hn Hq]].
  + rewrite Hv. eauto.
  + rewrite Hn. destruct (resultCh st1); [contradiction|]. simpl. eauto.
Qed.

(** C4.  In every state that the race reaches: at most one payload has been
    sent on the channel, and only after the flag was swapped to true; a
    goroutine that comes to the swap when the flag is already true ends
    without sending; values are only ever added behind those already sent;
    a value read by the caller stays what the caller has; it
    is the first value sent, either [nil] sent by the timeout sentinel or
    the one payload; and once the sentinel has fired the caller does read a
    value.  This race, on a channel as large as the list of relays, is what
    [processDenebPayload] and [processElectraPayload] return from. *)
Theorem race_monotonicity (cap n : nat) (check : Reply Resp -> checkOutcome)
    (sched : list event) :
  let st := runRace cap check sched (initRace n) in
  (length (payloadsOf (posted st)) <= 1)%nat /\
  (forall p, Some p ∈ posted st -> received st = true) /\
  (forall i p,
      crashed st = false -> received st = true ->
      tasks st !! i = Some (AtCAS p) ->
      posted (raceStep cap check st (Step i)) = posted st /\
      tasks (raceStep cap check st (Step i)) !! i = Some Finished) /\
  (forall ev, exists l, posted (raceStep cap check st ev) = posted st ++ l) /\
  (forall v more,
      result st = Some v -> result (runRace cap check more st) = Some v) /\
  (forall v,
      result st = Some v ->
      head (posted st) = Some v /\
      ((v = None /\ sentinelDone st = true) \/
       (exists p, v = Some p /\ payloadsOf (posted st) = [p]))) /\
  (crashed st = false ->
   is_Some (result (runRace cap check [SentinelFires; CallerReceives] st))) /\
  (forall m ua blindedBlock w,
      snd (processDenebPayload m ua blindedBlock w)
      = callerOutcome
          (runRace (length (relays m)) (denebRelayChecks blindedBlock)
             (schedule w) (initRace (length (relays m))))
          (cachedBid m blindedBlock)) /\
  (forall m ua blindedBlock w,
      snd (processElectraPayload m ua blindedBlock w)
      = callerOutcome
          (runRace (length (relays m)) (electraRelayChecks blindedBlock)
             (schedule w) (initRace (length (relays m))))
          (cachedBid m blindedBlock)).
Proof.
  intros st.
  assert (raceInv cap check st) as Inv
    by (apply runRace_inv, raceInv_init).
  pose proof Inv as (Hcnt & Hpost & Htasks & Hcap & Hnil).
  assert (length (payloadsOf (posted st)) <= 1)%nat as Hone
    by (destruct (received st); simpl in Hcnt; lia).
  split; [exact Hone|].
  split; [|split; [|split; [|split; [|split; [|split; [|split]]]]]];
    [| | | | | |reflexivity|reflexivity].
  - intros p Hin. destruct (received st); [reflexivity|].
    apply list_elem_of_split in Hin as (l1 & l2 & Hl).
    rewrite Hl in Hcnt. unfold payloadsOf in Hcnt.
    rewrite omap_app, length_app in Hcnt. csimpl in Hcnt. lia.
  - intros i p Hcr Hrcv Hi. unfold raceStep. rewrite Hcr, Hi, Hrcv.
    split; [reflexivity|]. simpl. apply list_lookup_insert_eq.
    now apply lookup_lt_Some in Hi.
  - intros ev. now apply raceStep_posted_grows.
  - intros v more Hres. revert Hres. generalize st. clear.
    induction more as [|ev more IH]; intros st Hres; [exact Hres|].
    apply IH. now apply raceStep_result_stable.
  - intros v Hres. unfold posted in *. rewrite Hres in *. simpl in *.
    split; [reflexivity|]. destruct v as [p|].
    + right. exists p. split; [reflexivity|]. f_equal.
      apply length_zero_iff_nil. simpl in Hone. lia.
    + left. split; [reflexivity|]. apply Hnil. now left.
  - intros Hcr. now apply race_caller_reads.
Qed.

End RaceTheorem.

(** ** The checks of the payload goroutines *)

Section PayloadChecks.
Context `{Helpers}.

Local Abbreviation Resp := VersionedSubmitBlindedBlockResponse.

(** The loop compares the commitments with those of the response from index
    [i] on. *)
Lemma commitmentsLoop_spec (commitments : list KZGCommitment) (i : nat)
    (blobs : BlobsBundle) :
  (length commitments + i = length (Commitments blobs))%nat ->
  commitmentsLoop i commitments blobs
  = if bool_decide (commitments = drop i (Commitments blobs))
    then Deliver else Return.
Proof.
  revert i. induction commitments as [|c rest IH]; intros i Hlen; simpl in *.
  - rewrite drop_ge by lia. now rewrite bool_decide_eq_true_2.
  - destruct (Commitments blobs !! i) as [c'|] eqn:Hi.
    + rewrite (drop_S _ _ _ Hi).
      destruct (decide (c = c')) as [->|Hne].
      * rewrite (bool_decide_eq_false_2 (c' ≠ c')) by (intros Hn; now apply Hn).
        rewrite IH by lia.
        destruct (decide (rest = drop (S i) (Commitments blobs))) as [He|He].
        -- rewrite !bool_decide_eq_true_2; congruence.
        -- rewrite !bool_decide_eq_false_2; congruence.
      * rewrite (bool_decide_eq_true_2 (c ≠ c')) by assumption.
        rewrite bool_decide_eq_false_2; congruence.
    + apply lookup_ge_None in Hi. lia.
Qed.

Lemma lengths_check (n a b c : nat) :
  bool_decide (n ≠ a) || bool_decide (n ≠ b) || bool_decide (n ≠ c)
  = negb (bool_decide (n = a /\ n = b /\ n = c)).
Proof.
  destruct (decide (n = a)), (decide (n = b)), (decide (n = c));
    repeat first [ rewrite bool_decide_eq_true_2 by tauto
                 | rewrite bool_decide_eq_false_2 by tauto ];
    reflexivity.
Qed.

(** The steps common to the two goroutines: follow the checks of the
    source in their order and compare each with the validator. *)
Ltac checks_agree r version arm :=
  simpl;
  destruct (err r); simpl; [reflexivity|];
  destruct (decide (Version (payload r) = version)) as [Hv|Hv];
  [ rewrite (bool_decide_eq_false_2 (_ ≠ _)) by (intros Hn; now apply Hn);
    rewrite (bool_decide_eq_true_2 (_ = _)) by assumption; simpl
  | rewrite bool_decide_eq_true_2, bool_decide_eq_false_2 by assumption;
    reflexivity ];
  destruct (getPayloadResponseIsEmpty (payload r)); [reflexivity|];
  destruct (arm (payload r)) as [a|]; [|reflexivity];
  destruct (pb_ExecutionPayload a) as [e|]; [|reflexivity];
  set (h := eph_BlockHash _);
  destruct (decide (h = ep_BlockHash e)) as [He|He];
  [ rewrite (bool_decide_eq_false_2 (_ ≠ _)) by (intros Hn; now apply Hn);
    rewrite (bool_decide_eq_true_2 (_ = _)) by congruence; simpl
  | rewrite bool_decide_eq_true_2 by assumption;
    rewrite bool_decide_eq_false_2 by congruence; reflexivity ];
  destruct (pb_BlobsBundle a) as [b|]; [|reflexivity];
  rewrite lengths_check;
  destruct (bool_decide (_ /\ _)) eqn:Hlen; simpl; [|reflexivity];
  apply bool_decide_eq_true in Hlen as (_ & Hlen & _);
  rewrite commitmentsLoop_spec by lia; reflexivity.

(** The goroutine of [processDenebPayload] runs the payload validator of
    the specification at the Deneb descriptor. *)
Lemma denebRelayChecks_generic
    (blindedBlock : SignedBlindedBeaconBlock DenebBlockRest) (r : Reply Resp) :
  denebRelayChecks blindedBlock r = relayTaskChecks denebFork blindedBlock r.
Proof.
  unfold denebRelayChecks, relayTaskChecks, validatePayload.
  checks_agree r DataVersionDeneb (@Deneb _).
Qed.

(** The same for [processElectraPayload] and the Electra descriptor. *)
Lemma electraRelayChecks_generic
    (blindedBlock : SignedBlindedBeaconBlock ElectraBlockRest) (r : Reply Resp) :
  electraRelayChecks blindedBlock r
  = relayTaskChecks electraFork blindedBlock r.
Proof.
  unfold electraRelayChecks, relayTaskChecks, validatePayload.
  checks_agree r DataVersionElectra (@Electra _).
Qed.

(** A response that the validator lets through is coherent with the
    blinded block. *)
Lemma validatePayload_Deliver {R : Type} (fd : ForkDescriptor)
    (blindedBlock : SignedBlindedBeaconBlock R) (r : Reply Resp) :
  relayTaskChecks fd blindedBlock r = Deliver ->
  coherent (expectedVersion fd) (responseArm fd) blindedBlock (payload r).
Proof.
  unfold relayTaskChecks, validatePayload, coherent.
  destruct (err r); [discriminate|].
  destruct (bool_decide (Version (payload r) = expectedVersion fd)) eqn:Hv;
    simpl; [|discriminate].
  destruct (getPayloadResponseIsEmpty (payload r)); [discriminate|].
  destruct (responseArm fd (payload r)) as [arm|]; [|discriminate].
  destruct (pb_ExecutionPayload arm) as [e|] eqn:He; [|discriminate].
  destruct (bool_decide (ep_BlockHash e = _)) eqn:Hh; simpl; [|discriminate].
  destruct (pb_BlobsBundle arm) as [b|] eqn:Hb; [|discriminate].
  destruct (bool_decide (_ /\ _)) eqn:Hlen; [|discriminate].
  destruct (bool_decide (_ = Commitments b)) eqn:Hc; [|discriminate].
  intros _.
  apply bool_decide_eq_true in Hv, Hh, Hlen, Hc.
  destruct Hlen as (L1 & L2 & L3).
  split; [exact Hv|]. split; [reflexivity|].
  exists arm, e, b. repeat split; auto.
  intros i c Hi. now rewrite <- Hc.
Qed.

Lemma raceStep_ext (cap : nat) (check1 check2 : Reply Resp -> checkOutcome)
    (st : Race) (ev : event) :
  (forall r, check1 r = check2 r) ->
  raceStep cap check1 st ev = raceStep cap check2 st ev.
Proof.
  intros E. unfold raceStep. destruct ev; try reflexivity. now rewrite E.
Qed.

Lemma runRace_ext (cap : nat) (check1 check2 : Reply Resp -> checkOutcome)
    (sched : list event) (st : Race) :
  (forall r, check1 r = check2 r) ->
  runRace cap check1 sched st = runRace cap check2 sched st.
Proof.
  intros E. revert st. induction sched as [|ev sched IH]; intros st;
    [reflexivity|].
  unfold runRace in *. simpl. rewrite (raceStep_ext cap check1 check2 st ev E).
  apply IH.
Qed.

(** The two coordinators of the source are the generic coordinator at their
    descriptors. *)
Lemma processDenebPayload_generic (m : BoostService) (ua : UserAgent)
    (blindedBlock : SignedBlindedBeaconBlock DenebBlockRest)
    (w : PayloadWorld) :
  processDenebPayload m ua blindedBlock w
  = processPayload denebFork m ua blindedBlock w.
Proof.
  unfold processDenebPayload, processPayload. cbv zeta.
  rewrite (runRace_ext _ _ _ _ _ (denebRelayChecks_generic blindedBlock)).
  destruct (bids m !! _); simpl;
    destruct (N.eqb_spec (slot (slotUID m)) (Slot (Message blindedBlock)));
    destruct (decide (slot (slotUID m) = Slot (Message blindedBlock)));
    try contradiction; reflexivity.
Qed.

Lemma processElectraPayload_generic (m : BoostService) (ua : UserAgent)
    (blindedBlock : SignedBlindedBeaconBlock ElectraBlockRest)
    (w : PayloadWorld) :
  processElectraPayload m ua blindedBlock w
  = processPayload electraFork m ua blindedBlock w.
Proof.
  unfold processElectraPayload, processPayload. cbv zeta.
  rewrite (runRace_ext _ _ _ _ _ (electraRelayChecks_generic blindedBlock)).
  destruct (bids m !! _); simpl;
    destruct (N.eqb_spec (slot (slotUID m)) (Slot (Message blindedBlock)));
    destruct (decide (slot (slotUID m) = Slot (Message blindedBlock)));
    try contradiction; reflexivity.
Qed.

(** What the generic coordinator returns comes out of the race. *)
Lemma processPayload_Returned {R : Type} (fd : ForkDescriptor)
    (m : BoostService) (ua : UserAgent)
    (blindedBlock : SignedBlindedBeaconBlock R) (w : PayloadWorld)
    (v : option Resp) (bid : bidResp) :
  snd (processPayload fd m ua blindedBlock w) = Returned (v, bid) ->
  result (runRace (length (relays m)) (relayTaskChecks fd blindedBlock)
            (schedule w) (initRace (length (relays m)))) = Some v /\
  bid = default zeroBidResp
          (bids m !! bidKey (Slot (Message blindedBlock))
                       (eph_BlockHash
                          (body_ExecutionPayloadHeader
                             (Body (Message blindedBlock))))).
Proof.
  unfold processPayload, callerOutcome. simpl.
  destruct (result _) as [v'|]; [|destruct (crashed _); discriminate].
  intros [= -> <-]. split; [reflexivity|]. now destruct (bids m !! _).
Qed.

End PayloadChecks.

(** ** Properties of the two coordinators *)

Section Coordinators.
Context `{Helpers}.

Local Abbreviation Resp := VersionedSubmitBlindedBlockResponse.

Lemma runRace_result_stable (cap : nat) (check : Reply Resp -> checkOutcome)
    (sched : list event) (st : Race) (v : option Resp) :
  result st = Some v -> result (runRace cap check sched st) = Some v.
Proof.
  revert st. induction sched as [|ev sched IH]; intros st Hres; [exact Hres|].
  apply IH. now apply raceStep_result_stable.
Qed.

Lemma sentinel_first (n : nat) (check : Reply Resp -> checkOutcome) :
  result (raceStep n check (raceStep n check (initRace n) SentinelFires)
            CallerReceives) = Some None.
Proof. destruct n; reflexivity. Qed.

Lemma raceStep_crashed (cap : nat) (check : Reply Resp -> checkOutcome)
    (st : Race) (ev : event) :
  crashed st = true -> raceStep cap check st ev = st.
Proof. intros Hcr. unfold raceStep. now rewrite Hcr. Qed.

Lemma runRace_sentinel_first (n : nat) (check : Reply Resp -> checkOutcome)
    (more : list event) :
  result (runRace n check (SentinelFires :: CallerReceives :: more)
            (initRace n)) = Some None.
Proof.
  change (runRace n check (SentinelFires :: CallerReceives :: more) (initRace n))
    with (runRace n check more
            (raceStep n check (raceStep n check (initRace n) SentinelFires)
               CallerReceives)).
  apply runRace_result_stable, sentinel_first.
Qed.

Lemma runRace_app (cap : nat) (check : Reply Resp -> checkOutcome)
    (s1 s2 : list event) (st : Race) :
  runRace cap check (s1 ++ s2) st
  = runRace cap check s2 (runRace cap check s1 st).
Proof. apply foldl_app. Qed.

Lemma raceStep_tasks_length (cap : nat) (check : Reply Resp -> checkOutcome)
    (st : Race) (ev : event) :
  length (tasks (raceStep cap check st ev)) = length (tasks st).
Proof.
  unfold raceStep, chanSend, setTask.
  destruct (crashed st); [reflexivity|].
  destruct ev as [|i r|i|].
  - repeat match goal with
           | |- context [if ?c then _ else _] => destruct c
           end; reflexivity.
  - destruct (tasks st !! i) as [[| | | |]|]; try reflexivity.
    destruct (check r); simpl; rewrite ?length_insert; reflexivity.
  - destruct (tasks st !! i) as [[|p|p|p|]|]; simpl; rewrite ?length_insert;
      try reflexivity.
    + destruct (received st); simpl; rewrite ?length_insert; reflexivity.
    + repeat match goal with
             | |- context [if ?c then _ else _] => destruct c
             end; simpl; rewrite ?length_insert; reflexivity.
  - destruct (result st); [reflexivity|]. destruct (resultCh st); reflexivity.
Qed.

(** The process dies only in the checks of a goroutine, on a reply. *)
Lemma raceStep_crash_source (cap : nat) (check : Reply Resp -> checkOutcome)
    (st : Race) (ev : event) :
  crashed st = false -> crashed (raceStep cap check st ev) = true ->
  exists i r, ev = HTTPReturns i r /\ (i < length (tasks st))%nat /\
              check r = Panic.
Proof.
  intros Hcr. unfold raceStep, chanSend, setTask. rewrite Hcr.
  destruct ev as [|i r|i|].
  - repeat match goal with
           | |- context [if ?c then _ else _] => destruct c
           end; simpl; congruence.
  - destruct (tasks st !! i) as [[| | | |]|] eqn:Hi; try congruence.
    destruct (check r) eqn:Hck; simpl; try congruence.
    intros _. exists i, r. split; [reflexivity|]. split; [|exact Hck].
    now apply lookup_lt_Some in Hi.
  - destruct (tasks st !! i) as [[|p|p|p|]|]; simpl; try congruence.
    + destruct (received st); simpl; congruence.
    + repeat match goal with
             | |- context [if ?c then _ else _] => destruct c
             end; simpl; congruence.
  - destruct (result st); [congruence|]. destruct (resultCh st); simpl; congruence.
Qed.

Lemma runRace_crash_source (cap : nat) (check : Reply Resp -> checkOutcome)
    (sched : list event) (st : Race) :
  crashed st = false -> crashed (runRace cap check sched st) = true ->
  exists i r, (i < length (tasks st))%nat /\ HTTPReturns i r ∈ sched /\
              check r = Panic.
Proof.
  revert st. induction sched as [|ev sched IH]; intros st Hcr Hend;
    [simpl in Hend; congruence|].
  destruct (crashed (raceStep cap check st ev)) eqn:Hstep.
  - destruct (raceStep_crash_source cap check st ev Hcr Hstep)
      as (i & r & -> & Hi & Hck).
    exists i, r. split; [exact Hi|]. split; [left|exact Hck].
  - destruct (IH (raceStep cap check st ev) Hstep Hend) as (i & r & Hi & Hin & Hck).
    rewrite raceStep_tasks_length in Hi.
    exists i, r. split; [exact Hi|]. split; [now right|exact Hck].
Qed.

Lemma quiet_init (n : nat) : quiet (initRace n).
Proof.
  unfold quiet, initRace. simpl. repeat split.
  apply Forall_replicate. now left.
Qed.

(** Rejected replies leave the race as it started. *)
Lemma quiet_step (cap : nat) (check : Reply Resp -> checkOutcome)
    (st : Race) (ev : event) :
  quiet st -> rejectedOnly check ev -> quiet (raceStep cap check st ev).
Proof.
  destruct st as [rc cx ch rs sd cr ts]. unfold quiet. simpl.
  intros (-> & -> & -> & -> & -> & HF) Hev. unfold raceStep. simpl.
  destruct ev as [|i r|i|]; simpl in Hev.
  - contradiction.
  - destruct (ts !! i) as [[| | | |]|]; simpl; try (repeat split; assumption).
    rewrite Hev. simpl. repeat split. apply Forall_insert; [exact HF|now right].
  - destruct (ts !! i) as [pc|] eqn:Hi; simpl; [|repeat split; assumption].
    destruct (Forall_lookup_1 _ _ _ _ HF Hi) as [-> | ->]; simpl;
      repeat split; assumption.
  - repeat split; assumption.
Qed.

Lemma quiet_run (cap : nat) (check : Reply Resp -> checkOutcome)
    (sched : list event) (st : Race) :
  Forall (rejectedOnly check) sched -> quiet st ->
  quiet (runRace cap check sched st).
Proof.
  revert st. induction sched as [|ev sched IH]; intros st HF Hq; [exact Hq|].
  inversion HF as [|? ? Hev HF']; subst.
  apply IH; [exact HF'|]. now apply quiet_step.
Qed.

(** A goroutine stays in its request until its request returns. *)
Lemma dispatched_step (cap : nat) (check : Reply Resp -> checkOutcome)
    (st : Race) (ev : event) (i : nat) :
  notFrom i ev -> tasks st !! i = Some Dispatched ->
  tasks (raceStep cap check st ev) !! i = Some Dispatched.
Proof.
  intros Hev Hi. unfold raceStep, chanSend, setTask.
  destruct (crashed st); [exact Hi|].
  destruct ev as [|j r|j|]; simpl in Hev.
  - repeat match goal with
           | |- context [if ?c then _ else _] => destruct c
           end; exact Hi.
  - destruct (tasks st !! j) as [[| | | |]|]; try exact Hi.
    destruct (check r); simpl; [| |exact Hi];
      (rewrite list_lookup_insert_ne by exact Hev); exact Hi.
  - destruct (decide (j = i)) as [->|Hne]; [now rewrite Hi|].
    destruct (tasks st !! j) as [[|p|p|p|]|]; simpl; try exact Hi.
    + now rewrite list_lookup_insert_ne.
    + destruct (received st); simpl; now rewrite list_lookup_insert_ne.
    + repeat match goal with
             | |- context [if ?c then _ else _] => destruct c
             end; simpl; try exact Hi; now rewrite list_lookup_insert_ne.
  - destruct (result st); [exact Hi|]. destruct (resultCh st); exact Hi.
Qed.

Lemma dispatched_run (cap : nat) (check : Reply Resp -> checkOutcome)
    (sched : list event) (st : Race) (i : nat) :
  Forall (notFrom i) sched -> tasks st !! i = Some Dispatched ->
  tasks (runRace cap check sched st) !! i = Some Dispatched.
Proof.
  revert st. induction sched as [|ev sched IH]; intros st HF Hi; [exact Hi|].
  inversion HF as [|? ? Hev HF']; subst.
  apply IH; [exact HF'|]. now apply dispatched_step.
Qed.

(** From a quiet race, a reply that passes the checks, whose goroutine goes
    on to its send, reaches the caller. *)
Lemma quiet_delivers (cap i : nat) (check : Reply Resp -> checkOutcome)
    (r : Reply Resp) (more : list event) (st : Race) :
  (0 < cap)%nat -> quiet st -> tasks st !! i = Some Dispatched ->
  check r = Deliver ->
  result (runRace cap check
            (HTTPReturns i r :: Step i :: Step i :: Step i :: CallerReceives
               :: more) st)
  = Some (Some (payload r)).
Proof.
  destruct st as [rc cx ch rs sd cr ts]. unfold quiet. simpl.
  intros Hcap (-> & -> & -> & -> & -> & _) Hi Hck.
  set (st := {| received := false; ctxCancelled := cx; resultCh := [];
                result := None; sentinelDone := false; crashed := false;
                tasks := ts |}).
  change (runRace cap check
            (HTTPReturns i r :: Step i :: Step i :: Step i :: CallerReceives
               :: more) st)
    with (runRace cap check more
            (raceStep cap check
               (raceStep cap check
                  (raceStep cap check
                     (raceStep cap check
                        (raceStep cap check st (HTTPReturns i r))
                        (Step i)) (Step i)) (Step i)) CallerReceives)).
  apply runRace_result_stable.
  assert (i < length ts)%nat as Hlt by (now apply lookup_lt_Some in Hi).
  assert (raceStep cap check st (HTTPReturns i r)
          = {| received := false; ctxCancelled := cx; resultCh := [];
               result := None; sentinelDone := false; crashed := false;
               tasks := <[i := AtCancel (payload r)]> ts |}) as ->.
  { unfold raceStep, st, setTask. simpl. now rewrite Hi, Hck. }
  assert (forall pc (l : list taskPC),
             length l = length ts -> <[i := pc]> l !! i = Some pc)
    as Hlk by (intros pc l Hl; apply list_lookup_insert_eq; lia).
  unfold raceStep at 4. simpl. rewrite (Hlk _ ts eq_refl).
  unfold raceStep at 3. simpl.
  rewrite Hlk by (now rewrite length_insert).
  unfold raceStep at 2. simpl.
  rewrite Hlk by (now rewrite !length_insert).
  unfold chanSend. simpl.
  assert ((0 <? cap)%nat = true) as -> by (apply Nat.ltb_lt; lia).
  reflexivity.
Qed.

(** From a quiet race, the sentinel gives the caller [nil]. *)
Lemma quiet_times_out (cap : nat) (check : Reply Resp -> checkOutcome)
    (more : list event) (st : Race) :
  quiet st ->
  result (runRace cap check (SentinelFires :: CallerReceives :: more) st)
  = Some None.
Proof.
  destruct st as [rc cx ch rs sd cr ts]. unfold quiet. simpl.
  intros (-> & -> & -> & -> & -> & _).
  set (st := {| received := false; ctxCancelled := cx; resultCh := [];
                result := None; sentinelDone := false; crashed := false;
                tasks := ts |}).
  change (runRace cap check (SentinelFires :: CallerReceives :: more) st)
    with (runRace cap check more
            (raceStep cap check (raceStep cap check st SentinelFires)
               CallerReceives)).
  apply runRace_result_stable. destruct cap; reflexivity.
Qed.

(** A coordinator that sends its requests and then returns what the race
    among the goroutines of the configured relays gives, with the cached
    bid, goes through with the race whatever the pre-flight finds. *)
Lemma race_preflight {R : Type}
    (check : SignedBlindedBeaconBlock R -> Reply Resp -> checkOutcome)
    (process : Coordinator R) :
  (forall m ua blindedBlock w,
      process m ua blindedBlock w
      = (m,
         map (payloadRequest m ua
                (payloadHeaders (uidHeaderFor m blindedBlock) w) blindedBlock)
             (relays m),
         callerOutcome
           (runRace (length (relays m)) (check blindedBlock) (schedule w)
              (initRace (length (relays m))))
           (cachedBid m blindedBlock))) ->
  preflightTolerant check process.
Proof.
  intros E m ua blindedBlock w. cbv zeta.
  set (n := length (relays m)). set (ck := check blindedBlock).
  assert (forall w0, snd (process m ua blindedBlock w0)
                     = callerOutcome (runRace n ck (schedule w0) (initRace n))
                         (cachedBid m blindedBlock)) as Hout
    by (intros w0; now rewrite E).
  assert (forall sched, raceInv n ck (runRace n ck sched (initRace n))) as Hinv
    by (intros sched; apply runRace_inv, raceInv_init).
  split; [now rewrite E|].
  split.
  { intros rq Hin. rewrite E in Hin. simpl in Hin.
    apply list_elem_of_In, in_map_iff in Hin.
    destruct Hin as (relay & <- & _). simpl. unfold payloadHeaders.
    apply lookup_insert_eq. }
  split.
  { intros Hne. unfold uidHeaderFor.
    destruct (decide (slot (slotUID m) = Slot (Message blindedBlock)));
      [contradiction|reflexivity]. }
  split.
  { intros m2 Hrel. rewrite !E. simpl. rewrite Hrel. fold n. fold ck.
    unfold callerOutcome.
    destruct (result _); [reflexivity|]. destruct (crashed _); reflexivity. }
  split.
  { intros v bid Hret. rewrite Hout in Hret. unfold callerOutcome in Hret.
    destruct (result _); [|destruct (crashed _); discriminate].
    now injection Hret as _ <-. }
  split.
  { intros more Hs. rewrite Hout, Hs. unfold callerOutcome.
    now rewrite (quiet_times_out n ck more _ (quiet_init n)). }
  split.
  { intros w' Hs. rewrite Hout, Hs, runRace_app. unfold callerOutcome.
    set (st := runRace n ck (schedule w) (initRace n)).
    destruct (crashed st) eqn:Hcr.
    - assert (runRace n ck [SentinelFires; CallerReceives] st = st) as ->.
      { change (runRace n ck [SentinelFires; CallerReceives] st)
          with (raceStep n ck (raceStep n ck st SentinelFires) CallerReceives).
        rewrite (raceStep_crashed _ _ st) by exact Hcr.
        now apply raceStep_crashed. }
      rewrite Hcr. now destruct (result st).
    - destruct (race_caller_reads n ck st) as [v ->];
        [apply Hinv|exact Hcr|discriminate]. }
  split; [apply Hout|].
  split.
  { intros sched i r more Hi Hrej Hnot Hck Hs.
    rewrite Hout, Hs, runRace_app. unfold callerOutcome.
    rewrite (quiet_delivers n i ck r more); [reflexivity|lia| |
                                              |exact Hck].
    - apply quiet_run; [exact Hrej|apply quiet_init].
    - apply dispatched_run; [exact Hnot|].
      apply lookup_replicate_2. exact Hi. }
  split.
  { intros sched more Hrej Hs. rewrite Hout, Hs, runRace_app.
    unfold callerOutcome. rewrite quiet_times_out; [reflexivity|].
    apply quiet_run; [exact Hrej|apply quiet_init]. }
  split.
  { intros Hdead. rewrite Hout in Hdead. unfold callerOutcome in Hdead.
    destruct (result _); [discriminate|].
    destruct (crashed (runRace n ck (schedule w) (initRace n))) eqn:Hcr;
      [|discriminate].
    destruct (runRace_crash_source n ck (schedule w) (initRace n) eq_refl Hcr)
      as (i & r & Hi & Hin & Hck).
    exists i, r. split; [|split; assumption].
    simpl in Hi. now rewrite length_replicate in Hi. }
  intros w' Hs Hnp. rewrite Hout, Hs, runRace_app. unfold callerOutcome.
  set (st := runRace n ck (schedule w) (initRace n)).
  assert (crashed st = false) as Hcr.
  { destruct (crashed st) eqn:Hcr; [|reflexivity].
    destruct (runRace_crash_source n ck (schedule w) (initRace n) eq_refl Hcr)
      as (i & r & _ & Hin & Hck).
    now destruct (Hnp i r Hin). }
  destruct (race_caller_reads n ck st) as [v ->]; [apply Hinv|exact Hcr|].
  now exists v.
Qed.

Lemma processPayload_preflight {R : Type} (fd : ForkDescriptor) :
  preflightTolerant (relayTaskChecks fd) (processPayload (R := R) fd).
Proof.
  apply race_preflight. intros m ua blindedBlock w.
  unfold processPayload, uidHeaderFor, cachedBid. cbv zeta.
  now destruct (bids m !! _).
Qed.

Lemma processDenebPayload_preflight :
  preflightTolerant denebRelayChecks processDenebPayload.
Proof.
  apply race_preflight. intros m ua blindedBlock w.
  unfold processDenebPayload, uidHeaderFor, cachedBid. cbv zeta.
  destruct (N.eqb_spec (slot (slotUID m)) (Slot (Message blindedBlock)));
    destruct (decide (slot (slotUID m) = Slot (Message blindedBlock)));
    try contradiction; reflexivity.
Qed.

Lemma processElectraPayload_preflight :
  preflightTolerant electraRelayChecks processElectraPayload.
Proof.
  apply race_preflight. intros m ua blindedBlock w.
  unfold processElectraPayload, uidHeaderFor, cachedBid. cbv zeta.
  destruct (N.eqb_spec (slot (slotUID m)) (Slot (Message blindedBlock)));
    destruct (decide (slot (slotUID m) = Slot (Message blindedBlock)));
    try contradiction; reflexivity.
Qed.

Lemma processPayload_readsOnly {R : Type} (fd : ForkDescriptor) :
  readsOnly (processPayload (R := R) fd).
Proof.
  intros m ua blindedBlock w. cbv zeta.
  change (fst (fst (processPayload fd m ua blindedBlock w))) with m.
  split; [reflexivity|]. split; [reflexivity|]. split; [reflexivity|].
  split; [reflexivity|].
  intros ua2 w2 v1 bid1 v2 bid2 H1 H2.
  apply processPayload_Returned in H1 as [_ ->].
  apply processPayload_Returned in H2 as [_ ->]. reflexivity.
Qed.

Lemma readsOnly_ext {R : Type} (p1 p2 : Coordinator R) :
  (forall m ua b w, p1 m ua b w = p2 m ua b w) ->
  readsOnly p2 -> readsOnly p1.
Proof.
  intros E Hp m ua blindedBlock w. specialize (Hp m ua blindedBlock w).
  cbv zeta in *. rewrite E.
  destruct Hp as (H1 & H2 & H3 & H4 & H5).
  repeat split; auto. intros ua2 w2 v1 bid1 v2 bid2. rewrite !E. apply H5.
Qed.

(** C3.  A payload that [processDenebPayload] returns to its caller has
    version Deneb, is not empty, has the block hash of the header of the
    blinded block, has blobs, commitments and proofs vectors as long as the
    commitments of the blinded block, and has the same commitment as the
    blinded block at every index; the same holds for
    [processElectraPayload] with version Electra. *)
Theorem payload_coherence :
  (forall m ua blindedBlock w p bid,
      snd (processDenebPayload m ua blindedBlock w) = Returned (Some p, bid) ->
      coherent DataVersionDeneb Deneb blindedBlock p) /\
  (forall m ua blindedBlock w p bid,
      snd (processElectraPayload m ua blindedBlock w) = Returned (Some p, bid) ->
      coherent DataVersionElectra Electra blindedBlock p).
Proof.
  assert (forall R (fd : ForkDescriptor) m ua
                 (blindedBlock : SignedBlindedBeaconBlock R) w p bid,
             snd (processPayload fd m ua blindedBlock w) = Returned (Some p, bid) ->
             coherent (expectedVersion fd) (responseArm fd) blindedBlock p)
    as Hgen.
  { intros R fd m ua blindedBlock w p bid Hout.
    apply processPayload_Returned in Hout as [Hres _].
    pose proof (runRace_inv (length (relays m))
                  (relayTaskChecks fd blindedBlock) (schedule w)
                  (initRace (length (relays m))) (raceInv_init _ _ _))
      as (_ & Hpost & _).
    destruct (Hpost p) as (r & Hr & <-).
    - unfold posted. rewrite Hres. now left.
    - now apply validatePayload_Deliver. }
  split; intros m ua blindedBlock w p bid Hout.
  - rewrite processDenebPayload_generic in Hout. exact (Hgen _ _ _ _ _ _ _ _ Hout).
  - rewrite processElectraPayload_generic in Hout.
    exact (Hgen _ _ _ _ _ _ _ _ Hout).
Qed.

(** C9.  [processDenebPayload] and [processElectraPayload] are the generic
    coordinator at the Deneb and at the Electra descriptor: they agree on
    the service they leave, on the requests they send and on what they
    return, for every input. *)
Theorem fork_variant_equivalence :
  (forall m ua blindedBlock w,
      processDenebPayload m ua blindedBlock w
      = processPayload denebFork m ua blindedBlock w) /\
  (forall m ua blindedBlock w,
      processElectraPayload m ua blindedBlock w
      = processPayload electraFork m ua blindedBlock w).
Proof.
  split; intros m ua blindedBlock w.
  - apply processDenebPayload_generic.
  - apply processElectraPayload_generic.
Qed.

(** C8.  Neither coordinator stops at the pre-flight, for any state of the
    registry and of the bid cache (a bid that is absent, or that has no
    relays).  When the registry is at another slot the requests carry an
    empty slot-UID.  A POST goes to every configured relay, and what the
    caller gets is what the race among one goroutine per configured relay
    gives, with the cached bid beside it, the zero value when there is
    none.  So a reply of any configured relay that passes the checks, after
    replies of other relays that were all rejected, is returned with that
    bid; when the sentinel fires after rejected replies only, [nil] is
    returned with that bid; the call dies only if the checks of a goroutine
    panic on a reply, never in the pre-flight; and once the sentinel has
    fired and the caller is scheduled, the caller has a value and that
    bid. *)
Theorem preflight_never_aborts :
  preflightTolerant denebRelayChecks processDenebPayload /\
  preflightTolerant electraRelayChecks processElectraPayload.
Proof.
  split.
  - apply processDenebPayload_preflight.
  - apply processElectraPayload_preflight.
Qed.

(** C10.  Both coordinators leave the service as it was: the bid cache and
    the slot-UID registry are read and not written, the cached bid of the
    blinded block stays, and a second call for the same blinded block
    returns the same bid. *)
Theorem payload_frame :
  readsOnly processDenebPayload /\ readsOnly processElectraPayload.
Proof.
  split.
  - apply (readsOnly_ext _ (processPayload denebFork));
      [apply processDenebPayload_generic|apply processPayload_readsOnly].
  - apply (readsOnly_ext _ (processPayload electraFork));
      [apply processElectraPayload_generic|apply processPayload_readsOnly].
Qed.

End Coordinators.

(** The only relay answers with a coherent Deneb payload, which the caller
    gets. *)
Lemma payload_coherence_witness :
  snd (processDenebPayload (Mock.service [Mock.relayA]) "ua"
         MockPayload.block MockPayload.relayWins)
  = Returned (Some MockPayload.goodResponse, zeroBidResp) /\
  coherent DataVersionDeneb Deneb MockPayload.block MockPayload.goodResponse.
Proof.
  assert (snd (processDenebPayload (Mock.service [Mock.relayA]) "ua"
                 MockPayload.block MockPayload.relayWins)
          = Returned (Some MockPayload.goodResponse, zeroBidResp)) as Hout
    by reflexivity.
  split; [exact Hout|].
  exact (proj1 payload_coherence _ _ _ _ _ _ Hout).
Defined.

(** The registry is at slot 0 and the bid cache is empty; the block is for
    slot 5.  Relay A answers with a response for another block, relay B then
    with a good one, which the caller gets with the zero bid. *)
Lemma preflight_never_aborts_witness :
  slot (slotUID (Mock.service [Mock.relayA; Mock.relayB]))
  ≠ Slot (Message MockPayload.block) /\
  bids (Mock.service [Mock.relayA; Mock.relayB])
    !! bidKey (Slot (Message MockPayload.block))
         (eph_BlockHash
            (body_ExecutionPayloadHeader (Body (Message MockPayload.block))))
  = None /\
  snd (processDenebPayload (Mock.service [Mock.relayA; Mock.relayB]) "ua"
         MockPayload.block MockPayload.firstInvalid)
  = Returned (Some MockPayload.goodResponse, zeroBidResp).
Proof.
  split; [discriminate|]. split; [reflexivity|].
  destruct (proj1 preflight_never_aborts
              (Mock.service [Mock.relayA; Mock.relayB]) "ua" MockPayload.block
              MockPayload.firstInvalid)
    as (_ & _ & _ & _ & _ & _ & _ & _ & Hdeliver & _).
  apply (Hdeliver [HTTPReturns 0 (Mock.ok200 MockPayload.otherBlockResponse);
                   Step 0]
           1%nat (Mock.ok200 MockPayload.goodResponse) [SentinelFires]).
  - simpl. lia.
  - repeat constructor.
  - repeat constructor. simpl. lia.
  - reflexivity.
  - reflexivity.
Defined.

(** ** The slot-UID registry *)

(** C6, as stated, fails for a call that does not pass the input
    validation: the registry is at slot 0, the call is for slot 5 with a
    public key of 4 characters, and the registry stays at slot 0 with its
    old UID. *)
Lemma slot_uid_counterexample :
  let m := Mock.service [Mock.relayA] in
  let m' :=
    fst (fst (getHeader m "ua" 5 tooShort Mock.parentHex
                (Mock.world Mock.sameBlockReplies [0%nat]))) in
  (slot (slotUID m) < 5)%N /\
  slotUID m' = slotUID m /\
  slotUID m' ≠ {| slot := 5; uid := replicate 16 x42 |}.
Proof.
  cbv zeta. split; [reflexivity|]. split; [reflexivity|].
  vm_compute. intros E. discriminate E.
Qed.

Section Registry.
Context `{Helpers}.

Lemma getHeader_slot_le (m : BoostService) (ua : UserAgent) (_slot : N)
    (pubkey parentHashHex : string) (w : HeaderWorld) :
  (slot (slotUID m)
   <= slot (slotUID (fst (fst (getHeader m ua _slot pubkey parentHashHex w)))))%N.
Proof.
  unfold getHeader.
  destruct (bool_decide (String.length pubkey ≠ 98%nat)); [simpl; lia|].
  destruct (bool_decide (String.length parentHashHex ≠ 66%nat)); [simpl; lia|].
  cbv zeta. cbn [fst].
  destruct (N.ltb_spec (slot (slotUID m)) _slot); simpl; lia.
Qed.

Lemma serve_slot_le (m : BoostService) (c : Call) :
  (slot (slotUID m) <= slot (slotUID (serve m c)))%N.
Proof.
  destruct c; simpl; [apply getHeader_slot_le|reflexivity|reflexivity].
Qed.

Lemma lifetime_slot_le (calls : list Call) (m : BoostService) :
  (slot (slotUID m) <= slot (slotUID (lifetime m calls)))%N.
Proof.
  revert m. induction calls as [|c calls IH]; intros m; [reflexivity|].
  unfold lifetime in *. simpl.
  etransitivity; [apply (serve_slot_le m c)|apply IH].
Qed.

(** C6, amended.  Over any sequence of calls of [getHeader] and of the two
    coordinators the slot of the registry never decreases.  A call of
    [getHeader] that passes the input validation and whose slot is greater
    than the slot of the registry sets the registry to that slot and to the
    UID that [uuid.New] returns; one whose slot is not greater leaves the
    service as it is; in both cases the requests carry the UID that the
    registry holds after the call, and nothing but the registry changes. *)
Theorem slot_uid_monotone (m : BoostService) (ua : UserAgent) (_slot : N)
    (pubkey parentHashHex : string) (w : HeaderWorld) :
  String.length pubkey = 98%nat ->
  String.length parentHashHex = 66%nat ->
  let out := getHeader m ua _slot pubkey parentHashHex w in
  let m' := fst (fst out) in
  ((slot (slotUID m) < _slot)%N ->
   slotUID m' = {| slot := _slot; uid := newUID w |}) /\
  ((_slot <= slot (slotUID m))%N -> m' = m) /\
  (forall rq, rq ∈ snd (fst out) ->
              req_headers rq !! HeaderKeySlotUID
              = Some (UUID_String (uid (slotUID m')))) /\
  m' = set_slotUID m (slotUID m') /\
  (forall before after,
      (slot (slotUID (lifetime m before))
       <= slot (slotUID (lifetime m (before ++ after))))%N).
Proof.
  intros Hp Hh. cbv zeta. unfold getHeader.
  rewrite (bool_decide_eq_false_2 (String.length pubkey ≠ 98%nat))
    by (intros Hn; now apply Hn).
  rewrite (bool_decide_eq_false_2 (String.length parentHashHex ≠ 66%nat))
    by (intros Hn; now apply Hn).
  cbv zeta. cbn [fst snd].
  split; [|split; [|split; [|split]]].
  - intros Hlt. apply N.ltb_lt in Hlt. now rewrite Hlt.
  - intros Hle. apply N.ltb_ge in Hle. now rewrite Hle.
  - intros rq Hin. apply list_elem_of_In, in_map_iff in Hin.
    destruct Hin as (relay & <- & _). simpl. apply lookup_insert_eq.
  - destruct (slot (slotUID m) <? _slot)%N; [reflexivity|]. now destruct m.
  - intros before after. unfold lifetime. rewrite foldl_app.
    apply lifetime_slot_le.
Qed.

End Registry.

(** The registry is at slot 0; a well-formed call for slot 5 moves it to
    slot 5 with the new UID. *)
Lemma slot_uid_monotone_witness :
  let m := Mock.service [Mock.relayA] in
  let w := Mock.world Mock.sameBlockReplies [0%nat] in
  String.length Mock.pubkeyHex = 98%nat /\
  String.length Mock.parentHex = 66%nat /\
  slotUID (fst (fst (getHeader m "ua" 5 Mock.pubkeyHex Mock.parentHex w)))
  = {| slot := 5; uid := newUID w |}.
Proof.
  intros m w.
  assert (String.length Mock.pubkeyHex = 98%nat) as Hp by reflexivity.
  assert (String.length Mock.parentHex = 66%nat) as Hh by reflexivity.
  split; [exact Hp|]. split; [exact Hh|].
  exact (proj1 (slot_uid_monotone m "ua" 5 Mock.pubkeyHex Mock.parentHex w
                  Hp Hh) eq_refl).
Defined.

(** ** The scenarios of the specification, run on the stand-in *)

(** Two relays, distinct values: the greater value wins and only its relay
    is listed. *)
Example scenario_distinct_values :
  let r :=
    fst (snd (getHeader (Mock.service [Mock.relayA; Mock.relayB]) "ua" 5
                Mock.pubkeyHex Mock.parentHex
                (Mock.world Mock.distinctReplies [0; 1]%nat))) in
  value (br_bidInfo r) = 2000%N /\ blockHash (br_bidInfo r) = Mock.hashBB /\
  br_relays r = [Mock.relayB].
Proof. vm_compute. repeat split. Qed.

(** A tie on the value: the smaller block hash wins, in both orders. *)
Example scenario_tie :
  let run ord :=
    fst (snd (getHeader (Mock.service [Mock.relayA; Mock.relayB]) "ua" 5
                Mock.pubkeyHex Mock.parentHex
                (Mock.world Mock.tieReplies ord))) in
  blockHash (br_bidInfo (run [0; 1]%nat)) = Mock.hash11 /\
  blockHash (br_bidInfo (run [1; 0]%nat)) = Mock.hash11 /\
  br_relays (run [0; 1]%nat) = [Mock.relayB].
Proof. vm_compute. repeat split. Qed.

(** A bid whose signature does not verify gives no bid; with the check
    switched off the same bid wins. *)
Example scenario_signature_mismatch :
  let w :=
    Mock.world (fun _ => Mock.ok200 Mock.badSignatureBid) [0%nat] in
  IsEmpty
    (br_response
       (fst (snd (getHeader (Mock.service [Mock.relayA]) "ua" 5
                    Mock.pubkeyHex Mock.parentHex w)))) = true /\
  br_response
    (fst (snd (@getHeader Mock.mockTypes Mock.mockHelpersSkip
                 (Mock.service [Mock.relayA]) "ua" 5 Mock.pubkeyHex
                 Mock.parentHex w))) = Mock.badSignatureBid.
Proof. vm_compute. repeat split. Qed.

(** A bid for another parent hash is rejected. *)
Example scenario_parent_hash_mismatch :
  fst (snd (getHeader (Mock.service [Mock.relayA]) "ua" 5 Mock.pubkeyHex
              Mock.parentHex
              (Mock.world (fun _ => Mock.ok200 Mock.otherParentBid) [0%nat])))
  = zeroBidResp.
Proof. vm_compute. reflexivity. Qed.

(** Two good responses: the caller gets one payload, the goroutine that
    lost the swap sends nothing. *)
Example scenario_both_valid :
  snd (processDenebPayload (Mock.service [Mock.relayA; Mock.relayB]) "ua"
         MockPayload.block MockPayload.bothValid)
  = Returned (Some MockPayload.goodResponse, zeroBidResp) /\
  resultCh
    (runRace 2 (denebRelayChecks MockPayload.block)
       (schedule MockPayload.bothValid) (initRace 2)) = [None].
Proof. vm_compute. repeat split. Qed.

(** The first response is for another block, the second is good: the caller
    gets the second. *)
Example scenario_first_invalid :
  snd (processDenebPayload (Mock.service [Mock.relayA; Mock.relayB]) "ua"
         MockPayload.block MockPayload.firstInvalid)
  = Returned (Some MockPayload.goodResponse, zeroBidResp).
Proof. vm_compute. reflexivity. Qed.

(** No relay answers before the timeout: the caller gets [nil] and the
    cached bid. *)
Example scenario_silent :
  snd (processDenebPayload (Mock.service [Mock.relayA; Mock.relayB]) "ua"
         MockPayload.block MockPayload.silent)
  = Returned (None, zeroBidResp).
Proof. vm_compute. reflexivity. Qed.

(** * Further properties of the code *)

(** ** Which replies enter the auction *)

Section Acceptance.
Context `{Helpers}.

(** X1.  The goroutine of a relay reaches the lock with a bid exactly when
    the request returned without error and not with status 204, the
    response is not empty and parses to that bid, the block hash is not
    zero, the builder key is the key of the relay, the signature verifies
    unless the check is switched off, the parent hash prints as the argument
    of the call, the value is not 0, the transactions root is not the one
    of the empty list, and the minimum bid is negative or fits 256 bits and
    is at most the value. *)
Theorem relayCheck_accepts_iff (m : BoostService) (parentHashHex : string)
    (relay : RelayEntry) (r : Reply VersionedSignedBuilderBid) (bi : bidInfo) :
  relayCheck m parentHashHex relay r = Some bi <->
  err r = None /\ code r ≠ StatusNoContent /\ IsEmpty (payload r) = false /\
  parseBidInfo (payload r) = inr bi /\
  blockHash bi ≠ nilHash /\
  pubkey bi = PublicKey relay /\
  (SkipRelaySignatureCheck = false ->
   checkRelaySignature (payload r) (builderSigningDomain m) (PublicKey relay)
   = inr true) /\
  Hash32_String (parentHash bi) = parentHashHex /\
  value bi ≠ 0%N /\
  Hash32_String (txRoot bi) ≠ emptyTxRoot /\
  (relayMinBid m < 0 \/
   (relayMinBid m < 2 ^ 256 /\ relayMinBid m <= Z.of_N (value bi))).
Proof.
  split; [apply relayCheck_Some|].
  intros (He & Hc & Hemp & Hp & Hnil & Hpk & Hsig & Hph & Hv & Htx & Hmin).
  unfold relayCheck. rewrite He, Hemp, Hp. simpl.
  destruct (Z.eqb_spec (code r) StatusNoContent) as [|_]; [contradiction|].
  rewrite (bool_decide_eq_false_2 (blockHash bi = nilHash)) by assumption.
  rewrite (bool_decide_eq_false_2 (BLSPubKey_String (PublicKey relay)
                                   ≠ BLSPubKey_String (pubkey bi)))
    by (rewrite Hpk; intros Hn; now apply Hn).
  assert ((if negb SkipRelaySignatureCheck
           then match checkRelaySignature (payload r) (builderSigningDomain m)
                        (PublicKey relay) with
                | inl _ => true
                | inr ok => negb ok
                end
           else false) = false) as ->.
  { destruct SkipRelaySignatureCheck; simpl; [reflexivity|].
    now rewrite (Hsig eq_refl). }
  rewrite (bool_decide_eq_false_2 (Hash32_String (parentHash bi) ≠ parentHashHex))
    by (intros Hn; now apply Hn).
  assert (U256.IsZero (value bi) = false) as ->
    by (unfold U256.IsZero; now apply N.eqb_neq).
  rewrite (bool_decide_eq_false_2 (Hash32_String (txRoot bi) = emptyTxRoot))
    by assumption.
  simpl. apply CmpBig_not_below in Hmin.
  destruct (Z.eqb_spec (U256.CmpBig (value bi) (relayMinBid m)) (-1));
    [contradiction|reflexivity].
Qed.

End Acceptance.

(** ** The outcome of the auction *)

Section AuctionOutcome.
Context `{Helpers}.

Lemma keyCompare_lt_le_trans (a b c : BidKey) :
  keyCompare a b = Lt -> keyCompare b c ≠ Gt -> keyCompare a c = Lt.
Proof.
  intros Hab Hbc. destruct (keyCompare b c) eqn:E; [| |contradiction].
  - apply keyCompare_eq in E. now subst.
  - eapply keyCompare_lt_trans; eauto.
Qed.

Lemma keyCompare_not_Gt (a b : BidKey) :
  keyCompare a b ≠ Gt <->
  (fst b < fst a)%N \/
  (fst a = fst b /\ Hex.bytes_compare (snd a) (snd b) ≠ Gt).
Proof.
  unfold keyCompare. destruct (N.compare_spec (fst b) (fst a)) as [E|L|G].
  - split; [intros Hc; right; split; [now symmetry|exact Hc]|].
    intros [?|[_ Hc]]; [lia|exact Hc].
  - split; [now left|discriminate].
  - split; [intros Hc; now contradiction Hc|]. intros [?|[? _]]; lia.
Qed.

Lemma keyCompare_Lt (a b : BidKey) :
  keyCompare a b = Lt <->
  (fst b < fst a)%N \/
  (fst a = fst b /\ Hex.bytes_compare (snd a) (snd b) = Lt).
Proof.
  unfold keyCompare. destruct (N.compare_spec (fst b) (fst a)) as [E|L|G].
  - split; [intros Hc; right; split; [now symmetry|exact Hc]|].
    intros [?|[_ Hc]]; [lia|exact Hc].
  - split; [now left|reflexivity].
  - split; [discriminate|]. intros [?|[? _]]; lia.
Qed.

(** The block under the lock, in terms of the order of ranks. *)
Lemma relayCommit_result_key (relay : RelayEntry)
    (resp : VersionedSignedBuilderBid) (bi : bidInfo) (now : Time)
    (st : Auction) :
  au_result (relayCommit relay resp bi now st) =
  if IsEmpty (br_response (au_result st))
  then {| br_t := now; br_response := resp; br_bidInfo := bi;
          br_relays := br_relays (au_result st) |}
  else
    match keyCompare (keyOf bi) (keyOf (br_bidInfo (au_result st))) with
    | Lt => {| br_t := now; br_response := resp; br_bidInfo := bi;
               br_relays := br_relays (au_result st) |}
    | _ => au_result st
    end.
Proof.
  rewrite relayCommit_result. cbv zeta.
  destruct (IsEmpty (br_response (au_result st))); [reflexivity|].
  unfold keyCompare, keyOf. simpl.
  rewrite (N.compare_antisym (value bi) (value (br_bidInfo (au_result st)))).
  destruct (value bi ?= value (br_bidInfo (au_result st)))%N; simpl;
    try reflexivity.
  pose proof (str_lt_hash (blockHash bi) (blockHash (br_bidInfo (au_result st))))
    as Hsm.
  destruct (Hex.str_lt _ _).
  - destruct Hsm as [Hsm _]. now rewrite (Hsm eq_refl).
  - destruct (Hex.bytes_compare _ _); try reflexivity.
    destruct Hsm as [_ Hsm]. specialize (Hsm eq_refl). discriminate.
Qed.

Variables (m : BoostService) (parentHashHex : string).
Variable reply : nat -> Reply VersionedSignedBuilderBid.
Variable clock : nat -> Time.

Lemma snoc_split (order pre post : list nat) (i j : nat) :
  order = pre ++ i :: post -> order ++ [j] = pre ++ i :: (post ++ [j]).
Proof. intros ->. now rewrite <- app_assoc. Qed.

Lemma runAuction_snoc (order : list nat) (j : nat) (st : Auction) :
  runAuction m parentHashHex reply clock (order ++ [j]) st
  = match bidAt m parentHashHex reply j with
    | Some (relay, bj) =>
        relayCommit relay (payload (reply j)) bj (clock j)
          (runAuction m parentHashHex reply clock order st)
    | None => runAuction m parentHashHex reply clock order st
    end.
Proof.
  unfold runAuction. rewrite foldl_snoc. unfold bidAt, relayTask.
  destruct (relays m !! j) as [relay|]; [|reflexivity].
  now destruct (relayCheck m parentHashHex relay (reply j)).
Qed.

Lemma bidAt_nonempty (i : nat) (relay : RelayEntry) (bi : bidInfo) :
  bidAt m parentHashHex reply i = Some (relay, bi) ->
  relays m !! i = Some relay /\
  relayCheck m parentHashHex relay (reply i) = Some bi /\
  IsEmpty (payload (reply i)) = false.
Proof.
  unfold bidAt. destruct (relays m !! i) as [relay'|]; [|discriminate].
  destruct (relayCheck m parentHashHex relay' (reply i)) as [bi'|] eqn:Hc;
    [|discriminate].
  intros [= <- <-]. repeat split; auto.
  now apply relayCheck_Some in Hc as (_ & _ & He & _).
Qed.

(** Either no reply passed the checks and the best bid is still the zero
    value, or the best bid is the bid of an index that beats every bid
    before it and is not beaten by any bid after it. *)
Lemma runAuction_outcome (order : list nat) :
  let st := runAuction m parentHashHex reply clock order initAuction in
  ((forall i, i ∈ order -> bidAt m parentHashHex reply i = None) /\
   au_result st = zeroBidResp) \/
  (exists pre i post relay bi,
      order = pre ++ i :: post /\
      winsAt m parentHashHex reply clock pre i post relay bi st).
Proof.
  induction order as [|j order IH] using rev_ind; cbv zeta.
  - left. split; [|reflexivity]. intros i Hi. inversion Hi.
  - cbv zeta in IH. rewrite runAuction_snoc.
    set (st := runAuction m parentHashHex reply clock order initAuction) in *.
    destruct (bidAt m parentHashHex reply j) as [[relay bj]|] eqn:Hj.
    + pose proof (bidAt_nonempty j relay bj Hj) as (_ & _ & Hne).
      destruct IH as [[Hnone Hres]|(pre & i & post & ri & bi & Hord & Hw)].
      * right. exists order, j, [], relay, bj. split; [reflexivity|].
        split; [exact Hj|]. split; [|split].
        -- rewrite relayCommit_result_key, Hres. reflexivity.
        -- intros j' rj' bj' Hin Hb. rewrite (Hnone j' Hin) in Hb. discriminate.
        -- intros j' rj' bj' Hin. inversion Hin.
      * destruct Hw as (Hi & Hres & Hpre & Hpost).
        pose proof (bidAt_nonempty i ri bi Hi) as (_ & _ & Hnei).
        assert (au_result (relayCommit relay (payload (reply j)) bj (clock j) st)
                = match keyCompare (keyOf bj) (keyOf bi) with
                  | Lt => {| br_t := clock j; br_response := payload (reply j);
                             br_bidInfo := bj; br_relays := [] |}
                  | _ => au_result st
                  end) as Hnew.
        { rewrite relayCommit_result_key, Hres. simpl. now rewrite Hnei. }
        destruct (keyCompare (keyOf bj) (keyOf bi)) eqn:Hcmp.
        -- right. exists pre, i, (post ++ [j]), ri, bi.
           split; [apply snoc_split, Hord|].
           split; [exact Hi|]. split; [now rewrite Hnew|]. split; [exact Hpre|].
           intros j' rj' bj' Hin Hb. apply elem_of_app in Hin as [Hin|Hin];
             [eauto|].
           apply list_elem_of_singleton in Hin. subst j'.
           rewrite Hj in Hb. injection Hb as <- <-.
           rewrite keyCompare_antisym, Hcmp. discriminate.
        -- right. exists order, j, [], relay, bj. split; [reflexivity|].
           split; [exact Hj|]. split; [exact Hnew|]. split.
           ++ intros j' rj' bj' Hin Hb. rewrite Hord in Hin.
              apply elem_of_app in Hin as [Hin|Hin].
              ** eapply keyCompare_lt_trans; eauto.
              ** apply elem_of_cons in Hin as [->|Hin].
                 --- rewrite Hi in Hb. injection Hb as <- <-. exact Hcmp.
                 --- eapply keyCompare_lt_le_trans; eauto.
           ++ intros j' rj' bj' Hin. inversion Hin.
        -- right. exists pre, i, (post ++ [j]), ri, bi.
           split; [apply snoc_split, Hord|].
           split; [exact Hi|]. split; [now rewrite Hnew|]. split; [exact Hpre|].
           intros j' rj' bj' Hin Hb. apply elem_of_app in Hin as [Hin|Hin];
             [eauto|].
           apply list_elem_of_singleton in Hin. subst j'.
           rewrite Hj in Hb. injection Hb as <- <-.
           rewrite keyCompare_antisym, Hcmp. discriminate.
    + destruct IH as [[Hnone Hres]|(pre & i & post & ri & bi & Hord & Hw)].
      * left. split; [|exact Hres]. intros i Hin.
        apply elem_of_app in Hin as [Hin|Hin]; [auto|].
        apply list_elem_of_singleton in Hin. now subst.
      * right. exists pre, i, (post ++ [j]), ri, bi.
        split; [apply snoc_split, Hord|].
        destruct Hw as (Hi & Hres & Hpre & Hpost).
        split; [exact Hi|]. split; [exact Hres|]. split; [exact Hpre|].
        intros j' rj' bj' Hin Hb. apply elem_of_app in Hin as [Hin|Hin];
          [eauto|].
        apply list_elem_of_singleton in Hin. subst j'.
        rewrite Hj in Hb. discriminate.
Qed.

End AuctionOutcome.

(** ** What [getHeader] returns *)

Section HeaderOutcome.
Context `{Helpers}.

Lemma getHeader_valid (m : BoostService) (ua : UserAgent) (_slot : N)
    (pubkey parentHashHex : string) (w : HeaderWorld) :
  String.length pubkey = 98%nat -> String.length parentHashHex = 66%nat ->
  fst (snd (getHeader m ua _slot pubkey parentHashHex w))
  = finalResult (runAuction m parentHashHex (reply w) (clock w) (order w)
                   initAuction) /\
  snd (snd (getHeader m ua _slot pubkey parentHashHex w)) = None.
Proof.
  intros Hp Hh. unfold getHeader.
  rewrite (bool_decide_eq_false_2 (String.length pubkey ≠ 98%nat))
    by (intros Hn; now apply Hn).
  rewrite (bool_decide_eq_false_2 (String.length parentHashHex ≠ 66%nat))
    by (intros Hn; now apply Hn).
  split; reflexivity.
Qed.

Lemma getHeader_result (m : BoostService) (ua : UserAgent) (_slot : N)
    (pubkey parentHashHex : string) (w : HeaderWorld) :
  fst (snd (getHeader m ua _slot pubkey parentHashHex w)) = zeroBidResp \/
  fst (snd (getHeader m ua _slot pubkey parentHashHex w))
  = finalResult (runAuction m parentHashHex (reply w) (clock w) (order w)
                   initAuction).
Proof.
  unfold getHeader.
  destruct (bool_decide (String.length pubkey ≠ 98%nat)); [now left|].
  destruct (bool_decide (String.length parentHashHex ≠ 66%nat)); [now left|].
  now right.
Qed.

Lemma relayAt_bidAt (m : BoostService) (parentHashHex : string)
    (reply : nat -> Reply VersionedSignedBuilderBid) (k : string) (i : nat) :
  relayAt m parentHashHex reply k i
  = match bidAt m parentHashHex reply i with
    | Some (relay, bi) =>
        if decide (Hash32_String (blockHash bi) = k) then Some relay else None
    | None => None
    end.
Proof.
  unfold relayAt, bidAt. destruct (relays m !! i) as [relay|]; [|reflexivity].
  now destruct (relayCheck m parentHashHex relay (reply i)).
Qed.

Lemma finalResult_relays (m : BoostService) (parentHashHex : string)
    (reply : nat -> Reply VersionedSignedBuilderBid) (clock : nat -> Time)
    (order : list nat) :
  let st := runAuction m parentHashHex reply clock order initAuction in
  br_relays (finalResult st)
  = omap (relayAt m parentHashHex reply
            (Hash32_String (blockHash (br_bidInfo (au_result st))))) order.
Proof.
  cbv zeta. unfold finalResult. simpl. rewrite runAuction_relays.
  simpl. now rewrite lookup_empty.
Qed.

(** A relay is listed exactly when its reply passed the checks with the
    block hash of the result. *)
Lemma finalResult_listed (m : BoostService) (parentHashHex : string)
    (reply : nat -> Reply VersionedSignedBuilderBid) (clock : nat -> Time)
    (order : list nat) (relay : RelayEntry) :
  let st := runAuction m parentHashHex reply clock order initAuction in
  relay ∈ br_relays (finalResult st) <->
  exists i bi, i ∈ order /\ bidAt m parentHashHex reply i = Some (relay, bi) /\
               blockHash bi = blockHash (br_bidInfo (au_result st)).
Proof.
  cbv zeta. rewrite finalResult_relays, list_elem_of_omap. split.
  - intros (i & Hin & Hr). rewrite relayAt_bidAt in Hr.
    destruct (bidAt m parentHashHex reply i) as [[relay' bi]|] eqn:Hb;
      [|discriminate].
    destruct (decide (_ = _)) as [Hk|]; [|discriminate].
    injection Hr as ->. exists i, bi. repeat split; auto.
    now apply sprintf_x_inj.
  - intros (i & bi & Hin & Hb & Hk). exists i. split; [exact Hin|].
    rewrite relayAt_bidAt, Hb, Hk.
    destruct (decide (_ = _)); [reflexivity|contradiction].
Qed.

Lemma no_bids_final (m : BoostService) (parentHashHex : string)
    (reply : nat -> Reply VersionedSignedBuilderBid) (clock : nat -> Time)
    (order : list nat) :
  (forall i, i ∈ order -> bidAt m parentHashHex reply i = None) ->
  finalResult (runAuction m parentHashHex reply clock order initAuction)
  = zeroBidResp.
Proof.
  intros Hnone.
  pose proof (finalResult_relays m parentHashHex reply clock order) as Hrel.
  cbv zeta in Hrel.
  assert (forall k, omap (relayAt m parentHashHex reply k) order = []) as Hnil.
  { intros k.
    destruct (omap (relayAt m parentHashHex reply k) order) as [|relay l] eqn:E;
      [reflexivity|].
    assert (relay ∈ omap (relayAt m parentHashHex reply k) order) as Hin
      by (rewrite E; now left).
    apply list_elem_of_omap in Hin as (i & Hin & Hr).
    rewrite relayAt_bidAt, (Hnone i Hin) in Hr. discriminate. }
  rewrite Hnil in Hrel.
  destruct (runAuction_outcome m parentHashHex reply clock order)
    as [[_ Hres]|(pre & i & post & ri & bi & Hord & Hi & _)].
  - unfold finalResult in *. simpl in Hrel. rewrite Hrel, Hres. reflexivity.
  - rewrite (Hnone i) in Hi; [discriminate|].
    rewrite Hord. apply elem_of_app. right. now left.
Qed.

(** X2.  When [getHeader] returns a bid, it is the reply of a configured
    relay that passed every check of its goroutine: the envelope, the bid
    and the time are those of that goroutine, and that relay is in the
    relays list returned. *)
Theorem winner_valid_and_listed (m : BoostService) (ua : UserAgent)
    (_slot : N) (pubkey parentHashHex : string) (w : HeaderWorld) :
  let r := fst (snd (getHeader m ua _slot pubkey parentHashHex w)) in
  IsEmpty (br_response r) = false ->
  exists i relay bi,
    i ∈ order w /\ relays m !! i = Some relay /\
    relayCheck m parentHashHex relay (reply w i) = Some bi /\
    br_response r = payload (reply w i) /\ br_bidInfo r = bi /\
    br_t r = clock w i /\ relay ∈ br_relays r.
Proof.
  cbv zeta. intros Hne.
  destruct (getHeader_result m ua _slot pubkey parentHashHex w) as [Hz|Hf].
  { rewrite Hz in Hne. discriminate. }
  rewrite Hf in *.
  destruct (runAuction_outcome m parentHashHex (reply w) (clock w) (order w))
    as [[_ Hres]|(pre & i & post & ri & bi & Hord & Hi & Hres & _)].
  { unfold finalResult in Hne. simpl in Hne. rewrite Hres in Hne. discriminate. }
  pose proof (bidAt_nonempty m parentHashHex (reply w) i ri bi Hi)
    as (Hrel & Hchk & _).
  assert (i ∈ order w) as Hin
    by (rewrite Hord; apply elem_of_app; right; now left).
  exists i, ri, bi. split; [exact Hin|]. split; [exact Hrel|].
  split; [exact Hchk|].
  split; [unfold finalResult; simpl; now rewrite Hres|].
  split; [unfold finalResult; simpl; now rewrite Hres|].
  split; [unfold finalResult; simpl; now rewrite Hres|].
  apply finalResult_listed. exists i, bi. split; [exact Hin|].
  split; [exact Hi|]. now rewrite Hres.
Qed.

(** X3.  With well-formed arguments, every reply of the run that passed
    the checks makes the result non-empty and is at most as good as the
    result: its value is not greater, and if its value is equal its block
    hash is not smaller in byte order. *)
Theorem winner_optimal (m : BoostService) (ua : UserAgent) (_slot : N)
    (pubkey parentHashHex : string) (w : HeaderWorld) (i : nat)
    (relay : RelayEntry) (bi : bidInfo) :
  String.length pubkey = 98%nat -> String.length parentHashHex = 66%nat ->
  i ∈ order w -> relays m !! i = Some relay ->
  relayCheck m parentHashHex relay (reply w i) = Some bi ->
  let r := fst (snd (getHeader m ua _slot pubkey parentHashHex w)) in
  IsEmpty (br_response r) = false /\
  (value bi <= value (br_bidInfo r))%N /\
  (value bi = value (br_bidInfo r) ->
   Hex.bytes_compare (blockHash (br_bidInfo r)) (blockHash bi) ≠ Gt).
Proof.
  intros Hp Hh Hin Hrel Hchk. cbv zeta.
  destruct (getHeader_valid m ua _slot pubkey parentHashHex w Hp Hh) as [-> _].
  assert (bidAt m parentHashHex (reply w) i = Some (relay, bi)) as Hb
    by (unfold bidAt; now rewrite Hrel, Hchk).
  destruct (runAuction_outcome m parentHashHex (reply w) (clock w) (order w))
    as [[Hnone _]|(pre & iw & post & rw & bw & Hord & Hw & Hres & Hpre & Hpost)].
  { rewrite (Hnone i Hin) in Hb. discriminate. }
  pose proof (bidAt_nonempty m parentHashHex (reply w) iw rw bw Hw)
    as (_ & _ & Hne).
  unfold finalResult. simpl. rewrite Hres. simpl.
  assert (keyCompare (keyOf bw) (keyOf bi) ≠ Gt) as Hle.
  { rewrite Hord in Hin. apply elem_of_app in Hin as [Hin|Hin].
    - rewrite (Hpre i relay bi Hin Hb). discriminate.
    - apply elem_of_cons in Hin as [->|Hin].
      + rewrite Hw in Hb. injection Hb as <- <-.
        rewrite keyCompare_refl. discriminate.
      + now apply (Hpost i relay bi). }
  apply keyCompare_not_Gt in Hle. unfold keyOf in Hle. simpl in Hle.
  split; [exact Hne|]. split.
  - destruct Hle as [?|[? _]]; lia.
  - intros Hv. destruct Hle as [?|[_ Hc]]; [lia|exact Hc].
Qed.

(** X4.  With well-formed arguments, [getHeader] returns an empty bid
    exactly when no reply of the run passed the checks, and the bid
    returned is then the zero value, with no relay listed; it returns no
    error. *)
Theorem no_bid_iff (m : BoostService) (ua : UserAgent) (_slot : N)
    (pubkey parentHashHex : string) (w : HeaderWorld) :
  String.length pubkey = 98%nat -> String.length parentHashHex = 66%nat ->
  let r := fst (snd (getHeader m ua _slot pubkey parentHashHex w)) in
  (IsEmpty (br_response r) = true <->
   forall i relay, i ∈ order w -> relays m !! i = Some relay ->
                   relayCheck m parentHashHex relay (reply w i) = None) /\
  (IsEmpty (br_response r) = true -> r = zeroBidResp) /\
  snd (snd (getHeader m ua _slot pubkey parentHashHex w)) = None.
Proof.
  intros Hp Hh. cbv zeta.
  destruct (getHeader_valid m ua _slot pubkey parentHashHex w Hp Hh)
    as [-> Hnil].
  refine ((fun X => conj (proj1 X) (conj (proj2 X) Hnil)) _).
  assert ((forall i relay, i ∈ order w -> relays m !! i = Some relay ->
                           relayCheck m parentHashHex relay (reply w i) = None)
          <-> (forall i, i ∈ order w -> bidAt m parentHashHex (reply w) i = None))
    as Hequiv.
  { split.
    - intros Hn i Hin. unfold bidAt.
      destruct (relays m !! i) as [relay|] eqn:Hr; [|reflexivity].
      now rewrite (Hn i relay Hin Hr).
    - intros Hn i relay Hin Hr. specialize (Hn i Hin). unfold bidAt in Hn.
      rewrite Hr in Hn.
      now destruct (relayCheck m parentHashHex relay (reply w i)). }
  rewrite Hequiv.
  destruct (runAuction_outcome m parentHashHex (reply w) (clock w) (order w))
    as [[Hnone Hres]|(pre & iw & post & rw & bw & Hord & Hw & Hres & _)].
  - rewrite (no_bids_final _ _ _ _ _ Hnone). split; [|reflexivity].
    split; [intros _; exact Hnone|reflexivity].
  - pose proof (bidAt_nonempty m parentHashHex (reply w) iw rw bw Hw)
      as (_ & _ & Hne).
    unfold finalResult at 1 3. simpl. rewrite Hres. simpl. rewrite Hne.
    split; [|discriminate]. split; [discriminate|].
    intros Hnone. rewrite (Hnone iw) in Hw; [discriminate|].
    rewrite Hord. apply elem_of_app. right. now left.
Qed.

(** X5.  A relay is in the relays list that [getHeader] returns exactly
    when it is a configured relay whose reply passed the checks with a bid
    for the block hash of the bid returned, whatever the value of that
    bid. *)
Theorem relays_listed_iff (m : BoostService) (ua : UserAgent) (_slot : N)
    (pubkey parentHashHex : string) (w : HeaderWorld) (relay : RelayEntry) :
  let r := fst (snd (getHeader m ua _slot pubkey parentHashHex w)) in
  relay ∈ br_relays r <->
  exists i bi, i ∈ order w /\ relays m !! i = Some relay /\
               relayCheck m parentHashHex relay (reply w i) = Some bi /\
               blockHash bi = blockHash (br_bidInfo r).
Proof.
  cbv zeta.
  assert (forall i bi,
             bidAt m parentHashHex (reply w) i = Some (relay, bi) <->
             relays m !! i = Some relay /\
             relayCheck m parentHashHex relay (reply w i) = Some bi) as Hb.
  { intros i bi. split.
    - intros Hi. now apply bidAt_nonempty in Hi as (? & ? & _).
    - intros [Hr Hc]. unfold bidAt. now rewrite Hr, Hc. }
  destruct (getHeader_result m ua _slot pubkey parentHashHex w) as [Hz|Hf].
  - rewrite Hz. simpl. split; [intros Hin; inversion Hin|].
    intros (i & bi & _ & _ & Hc & Hk).
    apply relayCheck_Some in Hc as (_ & _ & _ & _ & Hnil & _).
    now contradiction Hnil.
  - rewrite Hf, finalResult_listed. unfold finalResult. simpl.
    split; intros (i & bi & Hin & Hx); exists i, bi; (split; [exact Hin|]).
    + destruct Hx as [Hx Hk]. apply Hb in Hx as [? ?]. auto.
    + destruct Hx as (Hr & Hc & Hk). split; [apply Hb; auto|exact Hk].
Qed.

(** X6.  The bid returned is the one of the first goroutine, in the order
    of completion, among those with the best rank: every bid that passed
    the checks earlier in the run has a smaller value, or the same value
    and a greater block hash; a later bid with the same value and block hash
    does not replace it. *)
Theorem first_arrival_keeps_ties (m : BoostService) (ua : UserAgent)
    (_slot : N) (pubkey parentHashHex : string) (w : HeaderWorld) :
  let r := fst (snd (getHeader m ua _slot pubkey parentHashHex w)) in
  IsEmpty (br_response r) = false ->
  exists pre i post,
    order w = pre ++ i :: post /\
    br_response r = payload (reply w i) /\ br_t r = clock w i /\
    forall j relay bj,
      j ∈ pre -> relays m !! j = Some relay ->
      relayCheck m parentHashHex relay (reply w j) = Some bj ->
      (value bj < value (br_bidInfo r))%N \/
      (value bj = value (br_bidInfo r) /\
       Hex.bytes_compare (blockHash (br_bidInfo r)) (blockHash bj) = Lt).
Proof.
  cbv zeta. intros Hne.
  destruct (getHeader_result m ua _slot pubkey parentHashHex w) as [Hz|Hf].
  { rewrite Hz in Hne. discriminate. }
  rewrite Hf in *.
  destruct (runAuction_outcome m parentHashHex (reply w) (clock w) (order w))
    as [[_ Hres]|(pre & i & post & ri & bi & Hord & Hi & Hres & Hpre & _)].
  { unfold finalResult in Hne. simpl in Hne. rewrite Hres in Hne. discriminate. }
  exists pre, i, post. unfold finalResult. simpl. rewrite Hres. simpl.
  split; [exact Hord|]. split; [reflexivity|]. split; [reflexivity|].
  intros j relay bj Hin Hr Hc.
  assert (bidAt m parentHashHex (reply w) j = Some (relay, bj)) as Hb
    by (unfold bidAt; now rewrite Hr, Hc).
  pose proof (Hpre j relay bj Hin Hb) as Hlt.
  apply keyCompare_Lt in Hlt. unfold keyOf in Hlt. simpl in Hlt.
  destruct Hlt as [?|[? ?]]; [now left|right; split; [now symmetry|assumption]].
Qed.

End HeaderOutcome.

Lemma winner_valid_and_listed_witness :
  let m := service [relayA; relayB] in
  let w := world sameBlockReplies [0; 1]%nat in
  IsEmpty (br_response (fst (snd (getHeader m "ua" 5 pubkeyHex parentHex w))))
  = false /\
  exists i relay bi,
    i ∈ order w /\ relays m !! i = Some relay /\
    relayCheck m parentHex relay (reply w i) = Some bi /\
    br_response (fst (snd (getHeader m "ua" 5 pubkeyHex parentHex w)))
    = payload (reply w i) /\
    br_bidInfo (fst (snd (getHeader m "ua" 5 pubkeyHex parentHex w))) = bi /\
    br_t (fst (snd (getHeader m "ua" 5 pubkeyHex parentHex w))) = clock w i /\
    relay ∈ br_relays (fst (snd (getHeader m "ua" 5 pubkeyHex parentHex w))).
Proof.
  intros m w. split; [reflexivity|].
  apply (winner_valid_and_listed m "ua" 5 pubkeyHex parentHex w). reflexivity.
Defined.

Lemma winner_optimal_witness :
  let m := service [relayA; relayB] in
  let w := world distinctReplies [0; 1]%nat in
  (value (mkInfo keyA hashAA 1000)
   <= value (br_bidInfo (fst (snd (getHeader m "ua" 5 pubkeyHex parentHex w)))))%N.
Proof.
  intros m w.
  refine (proj1 (proj2 (winner_optimal m "ua" 5 pubkeyHex parentHex w 0%nat
                          relayA (mkInfo keyA hashAA 1000) _ _ _ _ _)));
    try reflexivity.
  apply list_elem_of_here.
Defined.

Lemma no_bid_iff_witness :
  let m := service [relayA] in
  let w := world (fun _ => ok200 otherParentBid) [0%nat] in
  String.length pubkeyHex = 98%nat /\ String.length parentHex = 66%nat /\
  (IsEmpty (br_response (fst (snd (getHeader m "ua" 5 pubkeyHex parentHex w))))
   = true ->
   fst (snd (getHeader m "ua" 5 pubkeyHex parentHex w)) = zeroBidResp) /\
  snd (snd (getHeader m "ua" 5 pubkeyHex parentHex w)) = None.
Proof.
  intros m w. split; [reflexivity|]. split; [reflexivity|].
  exact (proj2 (no_bid_iff m "ua" 5 pubkeyHex parentHex w eq_refl eq_refl)).
Defined.

Lemma first_arrival_keeps_ties_witness :
  let m := service [relayA; relayB] in
  let w := world sameBlockReplies [1; 0]%nat in
  IsEmpty (br_response (fst (snd (getHeader m "ua" 5 pubkeyHex parentHex w))))
  = false /\
  exists pre i post,
    order w = pre ++ i :: post /\
    br_response (fst (snd (getHeader m "ua" 5 pubkeyHex parentHex w)))
    = payload (reply w i) /\
    br_t (fst (snd (getHeader m "ua" 5 pubkeyHex parentHex w))) = clock w i /\
    forall j relay bj,
      j ∈ pre -> relays m !! j = Some relay ->
      relayCheck m parentHex relay (reply w j) = Some bj ->
      (value bj
       < value (br_bidInfo (fst (snd (getHeader m "ua" 5 pubkeyHex parentHex w)))))%N
      \/ (value bj
          = value (br_bidInfo (fst (snd (getHeader m "ua" 5 pubkeyHex parentHex w))))
          /\ Hex.bytes_compare
               (blockHash
                  (br_bidInfo (fst (snd (getHeader m "ua" 5 pubkeyHex parentHex w)))))
               (blockHash bj) = Lt).
Proof.
  intros m w. split; [reflexivity|].
  apply (first_arrival_keeps_ties m "ua" 5 pubkeyHex parentHex w). reflexivity.
Defined.

(** ** The form of the arguments *)

Section ArgumentForm.
Context `{Helpers}.

Lemma isLowerHex_hexDigit (n : N) :
  (n < 16)%N -> isLowerHex (Hex.hexDigit n) = true.
Proof.
  intros Hn. unfold isLowerHex. rewrite HexFacts.N_of_hexDigit by assumption.
  destruct (N.ltb_spec n 10).
  - apply orb_true_iff. left. apply andb_true_iff.
    split; apply N.leb_le; lia.
  - apply orb_true_iff. right. apply andb_true_iff.
    split; apply N.leb_le; lia.
Qed.

Lemma allLowerHex_encodeHex (bs : list byte) :
  allLowerHex (Hex.encodeHex bs) = true.
Proof.
  induction bs as [|b bs IH]; [reflexivity|]. simpl.
  destruct (HexFacts.byte_nibbles_lt b) as [H1 H2].
  now rewrite !isLowerHex_hexDigit, IH by assumption.
Qed.

Lemma lowerHexForm_sprintf_x (bs : list byte) :
  lowerHexForm (Hex.sprintf_x bs) = true.
Proof. unfold Hex.sprintf_x. simpl. apply allLowerHex_encodeHex. Qed.

Lemma length_encodeHex (bs : list byte) :
  String.length (Hex.encodeHex bs) = (2 * length bs)%nat.
Proof. induction bs as [|b bs IH]; simpl; [reflexivity|]. rewrite IH. lia. Qed.

Lemma length_sprintf_x (bs : list byte) :
  String.length (Hex.sprintf_x bs) = (2 + 2 * length bs)%nat.
Proof. unfold Hex.sprintf_x. simpl. now rewrite length_encodeHex. Qed.

(** X7.  The parent hash of a bid is compared with the argument as a
    string, and a hash prints as 0x and lower-case digits: when the argument
    is not of that form (upper-case digits, no 0x) every reply is rejected
    and [getHeader] returns the zero bid, whatever the relays answer. *)
Theorem non_canonical_parent_hash_no_bid (m : BoostService) (ua : UserAgent)
    (_slot : N) (pubkey parentHashHex : string) (w : HeaderWorld) :
  lowerHexForm parentHashHex = false ->
  fst (snd (getHeader m ua _slot pubkey parentHashHex w)) = zeroBidResp.
Proof.
  intros Hform.
  destruct (getHeader_result m ua _slot pubkey parentHashHex w) as [Hz|Hf];
    [exact Hz|].
  rewrite Hf. apply no_bids_final. intros i _. unfold bidAt.
  destruct (relays m !! i) as [relay|]; [|reflexivity].
  destruct (relayCheck m parentHashHex relay (reply w i)) as [bi|] eqn:Hc;
    [|reflexivity].
  apply relayCheck_Some in Hc as (_ & _ & _ & _ & _ & _ & _ & Hph & _).
  rewrite <- Hph in Hform. unfold Hash32_String in Hform.
  rewrite lowerHexForm_sprintf_x in Hform. discriminate.
Qed.

(** X8.  The two length checks are those of the printed forms: the string
    of a public key of 48 bytes and the string of a hash of 32 bytes pass
    the validation of [getHeader]. *)
Theorem canonical_arguments_accepted (m : BoostService) (ua : UserAgent)
    (_slot : N) (pk : BLSPubKey) (h : Hash32) (w : HeaderWorld) :
  length pk = 48%nat -> length h = 32%nat ->
  snd (snd (getHeader m ua _slot (BLSPubKey_String pk) (Hash32_String h) w))
  = None.
Proof.
  intros Hpk Hh. apply getHeader_valid.
  - unfold BLSPubKey_String. rewrite length_sprintf_x, Hpk. reflexivity.
  - unfold Hash32_String. rewrite length_sprintf_x, Hh. reflexivity.
Qed.

End ArgumentForm.

(** Relay A offers a good bid for parent 0xcc..; called with 0xCC.. the
    auction has no bid. *)
Lemma non_canonical_parent_hash_no_bid_witness :
  lowerHexForm upperParentHex = false /\
  String.length upperParentHex = 66%nat /\
  fst (snd (getHeader (service [relayA]) "ua" 5 pubkeyHex upperParentHex
              (world sameBlockReplies [0%nat]))) = zeroBidResp.
Proof.
  split; [reflexivity|]. split; [reflexivity|].
  apply non_canonical_parent_hash_no_bid. reflexivity.
Defined.

Lemma canonical_arguments_accepted_witness :
  length keyA = 48%nat /\ length parent = 32%nat /\
  snd (snd (getHeader (service [relayA]) "ua" 5 (BLSPubKey_String keyA)
              (Hash32_String parent) (world sameBlockReplies [0%nat])))
  = None.
Proof.
  split; [reflexivity|]. split; [reflexivity|].
  apply canonical_arguments_accepted; reflexivity.
Defined.

(** ** The slot-UID across calls *)

Section Correlation.
Context `{Helpers}.

Lemma getHeader_uid_header (m : BoostService) (ua : UserAgent) (_slot : N)
    (pubkey parentHashHex : string) (w : HeaderWorld) (rq : Request unit) :
  rq ∈ snd (fst (getHeader m ua _slot pubkey parentHashHex w)) ->
  req_headers rq !! HeaderKeySlotUID
  = Some (UUID_String
            (uid (slotUID (fst (fst (getHeader m ua _slot pubkey parentHashHex w)))))).
Proof.
  unfold getHeader.
  destruct (bool_decide (String.length pubkey ≠ 98%nat));
    [intros Hin; inversion Hin|].
  destruct (bool_decide (String.length parentHashHex ≠ 66%nat));
    [intros Hin; inversion Hin|].
  cbv zeta. cbn [fst snd]. intros Hin.
  apply list_elem_of_In, in_map_iff in Hin. destruct Hin as (relay & <- & _).
  simpl. apply lookup_insert_eq.
Qed.

Lemma getHeader_registry (m : BoostService) (ua : UserAgent) (_slot : N)
    (pubkey parentHashHex : string) (w : HeaderWorld) :
  let m' := fst (fst (getHeader m ua _slot pubkey parentHashHex w)) in
  slotUID m' = slotUID m \/
  ((slot (slotUID m) < _slot)%N /\ slot (slotUID m') = _slot /\
   String.length pubkey = 98%nat /\ String.length parentHashHex = 66%nat).
Proof.
  cbv zeta. unfold getHeader.
  destruct (decide (String.length pubkey = 98%nat)) as [Hp|Hp].
  2: { rewrite bool_decide_eq_true_2 by exact Hp. now left. }
  rewrite bool_decide_eq_false_2 by (intros Hn; now apply Hn).
  destruct (decide (String.length parentHashHex = 66%nat)) as [Hh|Hh].
  2: { rewrite bool_decide_eq_true_2 by exact Hh. now left. }
  rewrite bool_decide_eq_false_2 by (intros Hn; now apply Hn).
  cbv zeta. cbn [fst].
  destruct (N.ltb_spec (slot (slotUID m)) _slot); [right|left]; auto.
Qed.

Lemma payload_uid_header {R : Type} (fd : ForkDescriptor) (m : BoostService)
    (ua : UserAgent) (blindedBlock : SignedBlindedBeaconBlock R)
    (w : PayloadWorld) (rq : Request (SignedBlindedBeaconBlock R) * Z) :
  rq ∈ snd (fst (processPayload fd m ua blindedBlock w)) ->
  req_headers (fst rq) !! HeaderKeySlotUID = Some (uidHeaderFor m blindedBlock).
Proof.
  intros Hin.
  now apply (proj1 (proj2 (processPayload_preflight fd m ua blindedBlock w))).
Qed.

(** X9.  After a call of [getHeader] with well-formed arguments for a slot
    that is not behind the registry, a coordinator called for a blinded
    block of that slot sends the slot-UID that the [getHeader] requests
    carried; after a call for a slot behind the registry it sends an empty
    slot-UID for a block of that slot. *)
Theorem slot_uid_correlation (m : BoostService) (ua ua' : UserAgent)
    (_slot : N) (pubkey parentHashHex : string) (w : HeaderWorld)
    (w' : PayloadWorld) :
  String.length pubkey = 98%nat -> String.length parentHashHex = 66%nat ->
  let out := getHeader m ua _slot pubkey parentHashHex w in
  let m' := fst (fst out) in
  (forall (blindedBlock : SignedBlindedBeaconBlock DenebBlockRest) rq,
      Slot (Message blindedBlock) = _slot ->
      rq ∈ snd (fst (processDenebPayload m' ua' blindedBlock w')) ->
      req_headers (fst rq) !! HeaderKeySlotUID
      = Some (if (slot (slotUID m) <=? _slot)%N
              then UUID_String (uid (slotUID m')) else "")) /\
  (forall (blindedBlock : SignedBlindedBeaconBlock ElectraBlockRest) rq,
      Slot (Message blindedBlock) = _slot ->
      rq ∈ snd (fst (processElectraPayload m' ua' blindedBlock w')) ->
      req_headers (fst rq) !! HeaderKeySlotUID
      = Some (if (slot (slotUID m) <=? _slot)%N
              then UUID_String (uid (slotUID m')) else "")) /\
  (forall rq, rq ∈ snd (fst out) ->
              req_headers rq !! HeaderKeySlotUID
              = Some (UUID_String (uid (slotUID m')))).
Proof.
  intros Hp Hh. cbv zeta.
  set (m' := fst (fst (getHeader m ua _slot pubkey parentHashHex w))).
  assert (forall R (blindedBlock : SignedBlindedBeaconBlock R),
             Slot (Message blindedBlock) = _slot ->
             uidHeaderFor m' blindedBlock
             = if (slot (slotUID m) <=? _slot)%N
               then UUID_String (uid (slotUID m')) else "") as Huid.
  { intros R blindedBlock Hs. unfold uidHeaderFor. rewrite Hs.
    destruct (getHeader_registry m ua _slot pubkey parentHashHex w)
      as [Hsame|(Hlt & Hnew & _)]; fold m' in Hsame || fold m' in Hnew.
    - rewrite Hsame.
      pose proof (getHeader_slot_le m ua _slot pubkey parentHashHex w) as Hle.
      destruct (N.leb_spec (slot (slotUID m)) _slot) as [Hle'|Hgt].
      + destruct (decide (slot (slotUID m) = _slot)) as [|Hne];
          [reflexivity|exfalso].
        assert (slot (slotUID m) < _slot)%N as Hlt by lia.
        unfold m' in Hsame. unfold getHeader in Hsame.
        rewrite (bool_decide_eq_false_2 (String.length pubkey ≠ 98%nat)) in Hsame
          by (intros Hn; now apply Hn).
        rewrite (bool_decide_eq_false_2 (String.length parentHashHex ≠ 66%nat))
          in Hsame by (intros Hn; now apply Hn).
        cbv zeta in Hsame. cbn [fst] in Hsame.
        apply N.ltb_lt in Hlt. rewrite Hlt in Hsame. simpl in Hsame.
        apply N.ltb_lt in Hlt. rewrite <- Hsame in Hlt. simpl in Hlt. lia.
      + destruct (decide (slot (slotUID m) = _slot)); [lia|reflexivity].
    - rewrite Hnew.
      destruct (decide (_slot = _slot)); [|contradiction].
      destruct (N.leb_spec (slot (slotUID m)) _slot); [reflexivity|lia]. }
  split; [|split].
  - intros blindedBlock rq Hs Hin. rewrite processDenebPayload_generic in Hin.
    rewrite (payload_uid_header _ _ _ _ _ _ Hin). f_equal. now apply Huid.
  - intros blindedBlock rq Hs Hin. rewrite processElectraPayload_generic in Hin.
    rewrite (payload_uid_header _ _ _ _ _ _ Hin). f_equal. now apply Huid.
  - intros rq Hin. now apply getHeader_uid_header.
Qed.

Lemma serve_registry (m : BoostService) (c : Call) :
  slotUID (serve m c) = slotUID m \/
  (slot (slotUID m) < slot (slotUID (serve m c)))%N.
Proof.
  destruct c as [ua s pk ph w| |]; simpl; [|now left|now left].
  destruct (getHeader_registry m ua s pk ph w) as [?|(Hlt & Hs & _)];
    [now left|right].
  cbv zeta in Hs. now rewrite Hs.
Qed.

(** X10.  The UID changes only when the slot does: over any sequence of
    calls of [getHeader] and of the two coordinators, if the registry ends
    at the slot at which it started, it holds the UID with which it
    started. *)
Theorem uid_stable_within_slot (calls : list Call) (m : BoostService) :
  slot (slotUID (lifetime m calls)) = slot (slotUID m) ->
  slotUID (lifetime m calls) = slotUID m.
Proof.
  revert m. induction calls as [|c calls IH]; intros m Hs; [reflexivity|].
  change (lifetime m (c :: calls)) with (lifetime (serve m c) calls) in *.
  pose proof (lifetime_slot_le calls (serve m c)) as Hle.
  destruct (serve_registry m c) as [Hsame|Hlt]; [|lia].
  rewrite IH; [exact Hsame|]. now rewrite Hsame.
Qed.

End Correlation.

Lemma slot_uid_correlation_witness :
  let m := service [relayA] in
  let w := world sameBlockReplies [0%nat] in
  let m' := fst (fst (getHeader m "ua" 5 pubkeyHex parentHex w)) in
  String.length pubkeyHex = 98%nat /\ String.length parentHex = 66%nat /\
  forall rq,
    rq ∈ snd (fst (processDenebPayload m' "ua" MockPayload.block
                     MockPayload.silent)) ->
    req_headers (fst rq) !! HeaderKeySlotUID
    = Some (UUID_String (uid (slotUID m'))).
Proof.
  intros m w m'. split; [reflexivity|]. split; [reflexivity|].
  intros rq Hin.
  exact (proj1 (slot_uid_correlation m "ua" "ua" 5 pubkeyHex parentHex w
                  MockPayload.silent eq_refl eq_refl)
           MockPayload.block rq eq_refl Hin).
Defined.

Lemma uid_stable_within_slot_witness :
  let m := service [relayA] in
  let calls :=
    [CallGetHeader "ua" 0 pubkeyHex parentHex (world sameBlockReplies [0%nat]);
     CallDenebPayload "ua" MockPayload.block MockPayload.silent] in
  slot (slotUID (lifetime m calls)) = slot (slotUID m) /\
  slotUID (lifetime m calls) = slotUID m.
Proof.
  intros m calls.
  assert (slot (slotUID (lifetime m calls)) = slot (slotUID m)) as Hs
    by reflexivity.
  split; [exact Hs|]. exact (uid_stable_within_slot calls m Hs).
Defined.

(** ** More on the payload race *)

Section RaceMore.
Context `{Helpers}.

Local Abbreviation Resp := VersionedSubmitBlindedBlockResponse.

Lemma raceInv2_init (n : nat) : raceInv2 (initRace n).
Proof.
  unfold raceInv2, initRace, posted. simpl.
  split; [lia|]. split; [discriminate|]. split; [intros [? [=]]|].
  apply Forall_replicate. discriminate.
Qed.

Lemma chanSend_cancel (cap : nat) (v : option Resp) (st st' : Race) :
  chanSend cap v st = Some st' ->
  (ctxCancelled st = true -> ctxCancelled st' = true) /\
  (is_Some (result st') -> is_Some (result st) \/ ctxCancelled st' = true) /\
  (is_Some (result st) -> is_Some (result st')).
Proof.
  unfold chanSend.
  destruct (length (resultCh st) <? cap)%nat; [intros [= <-]; simpl; auto|].
  destruct ((cap =? 0)%nat && isNil (result st)); [|discriminate].
  intros [= <-]. simpl. split; [auto|]. split; [auto|]. eauto.
Qed.

Lemma raceStep_inv2 (cap : nat) (check : Reply Resp -> checkOutcome)
    (st : Race) (ev : event) :
  raceInv cap check st -> raceInv2 st ->
  raceInv2 (raceStep cap check st ev).
Proof.
  intros (_ & _ & _ & Hcap & _) Inv2.
  pose proof Inv2 as (Hlen & Hrc & Hres & Htk).
  assert (forall v st',
             chanSend cap v st = Some st' ->
             forall (done : bool) (ts : list taskPC),
               (Nat.b2n (sentinelDone st) + (match v with Some _ => 0 | None => 1 end)
                <= Nat.b2n done)%nat ->
               Forall (fun pc => pastCancel pc = true -> ctxCancelled st' = true) ts ->
               raceInv2 {| received := received st';
                           ctxCancelled := ctxCancelled st';
                           resultCh := resultCh st'; result := result st';
                           sentinelDone := done; crashed := crashed st';
                           tasks := ts |}) as Hsent.
  { intros v st' Hsend done ts Hdone Hts.
    pose proof (chanSend_cancel _ _ _ _ Hsend) as (Hc1 & Hc2 & _).
    apply chanSend_Some in Hsend as (Hp & Hr & _); [|exact Hcap].
    unfold raceInv2. simpl.
    change (posted {| received := received st'; ctxCancelled := ctxCancelled st';
                      resultCh := resultCh st'; result := result st';
                      sentinelDone := done; crashed := crashed st';
                      tasks := ts |}) with (posted st').
    rewrite Hp, Hr, payloadsOf_snoc, !length_app.
    split; [destruct v; simpl in *; lia|]. split; [auto|].
    split; [intros Hx; destruct (Hc2 Hx); auto|exact Hts]. }
  unfold raceStep.
  destruct (crashed st) eqn:Hcr; [exact Inv2|].
  destruct ev as [|i r|i|].
  - destruct (sentinelDone st) eqn:Hs; [exact Inv2|].
    destruct (chanSend cap None st) as [st'|] eqn:Hsend; [|exact Inv2].
    apply (Hsent None st' Hsend true (tasks st')); [simpl; lia|].
    pose proof (chanSend_cancel _ _ _ _ Hsend) as (Hc1 & _).
    apply chanSend_Some in Hsend as (_ & _ & -> & _); [|exact Hcap].
    eapply Forall_impl; [exact Htk|]. simpl. auto.
  - destruct (tasks st !! i) as [[| | | |]|] eqn:Hi; try exact Inv2.
    destruct (check r); [| |exact Inv2];
      (split; [exact Hlen|]; split; [exact Hrc|]; split; [exact Hres|];
       apply Forall_insert; [exact Htk|discriminate]).
  - destruct (tasks st !! i) as [[|p|p|p|]|] eqn:Hi; try exact Inv2.
    + split; [exact Hlen|]. split; [reflexivity|]. split; [reflexivity|].
      apply Forall_insert; [|reflexivity].
      eapply Forall_impl; [exact Htk|]. simpl. auto.
    + assert (ctxCancelled st = true) as Hc.
      { rewrite Forall_lookup in Htk. now apply (Htk i _ Hi). }
      destruct (received st) eqn:Hrcv.
      * split; [exact Hlen|]. split; [auto|]. split; [exact Hres|].
        apply Forall_insert; [exact Htk|discriminate].
      * split; [exact Hlen|]. split; [auto|]. split; [exact Hres|].
        apply Forall_insert; [exact Htk|auto].
    + destruct (chanSend cap (Some p) st) as [st'|] eqn:Hsend; [|exact Inv2].
      apply (Hsent (Some p) st' Hsend (sentinelDone st')
               (<[i := Finished]> (tasks st'))).
      * apply chanSend_Some in Hsend as (_ & _ & _ & -> & _); [lia|exact Hcap].
      * pose proof (chanSend_cancel _ _ _ _ Hsend) as (Hc1 & _).
        apply chanSend_Some in Hsend as (_ & _ & -> & _); [|exact Hcap].
        apply Forall_insert; [|discriminate].
        eapply Forall_impl; [exact Htk|]. simpl. auto.
  - destruct (result st) as [v|] eqn:Hr; [exact Inv2|].
    destruct (resultCh st) as [|v q] eqn:Hq; [exact Inv2|].
    unfold raceInv2, posted in *. rewrite Hr, Hq in Hlen. simpl in *.
    split; [exact Hlen|]. split; [reflexivity|]. split; [reflexivity|].
    eapply Forall_impl; [exact Htk|]. simpl. auto.
Qed.

Lemma runRace_inv2 (cap : nat) (check : Reply Resp -> checkOutcome)
    (sched : list event) (st : Race) :
  raceInv cap check st -> raceInv2 st ->
  raceInv2 (runRace cap check sched st).
Proof.
  revert st. induction sched as [|ev sched IH]; intros st I1 I2; [exact I2|].
  apply IH; [now apply raceStep_inv|now apply raceStep_inv2].
Qed.

Lemma raceStep_cancel_sticky (cap : nat) (check : Reply Resp -> checkOutcome)
    (st : Race) (ev : event) :
  ctxCancelled st = true -> ctxCancelled (raceStep cap check st ev) = true.
Proof.
  intros Hc. unfold raceStep, chanSend, setTask.
  repeat match goal with
         | |- context [if ?b then _ else _] => destruct b
         | |- context [match ?x with _ => _ end] => destruct x
         end; simpl; auto.
Qed.

(** X13.  In every state of the race the request context is cancelled once
    a goroutine has passed its checks and called [requestCtxCancel], so
    whenever the flag is set, and once the caller has its value (the
    deferred cancel); once cancelled it stays cancelled. *)
Theorem context_cancelled_on_success (cap n : nat)
    (check : Reply Resp -> checkOutcome) (sched : list event) :
  let st := runRace cap check sched (initRace n) in
  (received st = true -> ctxCancelled st = true) /\
  (is_Some (result st) -> ctxCancelled st = true) /\
  (forall i pc, tasks st !! i = Some pc -> pastCancel pc = true ->
                ctxCancelled st = true) /\
  (forall more, ctxCancelled st = true ->
                ctxCancelled (runRace cap check more st) = true).
Proof.
  intros st.
  assert (raceInv2 st) as (_ & Hrc & Hres & Htk)
    by (apply runRace_inv2; [apply raceInv_init|apply raceInv2_init]).
  split; [exact Hrc|]. split; [exact Hres|]. split.
  - intros i pc Hi. rewrite Forall_lookup in Htk. now apply (Htk i pc).
  - intros more. generalize st. clear.
    induction more as [|ev more IH]; intros st Hc; [exact Hc|].
    apply IH. now apply raceStep_cancel_sticky.
Qed.

Lemma token_counts (l : list taskPC) (i : nat) (p : Resp) :
  l !! i = Some (AtSend p) -> (1 <= sum_list (holdsToken <$> l))%nat.
Proof.
  revert i. induction l as [|x l IH]; intros [|i] Hl; csimpl in *;
    try discriminate.
  - injection Hl as ->. simpl. lia.
  - specialize (IH i Hl). lia.
Qed.

(** X14.  At most two values are ever sent on the channel (the payload and
    the [nil] of the sentinel); so a goroutine that is about to send is
    never held up when the channel has room for two, and with at least one
    relay it is never held up once the caller has read its value: no
    goroutine stays blocked on the channel after the function has
    returned. *)
Theorem no_sender_blocks_after_return (cap n : nat)
    (check : Reply Resp -> checkOutcome) (sched : list event) :
  let st := runRace cap check sched (initRace n) in
  let clear := (2 <= cap \/ (1 <= cap /\ is_Some (result st)))%nat in
  (length (posted st) <= 2)%nat /\
  (clear -> sentinelDone st = false -> is_Some (chanSend cap None st)) /\
  (clear -> forall i p, tasks st !! i = Some (AtSend p) ->
                        is_Some (chanSend cap (Some p) st)).
Proof.
  intros st clear.
  assert (raceInv cap check st) as (Hcnt & _ & _ & Hcap & _)
    by (apply runRace_inv, raceInv_init).
  assert (raceInv2 st) as (Hlen & _)
    by (apply runRace_inv2; [apply raceInv_init|apply raceInv2_init]).
  assert (Nat.b2n (received st) <= 1 /\ Nat.b2n (sentinelDone st) <= 1)%nat
    as [Hb1 Hb2] by (destruct (received st), (sentinelDone st); simpl; lia).
  assert (forall v, (length (posted st) <= 1)%nat -> clear ->
                    is_Some (chanSend cap v st)) as Hsend.
  { intros v Hone Hclear. unfold chanSend.
    assert (length (resultCh st) < cap)%nat as Hroom.
    { unfold posted in Hone. rewrite length_app in Hone.
      destruct Hclear as [?|[? [x Hx]]]; [lia|].
      rewrite Hx in Hone. simpl in Hone. lia. }
    apply Nat.ltb_lt in Hroom. rewrite Hroom. eauto. }
  split; [lia|]. split.
  - intros Hclear Hs. apply Hsend; [|exact Hclear]. rewrite Hs in Hlen.
    simpl in Hlen. lia.
  - intros Hclear i p Hi. apply Hsend; [|exact Hclear].
    apply token_counts in Hi. lia.
Qed.

End RaceMore.

(** ** Who wins the race *)

Section RaceWinner.
Context `{Helpers}.

Local Abbreviation Resp := VersionedSubmitBlindedBlockResponse.

(** The first relay to answer with a response that passes the checks, and
    whose goroutine runs to its send before the sentinel fires, gives the
    caller its payload. *)
Lemma first_valid_wins (n i : nat) (check : Reply Resp -> checkOutcome)
    (r : Reply Resp) (more : list event) :
  (i < n)%nat -> check r = Deliver ->
  result (runRace n check
            (HTTPReturns i r :: Step i :: Step i :: Step i :: CallerReceives
               :: more) (initRace n))
  = Some (Some (payload r)).
Proof.
  intros Hi Hck.
  change (runRace n check
            (HTTPReturns i r :: Step i :: Step i :: Step i :: CallerReceives
               :: more) (initRace n))
    with (runRace n check more
            (raceStep n check
               (raceStep n check
                  (raceStep n check
                     (raceStep n check
                        (raceStep n check (initRace n) (HTTPReturns i r))
                        (Step i)) (Step i)) (Step i)) CallerReceives)).
  apply runRace_result_stable.
  set (T0 := replicate n Dispatched).
  assert (T0 !! i = Some Dispatched) as H0' by (apply lookup_replicate_2; lia).
  assert (length T0 = n) as HT by apply length_replicate.
  assert (raceStep n check (initRace n) (HTTPReturns i r)
          = {| received := false; ctxCancelled := false; resultCh := [];
               result := None; sentinelDone := false; crashed := false;
               tasks := <[i := AtCancel (payload r)]> T0 |}) as ->.
  { unfold raceStep, initRace, setTask. simpl. fold T0. now rewrite H0', Hck. }
  assert (forall pc (l : list taskPC), length l = n -> <[i := pc]> l !! i = Some pc)
    as Hlk by (intros pc l Hl; apply list_lookup_insert_eq; lia).
  unfold raceStep at 4. simpl. rewrite (Hlk _ T0 HT).
  unfold raceStep at 3. simpl.
  rewrite Hlk by (now rewrite length_insert).
  unfold raceStep at 2. simpl.
  rewrite Hlk by (now rewrite !length_insert).
  unfold chanSend. simpl.
  assert ((0 <? n)%nat = true) as -> by (apply Nat.ltb_lt; lia).
  reflexivity.
Qed.

(** X15.  When the first event of the race is the reply of a configured
    relay that passes the checks, and its goroutine cancels, swaps and sends
    before anything else happens, the coordinator returns the payload of
    that reply together with the cached bid, whatever happens later. *)
Theorem valid_response_delivered :
  (forall m ua blindedBlock w i r more,
      (i < length (relays m))%nat ->
      denebRelayChecks blindedBlock r = Deliver ->
      schedule w = HTTPReturns i r :: Step i :: Step i :: Step i
                     :: CallerReceives :: more ->
      snd (processDenebPayload m ua blindedBlock w)
      = Returned (Some (payload r), cachedBid m blindedBlock)) /\
  (forall m ua blindedBlock w i r more,
      (i < length (relays m))%nat ->
      electraRelayChecks blindedBlock r = Deliver ->
      schedule w = HTTPReturns i r :: Step i :: Step i :: Step i
                     :: CallerReceives :: more ->
      snd (processElectraPayload m ua blindedBlock w)
      = Returned (Some (payload r), cachedBid m blindedBlock)).
Proof.
  split; intros m ua blindedBlock w i r more Hi Hck Hs.
  - unfold processDenebPayload, callerOutcome. cbv zeta. cbn [snd].
    rewrite Hs, (first_valid_wins _ _ _ _ _ Hi Hck). reflexivity.
  - unfold processElectraPayload, callerOutcome. cbv zeta. cbn [snd].
    rewrite Hs, (first_valid_wins _ _ _ _ _ Hi Hck). reflexivity.
Qed.

Lemma short_list_unique {A : Type} (l : list A) (x y : A) :
  (length l <= 1)%nat -> x ∈ l -> y ∈ l -> x = y.
Proof.
  destruct l as [|a [|b l]]; simpl; intros Hl Hx Hy; [inversion Hx| |lia].
  apply list_elem_of_singleton in Hx, Hy. congruence.
Qed.

Lemma wonBy_unique (cap : nat) (check : Reply Resp -> checkOutcome)
    (st : Race) (p q : Resp) :
  raceInv cap check st -> wonBy st p -> Some q ∈ posted st -> q = p.
Proof.
  intros (Hcnt & _) Hw Hq.
  assert (Nat.b2n (received st) <= 1)%nat
    by (destruct (received st); simpl; lia).
  assert (q ∈ payloadsOf (posted st)) as Hq'
    by (apply list_elem_of_omap; exists (Some q); auto).
  destruct Hw as [Hp|[i Hi]].
  - assert (p ∈ payloadsOf (posted st)) as Hp'
      by (apply list_elem_of_omap; exists (Some p); auto).
    apply (short_list_unique (payloadsOf (posted st))); [lia|auto|auto].
  - apply token_counts in Hi.
    destruct (payloadsOf (posted st)); [inversion Hq'|simpl in Hcnt; lia].
Qed.

Lemma wonBy_step (cap : nat) (check : Reply Resp -> checkOutcome)
    (st : Race) (ev : event) (p : Resp) :
  raceInv cap check st -> wonBy st p -> wonBy (raceStep cap check st ev) p.
Proof.
  intros Inv [Hp|[i Hi]].
  { left. destruct (raceStep_posted_grows cap check st ev Inv) as [l ->].
    apply elem_of_app. now left. }
  pose proof Inv as (_ & _ & _ & Hcap & _).
  assert (forall j pc, j ≠ i -> <[j := pc]> (tasks st) !! i = Some (AtSend p))
    as Hother by (intros j pc Hne; now rewrite list_lookup_insert_ne).
  unfold raceStep.
  destruct (crashed st); [right; eauto|].
  destruct ev as [|j r|j|].
  - destruct (sentinelDone st); [right; eauto|].
    destruct (chanSend cap None st) as [st'|] eqn:Hs; [|right; eauto].
    apply chanSend_Some in Hs as (_ & _ & Ht & _); [|exact Hcap].
    right. exists i. simpl. now rewrite Ht.
  - destruct (tasks st !! j) as [[| | | |]|] eqn:Hj; try solve [right; eauto].
    assert (j ≠ i) as Hne by (intros ->; congruence).
    destruct (check r); right; exists i; simpl; auto.
  - destruct (tasks st !! j) as [[|p'|p'|p'|]|] eqn:Hj; try solve [right; eauto].
    + assert (j ≠ i) as Hne by (intros ->; congruence).
      right. exists i. simpl. auto.
    + assert (j ≠ i) as Hne by (intros ->; congruence).
      destruct (received st); right; exists i; simpl; auto.
    + destruct (chanSend cap (Some p') st) as [st'|] eqn:Hs; [|right; eauto].
      apply chanSend_Some in Hs as (Hpost & _ & Ht & _); [|exact Hcap].
      destruct (decide (j = i)) as [->|Hne].
      * left. change (Some p ∈ posted st'). rewrite Hpost.
        apply elem_of_app. right. rewrite Hi in Hj. injection Hj as ->.
        now left.
      * right. exists i. simpl. rewrite Ht. auto.
  - destruct (result st); [right; eauto|].
    destruct (resultCh st); right; eauto.
Qed.

Lemma wonBy_run (cap : nat) (check : Reply Resp -> checkOutcome)
    (more : list event) (st : Race) (p : Resp) :
  raceInv cap check st -> wonBy st p ->
  raceInv cap check (runRace cap check more st) /\
  wonBy (runRace cap check more st) p.
Proof.
  revert st. induction more as [|ev more IH]; intros st Inv Hw; [auto|].
  apply IH; [now apply raceStep_inv|now apply wonBy_step].
Qed.

(** X16.  Once a goroutine has won the swap with its payload (it is about
    to send it, or has sent it), no later event changes the winner: the only
    payload the caller can ever read is that one. *)
Theorem swap_winner_is_final (cap n : nat) (check : Reply Resp -> checkOutcome)
    (sched : list event) (p : Resp) :
  wonBy (runRace cap check sched (initRace n)) p ->
  forall more q,
    result (runRace cap check more (runRace cap check sched (initRace n)))
    = Some (Some q) ->
    q = p.
Proof.
  intros Hw more q Hres.
  destruct (wonBy_run cap check more _ p
              (runRace_inv cap check sched _ (raceInv_init cap check n)) Hw)
    as [Inv' Hw'].
  apply (wonBy_unique cap check _ p q Inv' Hw').
  unfold posted. rewrite Hres. now left.
Qed.

End RaceWinner.

Lemma valid_response_delivered_witness :
  (0 < length (relays (service [relayA])))%nat /\
  denebRelayChecks MockPayload.block (ok200 MockPayload.goodResponse) = Deliver /\
  snd (processDenebPayload (service [relayA]) "ua" MockPayload.block
         MockPayload.relayWins)
  = Returned (Some MockPayload.goodResponse,
              cachedBid (service [relayA]) MockPayload.block).
Proof.
  assert (0 < length (relays (service [relayA])))%nat as Hi by (simpl; lia).
  assert (denebRelayChecks MockPayload.block (ok200 MockPayload.goodResponse)
          = Deliver) as Hck by reflexivity.
  split; [exact Hi|]. split; [exact Hck|].
  exact (proj1 valid_response_delivered (service [relayA]) "ua"
           MockPayload.block MockPayload.relayWins 0%nat
           (ok200 MockPayload.goodResponse) [] Hi Hck eq_refl).
Defined.

(** The goroutine of the only relay has won the swap; whatever follows,
    here the sentinel and the send, the caller reads its payload. *)
Lemma swap_winner_is_final_witness :
  wonBy MockPayload_afterSwap MockPayload.goodResponse /\
  forall q,
    result (runRace 1 (denebRelayChecks MockPayload.block)
              [SentinelFires; Step 0; CallerReceives; CallerReceives]
              MockPayload_afterSwap) = Some (Some q) ->
    q = MockPayload.goodResponse.
Proof.
  assert (wonBy MockPayload_afterSwap MockPayload.goodResponse) as Hw
    by (right; exists 0%nat; reflexivity).
  split; [exact Hw|]. intros q.
  exact (swap_winner_is_final 1 1 (denebRelayChecks MockPayload.block)
           [HTTPReturns 0 (ok200 MockPayload.goodResponse); Step 0; Step 0]
           MockPayload.goodResponse Hw
           [SentinelFires; Step 0; CallerReceives; CallerReceives] q).
Defined.

(** ** Panics of the payload goroutines *)

Section Panics.
Context `{Helpers}.

Local Abbreviation Resp := VersionedSubmitBlindedBlockResponse.

Lemma relayTaskChecks_no_panic {R : Type} (fd : ForkDescriptor)
    (blindedBlock : SignedBlindedBeaconBlock R) (r : Reply Resp)
    (arm : ExecutionPayloadAndBlobsBundle) (e : ExecutionPayload)
    (b : BlobsBundle) :
  responseArm fd (payload r) = Some arm ->
  pb_ExecutionPayload arm = Some e -> pb_BlobsBundle arm = Some b ->
  relayTaskChecks fd blindedBlock r ≠ Panic.
Proof.
  intros Ha He Hb. unfold relayTaskChecks, validatePayload.
  rewrite Ha, He, Hb.
  repeat match goal with
         | |- context [if ?c then _ else _] => destruct c
         | |- context [match ?x with _ => _ end] => destruct x
         end; discriminate.
Qed.

(** X11.  The index into the commitments of the response never leaves its
    range, thanks to the comparison of the lengths before the loop: when the
    arm of the fork, its execution payload and its blobs bundle are there,
    the checks of a goroutine end by a return or by a delivery, never by a
    panic. *)
Theorem checks_index_in_range :
  (forall blindedBlock (r : Reply Resp) arm e b,
      Deneb (payload r) = Some arm ->
      pb_ExecutionPayload arm = Some e -> pb_BlobsBundle arm = Some b ->
      denebRelayChecks blindedBlock r ≠ Panic) /\
  (forall blindedBlock (r : Reply Resp) arm e b,
      Electra (payload r) = Some arm ->
      pb_ExecutionPayload arm = Some e -> pb_BlobsBundle arm = Some b ->
      electraRelayChecks blindedBlock r ≠ Panic).
Proof.
  split; intros blindedBlock r arm e b Ha He Hb.
  - rewrite denebRelayChecks_generic.
    now apply (relayTaskChecks_no_panic denebFork blindedBlock r arm e b).
  - rewrite electraRelayChecks_generic.
    now apply (relayTaskChecks_no_panic electraFork blindedBlock r arm e b).
Qed.

Lemma checks_never_panic {R : Type} (fd : ForkDescriptor)
    (blindedBlock : SignedBlindedBeaconBlock R) (r : Reply Resp) :
  reportsNilAsEmpty -> fd = denebFork \/ fd = electraFork ->
  relayTaskChecks fd blindedBlock r ≠ Panic.
Proof.
  intros Hfaith Hfd.
  destruct (err r) as [x|] eqn:Herr;
    [unfold relayTaskChecks; rewrite Herr; discriminate|].
  destruct (decide (Version (payload r) = expectedVersion fd)) as [Hv|Hv].
  2: { unfold relayTaskChecks, validatePayload. rewrite Herr.
       rewrite bool_decide_eq_false_2 by assumption. discriminate. }
  destruct (getPayloadResponseIsEmpty (payload r)) eqn:Hemp.
  { unfold relayTaskChecks, validatePayload. rewrite Herr, Hemp.
    destruct (negb _); discriminate. }
  destruct (Hfaith fd (payload r) Hfd Hv Hemp) as (arm & e & b & Ha & He & Hb).
  now apply (relayTaskChecks_no_panic fd blindedBlock r arm e b).
Qed.

Lemma raceStep_no_crash (cap : nat) (check : Reply Resp -> checkOutcome)
    (st : Race) (ev : event) :
  (forall r, check r ≠ Panic) -> crashed st = false ->
  crashed (raceStep cap check st ev) = false.
Proof.
  intros Hnp Hcr. unfold raceStep, chanSend, setTask. rewrite Hcr.
  destruct ev as [|i r|i|].
  - repeat match goal with
           | |- context [if ?c then _ else _] => destruct c
           end; simpl; auto.
  - destruct (tasks st !! i) as [[| | | |]|]; auto.
    specialize (Hnp r). destruct (check r); simpl; auto. contradiction.
  - destruct (tasks st !! i) as [[|p|p|p|]|]; simpl; auto.
    + destruct (received st); simpl; auto.
    + repeat match goal with
             | |- context [if ?c then _ else _] => destruct c
             end; simpl; auto.
  - destruct (result st); auto. destruct (resultCh st); simpl; auto.
Qed.

Lemma runRace_no_crash (cap : nat) (check : Reply Resp -> checkOutcome)
    (sched : list event) (st : Race) :
  (forall r, check r ≠ Panic) -> crashed st = false ->
  crashed (runRace cap check sched st) = false.
Proof.
  intros Hnp. revert st.
  induction sched as [|ev sched IH]; intros st Hcr; [exact Hcr|].
  apply IH. now apply raceStep_no_crash.
Qed.

Lemma processPayload_no_crash {R : Type} (fd : ForkDescriptor)
    (m : BoostService) (ua : UserAgent)
    (blindedBlock : SignedBlindedBeaconBlock R) (w : PayloadWorld) :
  reportsNilAsEmpty -> fd = denebFork \/ fd = electraFork ->
  snd (processPayload fd m ua blindedBlock w) ≠ Crashed /\
  forall sched, schedule w = sched ++ [SentinelFires; CallerReceives] ->
                exists v, snd (processPayload fd m ua blindedBlock w)
                          = Returned (v, cachedBid m blindedBlock).
Proof.
  intros Hfaith Hfd.
  assert (forall sched,
             crashed (runRace (length (relays m))
                        (relayTaskChecks fd blindedBlock) sched
                        (initRace (length (relays m)))) = false) as Hnc.
  { intros sched. apply runRace_no_crash; [|reflexivity].
    intros r. now apply checks_never_panic. }
  split.
  - unfold processPayload, callerOutcome. cbv zeta. cbn [snd].
    destruct (result _); [discriminate|]. now rewrite Hnc.
  - intros sched Hs. unfold processPayload, callerOutcome. cbv zeta.
    cbn [snd]. rewrite Hs. unfold runRace. rewrite foldl_app.
    fold (runRace (length (relays m)) (relayTaskChecks fd blindedBlock) sched
            (initRace (length (relays m)))).
    set (st := runRace _ _ sched _).
    fold (runRace (length (relays m)) (relayTaskChecks fd blindedBlock)
            [SentinelFires; CallerReceives] st).
    destruct (race_caller_reads (length (relays m))
                (relayTaskChecks fd blindedBlock) st) as [v ->].
    + apply runRace_inv, raceInv_init.
    + apply Hnc.
    + exists v. unfold cachedBid. now destruct (bids m !! _).
Qed.

(** X12.  When [getPayloadResponseIsEmpty] reports a response with a nil
    arm, payload or bundle as empty, no goroutine of a coordinator panics,
    under any schedule; and once the sentinel has fired and the caller has
    run, the coordinator has returned a value and the cached bid. *)
Theorem no_panic_with_faithful_helper :
  reportsNilAsEmpty ->
  (forall m ua blindedBlock w,
      snd (processDenebPayload m ua blindedBlock w) ≠ Crashed /\
      forall sched, schedule w = sched ++ [SentinelFires; CallerReceives] ->
                    exists v, snd (processDenebPayload m ua blindedBlock w)
                              = Returned (v, cachedBid m blindedBlock)) /\
  (forall m ua blindedBlock w,
      snd (processElectraPayload m ua blindedBlock w) ≠ Crashed /\
      forall sched, schedule w = sched ++ [SentinelFires; CallerReceives] ->
                    exists v, snd (processElectraPayload m ua blindedBlock w)
                              = Returned (v, cachedBid m blindedBlock)).
Proof.
  intros Hfaith. split; intros m ua blindedBlock w.
  - rewrite processDenebPayload_generic.
    apply processPayload_no_crash; [exact Hfaith|now left].
  - rewrite processElectraPayload_generic.
    apply processPayload_no_crash; [exact Hfaith|now right].
Qed.

End Panics.

(** The good response has all its parts, and its checks deliver. *)
Lemma checks_index_in_range_witness :
  denebRelayChecks MockPayload.block (ok200 MockPayload.goodResponse) ≠ Panic.
Proof.
  refine (proj1 checks_index_in_range MockPayload.block
            (ok200 MockPayload.goodResponse) _ _ _ eq_refl eq_refl eq_refl).
Defined.

(** The helper of the stand-in reports nil parts as empty. *)
Lemma no_panic_with_faithful_helper_witness :
  reportsNilAsEmpty /\
  snd (processDenebPayload (service [relayA]) "ua" MockPayload.block
         MockPayload.relayWins) ≠ Crashed.
Proof.
  assert (reportsNilAsEmpty) as Hfaith.
  { intros fd p [-> | ->] Hv Hne; simpl in *; unfold mockIsEmpty in Hne;
      rewrite Hv in Hne.
    - destruct (Deneb p) as [[[e|] [b|]]|]; try discriminate.
      exists {| pb_ExecutionPayload := Some e; pb_BlobsBundle := Some b |}, e, b.
      auto.
    - destruct (Electra p) as [[[e|] [b|]]|]; try discriminate.
      exists {| pb_ExecutionPayload := Some e; pb_BlobsBundle := Some b |}, e, b.
      auto. }
  split; [exact Hfaith|].
  exact (proj1 (proj1 (no_panic_with_faithful_helper Hfaith) (service [relayA])
                  "ua" MockPayload.block MockPayload.relayWins)).
Defined.
